(** * Body-expansion engine of the template code generator

    A shallow embedding of the [Generator] class (the variant that also
    emits a zod schema): the placeholder substitutor, the recursive field
    walker with its six accumulators, the body-placeholder expander and the
    control flow of [generate].

    Modelling conventions.
    - A JavaScript string is a [string] of ASCII code units; case mapping
      and white space follow ECMAScript on that range.
    - A JavaScript object is the list of its own enumerable properties in
      the order [Object.entries] yields them; [parsed] gives that order
      for the object [JSON.parse] builds from members as they are written.
    - A number is carried by the text [Number.prototype.toString] gives it.
    - An exception is a value of [Outcome]; a function that may throw
      returns [Outcome A]. *)

From Stdlib Require Import Ascii Sorted.
From stdpp Require Import base strings list gmap.

(** ** ECMAScript string primitives *)

Module JS.

Definition nl : string := String "010"%char EmptyString.

(** The double quotation mark. *)
Definition quote : string := String (ascii_of_nat 34) EmptyString.

Definition isLowerAlpha (c : ascii) : bool :=
  let n := nat_of_ascii c in (97 <=? n)%nat && (n <=? 122)%nat.

Definition isUpperAlpha (c : ascii) : bool :=
  let n := nat_of_ascii c in (65 <=? n)%nat && (n <=? 90)%nat.

Definition isDigit (c : ascii) : bool :=
  let n := nat_of_ascii c in (48 <=? n)%nat && (n <=? 57)%nat.

Definition upperChar (c : ascii) : ascii :=
  if isLowerAlpha c then ascii_of_nat (nat_of_ascii c - 32) else c.

Definition lowerChar (c : ascii) : ascii :=
  if isUpperAlpha c then ascii_of_nat (nat_of_ascii c + 32) else c.

Fixpoint mapChars (f : ascii -> ascii) (s : string) : string :=
  match s with
  | EmptyString => EmptyString
  | String c r => String (f c) (mapChars f r)
  end.

(** [String.prototype.toUpperCase] and [toLowerCase] on code units below
    128, where they map the letters [a] to [z] and [A] to [Z] and nothing
    else; statements that rest on the case of other code units are made
    for texts of that range only. *)
Definition toUpperCase : string -> string := mapChars upperChar.
Definition toLowerCase : string -> string := mapChars lowerChar.

(** [s.charAt(0)]: the first code unit as a string, empty on the empty
    string. *)
Definition charAt0 (s : string) : string :=
  match s with
  | EmptyString => EmptyString
  | String c _ => String c EmptyString
  end.

(** [s.slice(1)]. *)
Definition slice1 (s : string) : string :=
  match s with
  | EmptyString => EmptyString
  | String _ r => r
  end.

Fixpoint dropChars (n : nat) (s : string) : string :=
  match n, s with
  | S k, String _ r => dropChars k r
  | _, _ => s
  end.

(** ToBoolean on a string: only the empty string is falsy. *)
Definition truthy (s : string) : bool :=
  match s with
  | EmptyString => false
  | String _ _ => true
  end.

(** GetSubstitution for a match of a pattern without capture groups: in the
    replacement text, [$$] stands for a dollar sign, [$&] for the matched
    text, [$`] for the input before the match and [$'] for the input after
    it; a dollar sign followed by anything else stands for itself. *)
Definition dollarPattern (d : ascii) (matched before after : string)
  : option string :=
  if Ascii.eqb d "$"%char then Some (String "$"%char EmptyString)
  else if Ascii.eqb d "&"%char then Some matched
  else if Ascii.eqb d "`"%char then Some before
  else if Ascii.eqb d "'"%char then Some after
  else None.

Fixpoint getSubstitution (matched before after tpl : string) : string :=
  match tpl with
  | EmptyString => EmptyString
  | String c r =>
      let plain := String c (getSubstitution matched before after r) in
      if Ascii.eqb c "$"%char
      then match r with
           | String d r' =>
               match dollarPattern d matched before after with
               | Some t => t +:+ getSubstitution matched before after r'
               | None => plain
               end
           | EmptyString => plain
           end
      else plain
  end.

(** The scan of [s.replace(/pat/g, tpl)] for a pattern that denotes the
    literal text [pat]: [before] is the input already passed, [skip] the
    number of code units of the current match still to pass. *)
Fixpoint replaceScan (pat tpl before : string) (skip : nat) (s : string)
  : string :=
  match s with
  | EmptyString => EmptyString
  | String c r =>
      let before' := before +:+ String c EmptyString in
      match skip with
      | S k => replaceScan pat tpl before' k r
      | O =>
          if String.prefix pat s
          then getSubstitution pat before
                 (dropChars (String.length pat) s) tpl
               +:+ replaceScan pat tpl before' (String.length pat - 1) r
          else String c (replaceScan pat tpl before' 0 r)
      end
  end.

(** [s.replace(re, tpl)] for a global regular expression [re] matching the
    non-empty literal text [pat]. *)
Definition replaceAll (pat tpl s : string) : string :=
  replaceScan pat tpl EmptyString 0 s.

Fixpoint trimStart (s : string) : string :=
  match s with
  | EmptyString => EmptyString
  | String c r => if Ascii.is_space c then trimStart r else s
  end.

Fixpoint trimEnd (s : string) : string :=
  match s with
  | EmptyString => EmptyString
  | String c r =>
      match trimEnd r with
      | EmptyString =>
          if Ascii.is_space c then EmptyString else String c EmptyString
      | r' => String c r'
      end
  end.

(** [String.prototype.trim]. *)
Definition trim (s : string) : string := trimEnd (trimStart s).

(** [s.replace(/,$/, '')]: without the multiline flag the pattern matches
    only a comma that is the last code unit. *)
Fixpoint dropFinalComma (s : string) : string :=
  match s with
  | EmptyString => EmptyString
  | String c EmptyString => if Ascii.eqb c ","%char then EmptyString else s
  | String c r => String c (dropFinalComma r)
  end.

(** [Array.prototype.join]. *)
Definition join (sep : string) (l : list string) : string :=
  String.concat sep l.

(** [s.includes(t)]. *)
Fixpoint includes (t s : string) : bool :=
  String.prefix t s ||
  match s with
  | EmptyString => false
  | String _ r => includes t r
  end.

End JS.

(** ** JSON values and property access *)

(** A value produced by [JSON.parse]; an object carries its properties in
    the order [Object.entries] yields them. *)
#[local] Unset Elimination Schemes.
Inductive JValue : Type :=
  | JNull
  | JBool (b : bool)
  | JNum (text : string)
  | JStr (s : string)
  | JArr (items : list JValue)
  | JObj (entries : list (string * JValue)).
#[local] Set Elimination Schemes.

(** [typeof value === 'object' && value !== null && !Array.isArray(value)] *)
Definition isPlainObject (value : JValue) : bool :=
  match value with
  | JObj _ => true
  | _ => false
  end.

(** ToString, as applied to a value used as a property key. An array is
    joined with commas, [null] elements giving the empty text. *)
Fixpoint toPropertyKey (value : JValue) : string :=
  match value with
  | JNull => "null"
  | JBool true => "true"
  | JBool false => "false"
  | JNum text => text
  | JStr s => s
  | JArr items =>
      JS.join ","
        (List.map (fun item =>
                     match item with
                     | JNull => EmptyString
                     | _ => toPropertyKey item
                     end) items)
  | JObj _ => "[object Object]"
  end.

(** The result of a call: a returned value or a thrown error with its
    message. *)
Inductive Outcome (A : Type) : Type :=
  | Returned (a : A)
  | Thrown (message : string).
Arguments Returned {A} a.
Arguments Thrown {A} message.

Global Instance outcome_ret : MRet Outcome := fun A a => Returned a.

Global Instance outcome_bind : MBind Outcome := fun A B k m =>
  match m with
  | Returned a => k a
  | Thrown e => Thrown e
  end.

(** What reading [obj[key]] on a plain object of strings yields. *)
Inductive Property : Type :=
  | Undefined
  | OwnString (s : string)
  | Inherited.

(** The members every plain object inherits from [Object.prototype]; each
    is a function or an object, hence truthy and without a [replace]
    method. *)
Definition objectPrototypeMembers : list string :=
  [ "constructor"; "hasOwnProperty"; "isPrototypeOf"; "propertyIsEnumerable";
    "toLocaleString"; "toString"; "valueOf"; "__proto__";
    "__defineGetter__"; "__defineSetter__"; "__lookupGetter__";
    "__lookupSetter__" ].

Definition inheritedMember (key : string) : bool :=
  bool_decide (key ∈ objectPrototypeMembers).

Definition getProperty (obj : gmap string string) (key : string) : Property :=
  match obj !! key with
  | Some s => OwnString s
  | None => if inheritedMember key then Inherited else Undefined
  end.

(** ** The generator: naming helpers *)

Import JS.

Definition capitalize (str : string) : string :=
  toUpperCase (charAt0 str) +:+ slice1 str.

Definition toCamelCase (str : string) : string :=
  toLowerCase (charAt0 str) +:+ slice1 str.

(** [str.replace(/([a-z0-9])([A-Z])/g, '$1' + sep + '$2')]: a match takes
    two code units and the scan resumes after them. *)
Fixpoint separateWords (sep : string) (str : string) : string :=
  match str with
  | EmptyString => EmptyString
  | String c1 r =>
      match r with
      | String c2 r2 =>
          if (isLowerAlpha c1 || isDigit c1) && isUpperAlpha c2
          then String c1 (sep +:+ String c2 (separateWords sep r2))
          else String c1 (separateWords sep r)
      | EmptyString => String c1 EmptyString
      end
  end.

Definition toKebabCase (str : string) : string :=
  toLowerCase (separateWords "-" str).

Definition toSnakeCase (str : string) : string :=
  toLowerCase (separateWords "_" str).

Definition replacePlaceholders (text moduleName : string) : string :=
  replaceAll "{{name.pascal}}" (capitalize moduleName)
    (replaceAll "{{name.camel}}" (toCamelCase moduleName)
      (replaceAll "{{name_snake}}" (toSnakeCase moduleName)
        (replaceAll "{{name-kebab}}" (toKebabCase moduleName)
          (replaceAll "{{NAME}}" (toUpperCase moduleName)
            (replaceAll "{{Name}}" (capitalize moduleName)
              (replaceAll "{{name}}" moduleName text)))))).

(** ** The generator: body expansion *)

(** The [replacements] object of [generateBodyReplacements]. *)
Record Replacements : Type := mkReplacements {
  formItems : string;
  types : string;
  defaultValues : string;
  fields : string;
  interfaces : string;
  zodSchema : string
}.

(** The variables [processField] closes over: the six buffers and the
    [allFields] array. *)
Record Walk : Type := mkWalk {
  buffers : Replacements;
  allFields : list string
}.

Definition emptyReplacements : Replacements :=
  mkReplacements EmptyString EmptyString EmptyString EmptyString EmptyString
    EmptyString.

Definition emptyWalk : Walk := mkWalk emptyReplacements [].

Definition addFormItems (t : string) (w : Walk) : Walk :=
  let b := buffers w in
  mkWalk (mkReplacements (formItems b +:+ t) (types b) (defaultValues b)
            (fields b) (interfaces b) (zodSchema b)) (allFields w).

Definition addTypes (t : string) (w : Walk) : Walk :=
  let b := buffers w in
  mkWalk (mkReplacements (formItems b) (types b +:+ t) (defaultValues b)
            (fields b) (interfaces b) (zodSchema b)) (allFields w).

Definition addDefaultValues (t : string) (w : Walk) : Walk :=
  let b := buffers w in
  mkWalk (mkReplacements (formItems b) (types b) (defaultValues b +:+ t)
            (fields b) (interfaces b) (zodSchema b)) (allFields w).

Definition addInterfaces (t : string) (w : Walk) : Walk :=
  let b := buffers w in
  mkWalk (mkReplacements (formItems b) (types b) (defaultValues b)
            (fields b) (interfaces b +:+ t) (zodSchema b)) (allFields w).

Definition addZodSchema (t : string) (w : Walk) : Walk :=
  let b := buffers w in
  mkWalk (mkReplacements (formItems b) (types b) (defaultValues b)
            (fields b) (interfaces b) (zodSchema b +:+ t)) (allFields w).

Definition pushField (t : string) (w : Walk) : Walk :=
  mkWalk (buffers w) (allFields w ++ [t]).

(** [generateNestedDefaults(obj)]; both call sites pass a plain object, the
    other constructors are not reached. *)
Fixpoint generateNestedDefaults (obj : JValue) : string :=
  match obj with
  | JObj entries =>
      (fix forEach (l : list (string * JValue)) (result : string) : string :=
         match l with
         | [] => result
         | (key, value) :: l' =>
             forEach l'
               (result +:+
                (if isPlainObject value
                 then "    " +:+ key +:+ ": " +:+
                      generateNestedDefaults value +:+ "," +:+ nl
                 else "    " +:+ key +:+ ": ''," +:+ nl))
         end) entries ("{" +:+ nl) +:+ "  }"
  | _ => EmptyString
  end.

(** [generateNestedZodSchema(obj)], of the same shape. *)
Fixpoint generateNestedZodSchema (obj : JValue) : string :=
  match obj with
  | JObj entries =>
      (fix forEach (l : list (string * JValue)) (result : string) : string :=
         match l with
         | [] => result
         | (key, value) :: l' =>
             forEach l'
               (result +:+
                (if isPlainObject value
                 then "    " +:+ key +:+ ": z.object(" +:+
                      generateNestedZodSchema value +:+ ")," +:+ nl
                 else "    " +:+ key +:+ ": z.string()," +:+ nl))
         end) entries ("{" +:+ nl) +:+ "  }"
  | _ => EmptyString
  end.

(** One member line of a group's interface declaration. *)
Definition interfaceMember (nestedKey : string) (nestedValue : JValue)
  : string :=
  if isPlainObject nestedValue
  then "  " +:+ nestedKey +:+ ": " +:+ capitalize nestedKey +:+ ";" +:+ nl
  else "  " +:+ nestedKey +:+ ": string;" +:+ nl.

(** The [interfaceContent] text built for a group. *)
Definition interfaceContent (key : string) (entries : list (string * JValue))
  : string :=
  fold_left (fun content '(nestedKey, nestedValue) =>
               content +:+ interfaceMember nestedKey nestedValue)
    entries ("export interface " +:+ capitalize key +:+ " {" +:+ nl)
  +:+ "}" +:+ nl +:+ nl.

(** The three substitutions applied to a field snippet. *)
Definition formItem (template key fullPath : string) : string :=
  replaceAll "{{fullPath}}" fullPath
    (replaceAll "{{Name}}" (capitalize key)
      (replaceAll "{{name}}" key template)).

Definition fullPathOf (prefix key : string) : string :=
  if truthy prefix then prefix +:+ "." +:+ key else key.

(** The four spellings of the placeholder of one key. *)
Definition placeholdersOf (key : string) : list string :=
  [ "{{body:" +:+ key +:+ "}}";
    "{{body: " +:+ key +:+ "}}";
    "{{ body:" +:+ key +:+ " }}";
    "{{ body: " +:+ key +:+ " }}" ].

(** [replaceBodyPlaceholders(content, replacements)], on the entries of
    [replacements]. Every character that is special in a regular
    expression is escaped before the pattern is compiled, so the pattern
    matches the spelling as literal text. *)
Definition replaceBodyPlaceholders (content : string)
    (replacements : list (string * string)) : string :=
  fold_left
    (fun result '(key, value) =>
       fold_left (fun result placeholder => replaceAll placeholder value result)
         (placeholdersOf key) result)
    replacements content.

(** [Object.entries] of the object [generateBodyReplacements] returns. *)
Definition entriesOf (r : Replacements) : list (string * string) :=
  [ ("formItems", formItems r); ("types", types r);
    ("defaultValues", defaultValues r); ("fields", fields r);
    ("interfaces", interfaces r); ("zodSchema", zodSchema r) ].

Section Walker.

(** The [variableTemplates] argument: the template's FieldTypeMap. *)
Variable variableTemplates : gmap string string.

(** The else-branch of [processField]: a value that is not a plain
    object. *)
Definition processLeaf (key : string) (value : JValue) (prefix : string)
    (w : Walk) : Outcome Walk :=
  let fullPath := fullPathOf prefix key in
  w1 ← match getProperty variableTemplates (toPropertyKey value) with
       | Undefined => Returned w
       | OwnString template =>
           if truthy template
           then Returned
                  (addFormItems (formItem template key fullPath +:+ nl) w)
           else Returned w
       | Inherited => Thrown "template.replace is not a function"
       end;
  let w2 :=
    if truthy prefix then w1
    else addDefaultValues ("  " +:+ key +:+ ": ''," +:+ nl)
           (addTypes ("  " +:+ key +:+ ": string;" +:+ nl) w1) in
  Returned (pushField ("'" +:+ fullPath +:+ "'") w2).

(** What [processField] appends for a group before it descends. *)
Definition enterGroup (key : string) (value : JValue) (w : Walk) : Walk :=
  match value with
  | JObj entries =>
      addZodSchema
        ("  " +:+ key +:+ ": z.object(" +:+ generateNestedZodSchema value
           +:+ ")," +:+ nl)
        (addDefaultValues
           ("  " +:+ key +:+ ": " +:+ generateNestedDefaults value
              +:+ "," +:+ nl)
           (addTypes ("  " +:+ key +:+ ": " +:+ capitalize key +:+ ";" +:+ nl)
              (addInterfaces (interfaceContent key entries) w)))
  | _ => w
  end.

Fixpoint processField (key : string) (value : JValue) (prefix : string)
    (w : Walk) {struct value} : Outcome Walk :=
  match value with
  | JObj entries =>
      (fix forEach (l : list (string * JValue)) (w : Walk) : Outcome Walk :=
         match l with
         | [] => Returned w
         | (nestedKey, nestedValue) :: l' =>
             w' ← processField nestedKey nestedValue
                    (fullPathOf prefix key) w;
             forEach l' w'
         end) entries (enterGroup key value w)
  | _ => processLeaf key value prefix w
  end.

(** [Object.entries(obj).forEach(([k, v]) => processField(k, v, prefix))] *)
Fixpoint processEntries (entries : list (string * JValue)) (prefix : string)
    (w : Walk) : Outcome Walk :=
  match entries with
  | [] => Returned w
  | (key, value) :: rest =>
      w' ← processField key value prefix w;
      processEntries rest prefix w'
  end.

(** The assignments that follow the traversal. *)
Definition finish (w : Walk) : Replacements :=
  let b := buffers w in
  mkReplacements (formItems b) (types b)
    (dropFinalComma (trim (defaultValues b)))
    (join ", " (allFields w)) (interfaces b) (zodSchema b).

Definition generateBodyReplacements (bodyObject : list (string * JValue))
  : Outcome Replacements :=
  w ← processEntries bodyObject EmptyString emptyWalk;
  Returned (finish w).

End Walker.

(** ** Induction over JSON values *)

Section JValueInduction.

Variable P : JValue -> Prop.
Hypothesis HNull : P JNull.
Hypothesis HBool : forall b, P (JBool b).
Hypothesis HNum : forall text, P (JNum text).
Hypothesis HStr : forall s, P (JStr s).
Hypothesis HArr : forall items, Forall P items -> P (JArr items).
Hypothesis HObj :
  forall entries, Forall (fun kv => P kv.2) entries -> P (JObj entries).

Fixpoint JValue_nested_ind (v : JValue) : P v :=
  match v with
  | JNull => HNull
  | JBool b => HBool b
  | JNum text => HNum text
  | JStr s => HStr s
  | JArr items =>
      HArr items
        ((fix all (l : list JValue) : Forall P l :=
            match l with
            | [] => Forall_nil_2 P
            | x :: l' => Forall_cons_2 P x l' (JValue_nested_ind x) (all l')
            end) items)
  | JObj entries =>
      HObj entries
        ((fix all (l : list (string * JValue))
            : Forall (fun kv => P kv.2) l :=
            match l with
            | [] => Forall_nil_2 _
            | kv :: l' =>
                Forall_cons_2 (fun kv => P kv.2) kv l'
                  (JValue_nested_ind kv.2) (all l')
            end) entries)
  end.

End JValueInduction.

(** ** The generator: one generation run *)

Record GenerationResult : Type := mkResult {
  success : bool;
  files : list string;
  errors : list string;
  warnings : list string
}.

Record GenerationContext : Type := mkContext {
  ctxTemplateName : string;
  ctxModuleName : string;
  ctxOutputPath : string;
  ctxBodyObject : option (list (string * JValue))
}.

(** A hook is a function of the user that may throw; it is taken to leave
    the result object alone. *)
Record TemplateConfig : Type := mkTemplate {
  path : string;
  output : option string;
  variables : option (gmap string string);
  ignore : option (list string);
  beforeFileGenerate : option (string -> string -> Outcome string);
  afterFileGenerate : option (string -> Outcome unit)
}.

Record GeneratorConfig : Type := mkConfig {
  templates : gmap string TemplateConfig;
  beforeGenerate : option (GenerationContext -> Outcome unit);
  afterGenerate :
    option (GenerationContext -> GenerationResult -> Outcome unit)
}.

(** The libraries the run calls into: the file system over a state
    [World], the glob and path modules, the formatter, and the regular
    expression test of [shouldIgnore]. *)
Record Platform (World : Type) : Type := mkPlatform {
  pathExists : World -> string -> bool;
  globFiles : World -> string -> list string;
  readFile : World -> string -> Outcome string;
  ensureDir : World -> string -> Outcome World;
  writeFile : World -> string -> string -> Outcome World;
  formatCode : string -> string -> Outcome string;
  shouldIgnore : string -> list string -> Outcome bool;
  pathJoin : string -> string -> string;
  pathRelative : string -> string -> string;
  pathDirname : string -> string
}.
Arguments pathExists {World}.
Arguments globFiles {World}.
Arguments readFile {World}.
Arguments ensureDir {World}.
Arguments writeFile {World}.
Arguments formatCode {World}.
Arguments shouldIgnore {World}.
Arguments pathJoin {World}.
Arguments pathRelative {World}.
Arguments pathDirname {World}.

Section Generate.

Context {World : Type}.
Variable platform : Platform World.
Variable config : GeneratorConfig.

(** The state a run works on: the [result] object and the world. *)
Record RunState : Type := mkRun {
  result : GenerationResult;
  world : World
}.

(** A computation of the try block: it ends by returning or by throwing,
    and in both cases leaves a state behind. *)
Definition Run (A : Type) : Type := RunState -> RunState * Outcome A.

Definition runRet {A : Type} (a : A) : Run A :=
  fun s => (s, Returned a).

Definition runBind {A B : Type} (m : Run A) (k : A -> Run B) : Run B :=
  fun s =>
    match m s with
    | (s', Returned a) => k a s'
    | (s', Thrown e) => (s', Thrown e)
    end.

Notation "x <~ m ; k" := (runBind m (fun x => k))
  (at level 100, m at next level, right associativity).

Definition throw {A : Type} (message : string) : Run A :=
  fun s => (s, Thrown message).

Definition call {A : Type} (o : Outcome A) : Run A :=
  fun s => (s, o).

Definition onWorld {A : Type} (f : World -> A) : Run A :=
  fun s => (s, Returned (f (world s))).

Definition updateWorld (f : World -> Outcome World) : Run unit :=
  fun s =>
    match f (world s) with
    | Returned w' => (mkRun (result s) w', Returned tt)
    | Thrown e => (s, Thrown e)
    end.

Definition pushFile (p : string) : Run unit :=
  fun s =>
    let r := result s in
    (mkRun (mkResult (success r) (files r ++ [p]) (errors r) (warnings r))
       (world s), Returned tt).

Definition pushWarning (t : string) : Run unit :=
  fun s =>
    let r := result s in
    (mkRun (mkResult (success r) (files r) (errors r) (warnings r ++ [t]))
       (world s), Returned tt).

Definition callHook {A : Type} (hook : option (A -> Outcome unit)) (a : A)
  : Run unit :=
  match hook with
  | Some h => call (h a)
  | None => runRet tt
  end.

(** [a || b] on an optional string. *)
Definition orElse (a : option string) (b : string) : string :=
  match a with
  | Some s => if truthy s then s else b
  | None => b
  end.

(** [name in this.config.templates] followed by the property read: an
    own entry, a member inherited from [Object.prototype], or nothing. *)
Inductive TemplateLookup : Type :=
  | OwnTemplate (t : TemplateConfig)
  | InheritedTemplate
  | NoTemplate.

Definition lookupTemplate (name : string) : TemplateLookup :=
  match templates config !! name with
  | Some t => OwnTemplate t
  | None => if inheritedMember name then InheritedTemplate else NoTemplate
  end.

(** The body of the loop over the template's files. *)
Definition generateFile (template : TemplateConfig)
    (moduleName finalOutputPath : string)
    (bodyReplacements : option Replacements)
    (isDryRun shouldFormat : bool) (file : string) : Run unit :=
  let relativePath := pathRelative platform (path template) file in
  skip <~ match ignore template with
          | Some patterns => call (shouldIgnore platform relativePath patterns)
          | None => runRet false
          end;
  if skip : bool
  then pushWarning ("Skipped ignored file: " +:+ relativePath)
  else
    content <~ (fun s => (s, readFile platform (world s) file));
    let processedPath := replacePlaceholders relativePath moduleName in
    let processedContent := replacePlaceholders content moduleName in
    processedContent <~
      match beforeFileGenerate template with
      | Some hook => call (hook processedPath processedContent)
      | None => runRet processedContent
      end;
    let processedContent :=
      match bodyReplacements with
      | Some r => replaceBodyPlaceholders processedContent (entriesOf r)
      | None => processedContent
      end in
    processedContent <~
      (if shouldFormat && negb isDryRun
       then match formatCode platform processedContent processedPath with
            | Returned formatted => runRet formatted
            | Thrown e =>
                _ <~ pushWarning ("Could not format " +:+ processedPath
                                  +:+ ": " +:+ e);
                runRet processedContent
            end
       else runRet processedContent);
    let outputFile := pathJoin platform finalOutputPath processedPath in
    _ <~ (if isDryRun then runRet tt
          else
            _ <~ updateWorld (fun w =>
                   ensureDir platform w (pathDirname platform outputFile));
            _ <~ updateWorld (fun w =>
                   writeFile platform w outputFile processedContent);
            callHook (afterFileGenerate template) outputFile);
    pushFile processedPath.

Fixpoint forEachFile (body : string -> Run unit) (l : list string)
  : Run unit :=
  match l with
  | [] => runRet tt
  | file :: rest => _ <~ body file; forEachFile body rest
  end.

(** The traversal of the body, made when the call has a body and the
    template has a FieldTypeMap. *)
Definition expandBody (template : TemplateConfig)
    (bodyObject : option (list (string * JValue)))
  : Run (option Replacements) :=
  match bodyObject, variables template with
  | Some body, Some vars =>
      r <~ call (generateBodyReplacements vars body);
      runRet (Some r)
  | _, _ => runRet None
  end.

(** The statements inside [try], once the template is at hand. *)
Definition withTemplate (template : TemplateConfig)
    (templateName moduleName : string) (outputPath : option string)
    (bodyObject : option (list (string * JValue)))
    (isDryRun shouldFormat : bool) : Run unit :=
  let templatePath := path template in
  let finalOutputPath :=
    orElse outputPath (orElse (output template) "./src") in
  let context :=
    mkContext templateName moduleName finalOutputPath bodyObject in
  exists_ <~ onWorld (fun w => pathExists platform w templatePath);
  if negb exists_
  then throw ("Template path not found: " +:+ templatePath)
  else
    _ <~ callHook (beforeGenerate config) context;
    bodyReplacements <~ expandBody template bodyObject;
    files_ <~ onWorld (fun w =>
                globFiles platform w (pathJoin platform templatePath "**/*"));
    _ <~ forEachFile
           (generateFile template moduleName finalOutputPath
              bodyReplacements isDryRun shouldFormat) files_;
    fun s =>
      match afterGenerate config with
      | Some hook => (s, hook context (result s))
      | None => (s, Returned tt)
      end.

(** The statements inside [try]. *)
Definition tryBlock (templateName moduleName : string)
    (outputPath : option string)
    (bodyObject : option (list (string * JValue)))
    (isDryRun shouldFormat : bool) : Run unit :=
  match lookupTemplate templateName with
  | NoTemplate =>
      throw ("Template " +:+ quote +:+ templateName +:+ quote
             +:+ " not found")
  | InheritedTemplate => throw "Template path not found: undefined"
  | OwnTemplate template =>
      withTemplate template templateName moduleName outputPath bodyObject
        isDryRun shouldFormat
  end.

Definition initialResult : GenerationResult := mkResult true [] [] [].

(** [generate]: the try block on a fresh result, and the catch clause. *)
Definition generate (w : World) (templateName moduleName : string)
    (outputPath : option string)
    (bodyObject : option (list (string * JValue)))
    (isDryRun shouldFormat : bool) : GenerationResult :=
  match tryBlock templateName moduleName outputPath bodyObject isDryRun
          shouldFormat (mkRun initialResult w) with
  | (s, Returned _) => result s
  | (s, Thrown message) =>
      let r := result s in
      mkResult false (files r) (errors r ++ [message]) (warnings r)
  end.

End Generate.

(** ** Vocabulary of the statements *)

(** Buffer-wise concatenation of what two stretches of a walk appended. *)
Definition appendWalk (w d : Walk) : Walk :=
  let a := buffers w in
  let b := buffers d in
  mkWalk
    (mkReplacements (formItems a +:+ formItems b) (types a +:+ types b)
       (defaultValues a +:+ defaultValues b) (fields a +:+ fields b)
       (interfaces a +:+ interfaces b) (zodSchema a +:+ zodSchema b))
    (allFields w ++ allFields d).

(** The buffers after appending, one after the other, what each of a list
    of calls emitted. *)
Definition appendAll (w : Walk) (ds : list Walk) : Walk :=
  fold_left appendWalk ds w.

(** What one entry emits: the result of its call on empty buffers. *)
Definition emits (vt : gmap string string) (prefix : string)
    (entry : string * JValue) (d : Walk) : Prop :=
  processField vt entry.1 entry.2 prefix emptyWalk = Returned d.

(** Whether reading the FieldTypeMap at the value's key yields an inherited
    member, on which the [replace] call throws. *)
Definition lookupThrows (vt : gmap string string) (value : JValue) : bool :=
  match getProperty vt (toPropertyKey value) with
  | Inherited => true
  | _ => false
  end.

(** Whether no leaf of the value reads an inherited member. *)
Fixpoint lookupSafe (vt : gmap string string) (value : JValue) : bool :=
  match value with
  | JObj entries =>
      (fix all (l : list (string * JValue)) : bool :=
         match l with
         | [] => true
         | (_, v) :: l' => lookupSafe vt v && all l'
         end) entries
  | _ => negb (lookupThrows vt value)
  end.

(** The prefix under which the children of a group are walked, given the
    keys from the root down to that group. *)
Definition pathOf (ancestors : list string) : string :=
  fold_left fullPathOf ancestors EmptyString.

Definition concatText (l : list string) : string :=
  foldr String.append EmptyString l.

(** One entry of the literal built by [generateNestedDefaults]. *)
Definition defaultsEntry (key : string) (value : JValue) : string :=
  if isPlainObject value
  then "    " +:+ key +:+ ": " +:+ generateNestedDefaults value +:+ "," +:+ nl
  else "    " +:+ key +:+ ": ''," +:+ nl.

(** One entry of the literal built by [generateNestedZodSchema]. *)
Definition zodEntry (key : string) (value : JValue) : string :=
  if isPlainObject value
  then "    " +:+ key +:+ ": z.object(" +:+ generateNestedZodSchema value
       +:+ ")," +:+ nl
  else "    " +:+ key +:+ ": z.string()," +:+ nl.

Fixpoint allSpace (s : string) : bool :=
  match s with
  | EmptyString => true
  | String c r => Ascii.is_space c && allSpace r
  end.

Fixpoint endsWithComma (s : string) : bool :=
  match s with
  | EmptyString => false
  | String c EmptyString => Ascii.eqb c ","%char
  | String _ r => endsWithComma r
  end.

(** What no statement of the try block changes: the success flag and the
    error list stay, the file list only grows at its end. *)
Definition keeps {World : Type} (s s' : RunState (World := World)) : Prop :=
  success (result s') = success (result s)
  /\ errors (result s') = errors (result s)
  /\ exists more, files (result s') = files (result s) ++ more.

Definition orderly (World : Type) {A : Type} (m : Run (World := World) A)
  : Prop :=
  forall s, keeps s (m s).1.

(** *** Sample inputs *)

Definition scenarioB : list (string * JValue) :=
  [ ("name", JStr "input");
    ("address", JObj [ ("city", JStr "input"); ("country", JStr "select") ]) ].

Definition demoTemplates : gmap string string :=
  {[ "input" := "<F label='{{Name}}' path='{{fullPath}}'/>";
     "select" := "<S name='{{name}}' path='{{fullPath}}'/>" ]}.

Definition priceTemplates : gmap string string :=
  {[ "price" := "<Price unit='$' v-model='form.{{fullPath}}'/>" ]}.

(** A world without state, a template directory [tpl] holding [a.ts] and
    [b.ts], and a [readFile] that fails on the second. *)
Definition demoPlatform : Platform unit :=
  mkPlatform unit
    (fun _ _ => true)
    (fun _ _ => [ "tpl/a.ts"; "tpl/b.ts" ])
    (fun _ p =>
       if String.eqb p "tpl/b.ts"
       then Thrown "EACCES: permission denied, open 'tpl/b.ts'"
       else Returned "export const {{name}} = 1;")
    (fun w _ => Returned w)
    (fun w _ _ => Returned w)
    (fun content _ => Returned content)
    (fun _ _ => Returned false)
    (fun a b => a +:+ "/" +:+ b)
    (fun from to => dropChars (String.length from + 1) to)
    (fun p => p).

Definition demoConfig : GeneratorConfig :=
  mkConfig
    {[ "component" :=
         mkTemplate "tpl" None (Some demoTemplates) None None None ]}
    None None.

(** *** Texts made of literal runs and double-brace tokens *)

Fixpoint noChar (x : ascii) (s : string) : bool :=
  match s with
  | EmptyString => true
  | String c r => negb (Ascii.eqb c x) && noChar x r
  end.

(** A replacement text that GetSubstitution leaves as it is. *)
Definition noDollar (s : string) : bool := noChar "$"%char s.

(** A name that can stand between double braces. *)
Definition braceFree (s : string) : bool :=
  noChar "{"%char s && noChar "}"%char s.

(** A run of text in which every opening brace is followed by a character
    that is not an opening brace: no placeholder can start inside it. *)
Fixpoint quiet (s : string) : bool :=
  match s with
  | EmptyString => true
  | String c r =>
      (if Ascii.eqb c "{"%char
       then match r with
            | EmptyString => false
            | String d _ => negb (Ascii.eqb d "{"%char)
            end
       else true)
      && quiet r
  end.

Inductive Segment : Type :=
  | Lit (s : string)
  | Tok (name : string).

Definition token (name : string) : string := "{{" +:+ name +:+ "}}".

Definition renderSegment (seg : Segment) : string :=
  match seg with
  | Lit s => s
  | Tok name => token name
  end.

Definition render (segs : list Segment) : string :=
  concatText (map renderSegment segs).








(** *** Vocabulary of the further properties *)

Definition quoted (p : string) : string := "'" +:+ p +:+ "'".

(** The dotted paths of the leaves below one entry, in the order of a
    depth-first walk. *)
Fixpoint leafPaths (key : string) (value : JValue) (prefix : string)
  : list string :=
  match value with
  | JObj entries =>
      (fix below (l : list (string * JValue)) : list string :=
         match l with
         | [] => []
         | (k, v) :: l' => leafPaths k v (fullPathOf prefix key) ++ below l'
         end) entries
  | _ => [ fullPathOf prefix key ]
  end.

Definition bodyLeafPaths (entries : list (string * JValue)) (prefix : string)
  : list string :=
  concat (map (fun kv => leafPaths kv.1 kv.2 prefix) entries).

(** Two walks that agree on everything but the form markup. *)
Definition sameSkeleton (a b : Walk) : Prop :=
  types (buffers a) = types (buffers b)
  /\ defaultValues (buffers a) = defaultValues (buffers b)
  /\ fields (buffers a) = fields (buffers b)
  /\ interfaces (buffers a) = interfaces (buffers b)
  /\ zodSchema (buffers a) = zodSchema (buffers b)
  /\ allFields a = allFields b.

Fixpoint countChar (x : ascii) (s : string) : nat :=
  match s with
  | EmptyString => 0
  | String c r => (if Ascii.eqb c x then 1 else 0) + countChar x r
  end.

(** Whether no key of the value, at any depth, holds the character. *)
Fixpoint keysAvoid (x : ascii) (value : JValue) : bool :=
  match value with
  | JObj entries =>
      (fix all (l : list (string * JValue)) : bool :=
         match l with
         | [] => true
         | (k, v) :: l' => noChar x k && keysAvoid x v && all l'
         end) entries
  | _ => true
  end.

Fixpoint noUpper (s : string) : bool :=
  match s with
  | EmptyString => true
  | String c r => negb (isUpperAlpha c) && noUpper r
  end.

(** The number of places where a lower-case letter or a digit is followed
    by an upper-case letter. *)
Fixpoint wordBoundaries (s : string) : nat :=
  match s with
  | EmptyString => 0
  | String c1 r =>
      (match r with
       | String c2 _ =>
           if (isLowerAlpha c1 || isDigit c1) && isUpperAlpha c2 then 1 else 0
       | EmptyString => 0
       end) + wordBoundaries r
  end.

(** The number of groups in a value, the value itself included. *)
Fixpoint groupCount (value : JValue) : nat :=
  match value with
  | JObj entries =>
      S ((fix sum (l : list (string * JValue)) : nat :=
            match l with
            | [] => 0
            | (_, v) :: l' => groupCount v + sum l'
            end) entries)
  | _ => 0
  end.

(** Whether the loop of [generate] skips the file: the template has ignore
    patterns and [shouldIgnore] answers yes. *)
Definition isIgnored {World : Type} (platform : Platform World)
    (template : TemplateConfig) (file : string) : bool :=
  match ignore template with
  | Some patterns =>
      match shouldIgnore platform
              (pathRelative platform (path template) file) patterns with
      | Returned true => true
      | _ => false
      end
  | None => false
  end.

(** The entry of [files] for a template file. *)
Definition listedPath {World : Type} (platform : Platform World)
    (template : TemplateConfig) (moduleName file : string) : string :=
  replacePlaceholders (pathRelative platform (path template) file) moduleName.

(** A computation that leaves the world as it found it. *)
Definition worldKept (World : Type) {A : Type} (m : Run (World := World) A)
  : Prop :=
  forall s, world (m s).1 = world s.

(** Two platforms that answer alike wherever a run reads: existence of a
    path, the glob, file contents, the ignore test and the two path
    functions used on the way. They may differ in [ensureDir],
    [writeFile], [formatCode] and [pathDirname]. *)
Definition sameReads {World : Type} (p1 p2 : Platform World) : Prop :=
  (forall w x, pathExists p1 w x = pathExists p2 w x)
  /\ (forall w x, globFiles p1 w x = globFiles p2 w x)
  /\ (forall w x, readFile p1 w x = readFile p2 w x)
  /\ (forall x l, shouldIgnore p1 x l = shouldIgnore p2 x l)
  /\ (forall a b, pathJoin p1 a b = pathJoin p2 a b)
  /\ (forall a b, pathRelative p1 a b = pathRelative p2 a b).

(** [demoPlatform] on a read-only disk and with a failing formatter. *)
Definition readOnlyPlatform : Platform unit :=
  mkPlatform unit
    (pathExists demoPlatform) (globFiles demoPlatform)
    (readFile demoPlatform)
    (fun _ _ => Thrown "EROFS: read-only file system")
    (fun _ _ _ => Thrown "EROFS: read-only file system")
    (fun _ _ => Thrown "no parser")
    (shouldIgnore demoPlatform) (pathJoin demoPlatform)
    (pathRelative demoPlatform) (pathDirname demoPlatform).


(** The message of the warning for a skipped file. *)
Definition skipWarning {World : Type} (platform : Platform World)
    (template : TemplateConfig) (file : string) : string :=
  "Skipped ignored file: " +:+ pathRelative platform (path template) file.

(** A template directory with two sources and a note that the template's
    ignore list leaves out; every file can be read. *)
Definition notesPlatform : Platform unit :=
  mkPlatform unit
    (fun _ _ => true)
    (fun _ _ => [ "tpl/{{name}}.ts"; "tpl/notes.md"; "tpl/{{Name}}.vue" ])
    (fun _ _ => Returned "export const {{name}} = 1;")
    (fun w _ => Returned w)
    (fun w _ _ => Returned w)
    (fun content _ => Returned content)
    (fun p _ => Returned (String.eqb p "notes.md"))
    (fun a b => a +:+ "/" +:+ b)
    (fun from to => dropChars (String.length from + 1) to)
    (fun p => p).

Definition notesConfig : GeneratorConfig :=
  mkConfig
    {[ "component" :=
         mkTemplate "tpl" None (Some demoTemplates) (Some [ "notes.md" ])
           None None ]}
    None None.

(** A platform that besides keeps the list of the paths it has written,
    in the order of the writes. *)
Definition recording {World : Type} (p : Platform World)
  : Platform (World * list string) :=
  mkPlatform (World * list string)
    (fun w x => pathExists p w.1 x)
    (fun w x => globFiles p w.1 x)
    (fun w x => readFile p w.1 x)
    (fun w dir =>
       match ensureDir p w.1 dir with
       | Returned w' => Returned (w', w.2)
       | Thrown e => Thrown e
       end)
    (fun w file content =>
       match writeFile p w.1 file content with
       | Returned w' => Returned (w', w.2 ++ [ file ])
       | Thrown e => Thrown e
       end)
    (formatCode p) (shouldIgnore p) (pathJoin p) (pathRelative p)
    (pathDirname p).

(** The state of a recording run without its list. *)
Definition forget {World : Type}
    (s : RunState (World := World * list string)) : RunState (World := World) :=
  mkRun (result s) (world s).1.

(** The paths written so far. *)
Definition written {World : Type}
    (s : RunState (World := World * list string)) : list string :=
  (world s).2.

(** A recording computation that does what the plain one does. *)
Definition simulates {World : Type} {A : Type}
    (m' : Run (World := World * list string) A) (m : Run (World := World) A)
  : Prop :=
  forall s, m (forget s) = (forget (m' s).1, (m' s).2).

(** *** Own property order *)

(** The value of a key that is an array index: a canonical decimal
    numeral (no sign, no leading zero) below [2^32 - 1]. *)
Fixpoint allDigits (s : string) : bool :=
  match s with
  | EmptyString => true
  | String c r => isDigit c && allDigits r
  end.

Fixpoint decimalValue (acc : N) (s : string) : N :=
  match s with
  | EmptyString => acc
  | String c r =>
      decimalValue (10 * acc + N.of_nat (nat_of_ascii c - 48))%N r
  end.

Definition arrayIndex (key : string) : option N :=
  match key with
  | EmptyString => None
  | String c r =>
      if allDigits key
         && (negb (Ascii.eqb c "0"%char)
             || match r with EmptyString => true | _ => false end)
      then let n := decimalValue 0 key in
           if (n <? 4294967295)%N then Some n else None
      else None
  end.

Definition isArrayIndex (key : string) : bool :=
  match arrayIndex key with
  | Some _ => true
  | None => false
  end.

(** [CreateDataProperty]: a key that is already there keeps its place and
    takes the new value, a new key goes to the end. *)
Fixpoint defineMember (key : string) (value : JValue)
    (props : list (string * JValue)) : list (string * JValue) :=
  match props with
  | [] => [ (key, value) ]
  | (k, v) :: rest =>
      if String.eqb k key then (k, value) :: rest
      else (k, v) :: defineMember key value rest
  end.

(** The properties of the object [JSON.parse] builds from members written
    in this order, in the order of their creation. *)
Definition createdMembers (members : list (string * JValue))
  : list (string * JValue) :=
  fold_left (fun props '(key, value) => defineMember key value props)
    members [].

Fixpoint insertByIndex (n : N) (entry : string * JValue)
    (sorted : list (N * (string * JValue))) : list (N * (string * JValue)) :=
  match sorted with
  | [] => [ (n, entry) ]
  | (m, x) :: rest =>
      if (n <? m)%N then (n, entry) :: sorted
      else (m, x) :: insertByIndex n entry rest
  end.

(** The properties whose key is an array index, in ascending order of
    the index. *)
Fixpoint indexedMembers (props : list (string * JValue))
  : list (N * (string * JValue)) :=
  match props with
  | [] => []
  | entry :: rest =>
      match arrayIndex entry.1 with
      | Some n => insertByIndex n entry (indexedMembers rest)
      | None => indexedMembers rest
      end
  end.

(** [Object.entries] of the object [JSON.parse] builds from members
    written in this order: the array indices in ascending order, then
    the other keys in the order of their creation. *)
Definition ownEntries (members : list (string * JValue))
  : list (string * JValue) :=
  let props := createdMembers members in
  map snd (indexedMembers props)
  ++ List.filter (fun entry => negb (isArrayIndex entry.1)) props.

(** The value [JSON.parse] builds from a value written with its members
    in this order, at every level. *)
Fixpoint parsed (value : JValue) : JValue :=
  match value with
  | JObj members =>
      JObj (ownEntries
              ((fix each (l : list (string * JValue))
                  : list (string * JValue) :=
                  match l with
                  | [] => []
                  | (key, v) :: l' => (key, parsed v) :: each l'
                  end) members))
  | JArr items => JArr (List.map parsed items)
  | _ => value
  end.

(** The body a command line or a prompt hands to [generate]. *)
Definition parsedBody (members : list (string * JValue))
  : list (string * JValue) :=
  match parsed (JObj members) with
  | JObj entries => entries
  | _ => []
  end.

(** *** Group lines *)

(** The lines the groups of a value, the value itself included, add to
    [types] and to [defaultValues], in the order of a depth-first walk. *)
Fixpoint groupTypes (key : string) (value : JValue) : string :=
  match value with
  | JObj entries =>
      ("  " +:+ key +:+ ": " +:+ capitalize key +:+ ";" +:+ nl)
      +:+ (fix below (l : list (string * JValue)) : string :=
             match l with
             | [] => EmptyString
             | (k, v) :: l' => groupTypes k v +:+ below l'
             end) entries
  | _ => EmptyString
  end.

Fixpoint groupDefaults (key : string) (value : JValue) : string :=
  match value with
  | JObj entries =>
      ("  " +:+ key +:+ ": " +:+ generateNestedDefaults value +:+ ","
         +:+ nl)
      +:+ (fix below (l : list (string * JValue)) : string :=
             match l with
             | [] => EmptyString
             | (k, v) :: l' => groupDefaults k v +:+ below l'
             end) entries
  | _ => EmptyString
  end.

(** *** Code units below 128 *)

(** On these, [toUpperCase] and [toLowerCase] above are the case mappings
    of ECMAScript. *)
Fixpoint isAscii (s : string) : bool :=
  match s with
  | EmptyString => true
  | String c r => (nat_of_ascii c <? 128)%nat && isAscii r
  end.

(** The lines one entry of the body adds to [types] and to
    [defaultValues] when its groups have a path: a leaf at the root its
    own line, a group the lines of the groups in it. *)
Definition rootTypes (key : string) (value : JValue) : string :=
  if isPlainObject value then groupTypes key value
  else "  " +:+ key +:+ ": string;" +:+ nl.

Definition rootDefaults (key : string) (value : JValue) : string :=
  if isPlainObject value then groupDefaults key value
  else "  " +:+ key +:+ ": ''," +:+ nl.

(** ** The command line: [parseArgs] and what the handlers read from it *)

Module Cli.

(** The value of an option: the text that follows it, or [true]. *)
Inductive OptionValue : Type :=
  | Text (s : string)
  | Flag.

Record ParsedArgs : Type := mkParsed {
  command : option string;
  args : list string;
  options : gmap string OptionValue
}.

(** [parsed.options[key] = value] on an object created by a literal: the
    key [__proto__] reaches the setter of [Object.prototype], which
    ignores a string and [true]; any other key becomes an own property. *)
Definition setOption (key : string) (value : OptionValue)
    (parsed : ParsedArgs) : ParsedArgs :=
  if String.eqb key "__proto__" then parsed
  else mkParsed (command parsed) (args parsed)
         (<[ key := value ]> (options parsed)).

(** The last branch of the loop: [!parsed.command] holds while no command
    or the empty text is recorded. *)
Definition addPositional (arg : string) (parsed : ParsedArgs) : ParsedArgs :=
  match command parsed with
  | Some c =>
      if truthy c
      then mkParsed (command parsed) (args parsed ++ [ arg ])
             (options parsed)
      else mkParsed (Some arg) (args parsed) (options parsed)
  | None => mkParsed (Some arg) (args parsed) (options parsed)
  end.

(** The loop of [parseArgs] from position [i] on, [argv] being the
    arguments from that position. An option takes the next argument as
    its text when there is one, it is not empty and it does not start
    with a dash, and the loop then steps over it. *)
Fixpoint parseFrom (argv : list string) (parsed : ParsedArgs) : ParsedArgs :=
  match argv with
  | [] => parsed
  | arg :: rest =>
      let takeOption key :=
        match rest with
        | nextArg :: rest' =>
            if truthy nextArg && negb (String.prefix "-" nextArg)
            then parseFrom rest' (setOption key (Text nextArg) parsed)
            else parseFrom rest (setOption key Flag parsed)
        | [] => parseFrom rest (setOption key Flag parsed)
        end in
      if String.prefix "--" arg then takeOption (dropChars 2 arg)
      else if String.prefix "-" arg then takeOption (dropChars 1 arg)
      else parseFrom rest (addPositional arg parsed)
  end.

(** [parseArgs], on the arguments after the program name. *)
Definition parseArgs (argv : list string) : ParsedArgs :=
  parseFrom argv (mkParsed None [] ∅).

(** ToBoolean of an option read: [undefined] and the empty text are
    falsy. *)
Definition given (value : option OptionValue) : bool :=
  match value with
  | Some (Text s) => truthy s
  | Some Flag => true
  | None => false
  end.

(** [args.options['dry-run'] === true] *)
Definition isDryRun (parsed : ParsedArgs) : bool :=
  match options parsed !! "dry-run" with
  | Some Flag => true
  | _ => false
  end.

(** [args.options['no-format'] !== true] *)
Definition shouldFormat (parsed : ParsedArgs) : bool :=
  match options parsed !! "no-format" with
  | Some Flag => false
  | _ => true
  end.

(** What [main] does with the parsed line. *)
Inductive Action : Type :=
  | ShowHelp
  | RunGenerate
  | RunList
  | RunValidate (template : string)
  | ValidateWithoutName
  | RunInit
  | UnknownCommand (name : string).

(** [parsed.args[0]], tested by [!]. *)
Definition firstArg (parsed : ParsedArgs) : option string :=
  match args parsed with
  | a :: _ => if truthy a then Some a else None
  | [] => None
  end.

Definition main (parsed : ParsedArgs) : Action :=
  let commandGiven :=
    match command parsed with
    | Some c => truthy c
    | None => false
    end in
  if negb commandGiven || given (options parsed !! "help")
     || given (options parsed !! "h")
  then ShowHelp
  else
    match command parsed with
    | Some c =>
        if String.eqb c "generate" || String.eqb c "g" then RunGenerate
        else if String.eqb c "list" || String.eqb c "ls" then RunList
        else if String.eqb c "validate"
        then match firstArg parsed with
             | Some t => RunValidate t
             | None => ValidateWithoutName
             end
        else if String.eqb c "init" then RunInit
        else if String.eqb c "help" then ShowHelp
        else UnknownCommand c
    | None => ShowHelp
    end.

(** An argument that the loop reads as an option. *)
Definition isOption (arg : string) : bool := String.prefix "-" arg.

(** The key under which an option argument is recorded. *)
Definition keyOf (arg : string) : string :=
  if String.prefix "--" arg then dropChars 2 arg else dropChars 1 arg.

(** The same argument with two dashes for one. *)
Definition longForm (arg : string) : string :=
  if String.prefix "--" arg then arg
  else if String.prefix "-" arg then "-" +:+ arg
  else arg.

End Cli.

(** ** The built-in formatter of the generator without prettier *)

Module PlainGenerator.

Definition isNewline (c : ascii) : bool := Ascii.eqb c "010"%char.

(** [content.split('\n')] *)
Fixpoint splitLines (s : string) : list string :=
  match s with
  | EmptyString => [ EmptyString ]
  | String c r =>
      if isNewline c then EmptyString :: splitLines r
      else match splitLines r with
           | line :: lines => String c line :: lines
           | [] => [ String c EmptyString ]
           end
  end.

Fixpoint newlines (n : nat) : string :=
  match n with
  | O => EmptyString
  | S k => String "010"%char (newlines k)
  end.

(** What a run of [run] line feeds becomes under
    [replace(/\n{3,}/g, '\n\n')]. *)
Definition flush (run : nat) : string :=
  if (3 <=? run)%nat then newlines 2 else newlines run.

(** [s.replace(/\n{3,}/g, '\n\n')]: the pattern is greedy, so a match is
    a whole run of three or more line feeds; [run] counts the line feeds
    passed since the last other code unit. *)
Fixpoint collapseRuns (run : nat) (s : string) : string :=
  match s with
  | EmptyString => flush run
  | String c r =>
      if isNewline c then collapseRuns (S run) r
      else flush run +:+ String c (collapseRuns 0 r)
  end.

Definition formattedExtensions : list string :=
  [ ".js"; ".ts"; ".jsx"; ".tsx"; ".vue"; ".css"; ".scss" ].

(** [formatCode]; [extname] stands for [path.extname]. *)
Definition formatCode (extname : string -> string)
    (content filePath : string) : string :=
  let ext := extname filePath in
  if existsb (String.eqb ext) formattedExtensions
  then trim (collapseRuns 0 (join nl (map trimEnd (splitLines content)))) +:+ nl
  else content.

(** White space other than the line feed. *)
Definition isBlank (c : ascii) : bool :=
  Ascii.is_space c && negb (isNewline c).

(** No blank stands right before a line feed or at the end. *)
Fixpoint linesTrimmed (s : string) : bool :=
  match s with
  | EmptyString => true
  | String c r =>
      (if isBlank c
       then match r with
            | String d _ => negb (isNewline d)
            | EmptyString => false
            end
       else true)
      && linesTrimmed r
  end.

(** No run of line feeds grows beyond two, [run] of them being passed. *)
Fixpoint shortRuns (run : nat) (s : string) : bool :=
  match s with
  | EmptyString => true
  | String c r =>
      if isNewline c then (S run <? 3)%nat && shortRuns (S run) r
      else shortRuns 0 r
  end.

Definition startsClean (s : string) : bool :=
  match s with
  | EmptyString => true
  | String c _ => negb (Ascii.is_space c)
  end.

Fixpoint noNewline (s : string) : bool :=
  match s with
  | EmptyString => true
  | String c r => negb (isNewline c) && noNewline r
  end.

End PlainGenerator.

(** ** [shouldIgnore] on simple patterns *)

Module Ignore.

(** The regular expressions that [new RegExp(pattern.replace(/\*/g, '.*'))]
    yields for a pattern made of letters, digits, [/], [-], [_], dots and
    stars: a sequence of literal characters, [.] and [.*]. *)
Inductive Atom : Type :=
  | Star
  | Dot
  | Lit (c : ascii).

(** The characters that stand for themselves in a regular expression and
    are kept here. *)
Definition isPlainChar (c : ascii) : bool :=
  isLowerAlpha c || isUpperAlpha c || isDigit c
  || Ascii.eqb c "/"%char || Ascii.eqb c "-"%char || Ascii.eqb c "_"%char.

(** The pattern as a regular expression; [None] for a pattern with any
    other character, which this model does not follow. *)
Fixpoint compile (pattern : string) : option (list Atom) :=
  match pattern with
  | EmptyString => Some []
  | String c r =>
      match compile r with
      | Some atoms =>
          if Ascii.eqb c "*"%char then Some (Star :: atoms)
          else if Ascii.eqb c "."%char then Some (Dot :: atoms)
          else if isPlainChar c then Some (Lit c :: atoms)
          else None
      | None => None
      end
  end.

(** A dot matches any code unit but a line terminator. *)
Definition isLineTerminator (c : ascii) : bool :=
  Ascii.eqb c "010"%char || Ascii.eqb c "013"%char.

(** Whether the expression matches at the start of the text. *)
Fixpoint matchHere (atoms : list Atom) : string -> bool :=
  match atoms with
  | [] => fun _ => true
  | Lit c :: rest =>
      fun s =>
        match s with
        | String d r => Ascii.eqb c d && matchHere rest r
        | EmptyString => false
        end
  | Dot :: rest =>
      fun s =>
        match s with
        | String d r => negb (isLineTerminator d) && matchHere rest r
        | EmptyString => false
        end
  | Star :: rest =>
      fix star (s : string) : bool :=
        matchHere rest s
        || match s with
           | String d r => negb (isLineTerminator d) && star r
           | EmptyString => false
           end
  end.

(** [regex.test(text)]: a match starting anywhere. *)
Fixpoint test (atoms : list Atom) (text : string) : bool :=
  matchHere atoms text
  || match text with
     | String _ r => test atoms r
     | EmptyString => false
     end.

(** [patterns.some(...)]: the patterns are tried in their order up to the
    first that matches. *)
Fixpoint shouldIgnore (filePath : string) (patterns : list string)
  : option bool :=
  match patterns with
  | [] => Some false
  | pattern :: rest =>
      match compile pattern with
      | Some atoms =>
          if test atoms filePath then Some true
          else shouldIgnore filePath rest
      | None => None
      end
  end.

Fixpoint literal (s : string) : list Atom :=
  match s with
  | EmptyString => []
  | String c r => Lit c :: literal r
  end.

Fixpoint isPlain (s : string) : bool :=
  match s with
  | EmptyString => true
  | String c r => isPlainChar c && isPlain r
  end.

End Ignore.
(** * Properties *)

(** ** Text lemmas *)

Section Text.

Lemma app_String c a b : String c a +:+ b = String c (a +:+ b).
Proof. reflexivity. Qed.

Lemma app_empty_l a : EmptyString +:+ a = a.
Proof. reflexivity. Qed.

Lemma app_empty_r a : a +:+ EmptyString = a.
Proof. induction a as [|c a IH]; [done|]. by rewrite app_String, IH. Qed.

Lemma app_assoc a b c : (a +:+ b) +:+ c = a +:+ (b +:+ c).
Proof.
  induction a as [|x a IH]; [done|]. by rewrite !app_String, IH.
Qed.

Lemma prefix_empty s : String.prefix EmptyString s = true.
Proof. by destruct s. Qed.

Lemma prefix_app t a b :
  String.prefix t a = true -> String.prefix t (a +:+ b) = true.
Proof.
  revert a. induction t as [|x t IH]; intros a H.
  - apply prefix_empty.
  - destruct a as [|y a]; [done|]. rewrite app_String. simpl in *.
    destruct (ascii_dec x y); [|done]. by apply IH.
Qed.

Lemma prefix_self t b : String.prefix t (t +:+ b) = true.
Proof.
  induction t as [|x t IH]; [apply prefix_empty|].
  rewrite app_String. simpl. by destruct (ascii_dec x x).
Qed.

Lemma includes_unfold t s :
  includes t s =
  String.prefix t s ||
  match s with EmptyString => false | String _ r => includes t r end.
Proof. by destruct s. Qed.

Lemma includes_app_l t a b :
  includes t a = true -> includes t (a +:+ b) = true.
Proof.
  induction a as [|x a IH]; intros H.
  - rewrite includes_unfold in H. rewrite orb_false_r in H.
    rewrite includes_unfold. by rewrite (prefix_app _ _ _ H).
  - rewrite app_String. rewrite includes_unfold in H |- *.
    apply orb_true_iff in H as [H|H].
    + by rewrite <- app_String, (prefix_app _ _ _ H).
    + rewrite (IH H). apply orb_true_r.
Qed.

Lemma includes_app_r t a b :
  includes t b = true -> includes t (a +:+ b) = true.
Proof.
  intros H. induction a as [|x a IH]; [done|].
  rewrite app_String, includes_unfold, IH. apply orb_true_r.
Qed.

Lemma includes_here t b : includes t (t +:+ b) = true.
Proof. by rewrite includes_unfold, prefix_self. Qed.

Lemma includes_refl t : includes t t = true.
Proof. rewrite <- (app_empty_r t) at 2. apply includes_here. Qed.

End Text.

(** ** The walker only appends *)

Ltac walk_eq :=
  repeat match goal with
         | w : Walk |- _ => destruct w as [[? ? ? ? ? ?] ?]
         end;
  unfold appendWalk, addFormItems, addTypes, addDefaultValues, addInterfaces,
    addZodSchema, pushField, emptyWalk, emptyReplacements;
  cbn [buffers allFields formItems types defaultValues fields interfaces
       zodSchema];
  rewrite ?app_assoc, ?app_empty_r, ?app_empty_l, ?app_nil_r,
    <- ?(assoc_L (++));
  try reflexivity.

Section WalkerFacts.

Variable vt : gmap string string.

Lemma appendWalk_empty_r w : appendWalk w emptyWalk = w.
Proof. walk_eq. Qed.

Lemma appendWalk_empty_l w : appendWalk emptyWalk w = w.
Proof. walk_eq. Qed.

Lemma appendWalk_assoc a b c :
  appendWalk (appendWalk a b) c = appendWalk a (appendWalk b c).
Proof. walk_eq. Qed.

Lemma processField_group key entries prefix w :
  processField vt key (JObj entries) prefix w
  = processEntries vt entries (fullPathOf prefix key)
      (enterGroup key (JObj entries) w).
Proof.
  cbn [processField].
  generalize (enterGroup key (JObj entries) w) as w0.
  induction entries as [|[k v] l IH]; intros w0; [done|].
  cbn [processEntries]. destruct (processField vt k v _ w0); [|done].
  cbn. apply IH.
Qed.

Lemma processField_leaf key value prefix w :
  isPlainObject value = false ->
  processField vt key value prefix w = processLeaf vt key value prefix w.
Proof. by destruct value. Qed.

Lemma enterGroup_frame key value w :
  enterGroup key value w = appendWalk w (enterGroup key value emptyWalk).
Proof. destruct value; cbn [enterGroup]; walk_eq. Qed.

Lemma processLeaf_frame key value prefix w :
  processLeaf vt key value prefix w
  = d ← processLeaf vt key value prefix emptyWalk; mret (appendWalk w d).
Proof.
  unfold processLeaf.
  destruct (getProperty vt (toPropertyKey value)) as [|template|];
    [| destruct (truthy template) |]; cbn; try done;
    destruct (truthy prefix); cbn; f_equal; walk_eq.
Qed.

(** Frame property: a call appends to the buffers it is given what it
    would append to empty ones. *)
Lemma processField_frame key value prefix w :
  processField vt key value prefix w
  = d ← processField vt key value prefix emptyWalk; mret (appendWalk w d).
Proof.
  revert key prefix w.
  induction value as [| | | | |entries IH] using JValue_nested_ind;
    intros key prefix w;
    try (rewrite !processField_leaf by done; apply processLeaf_frame).
  rewrite !processField_group.
  rewrite (enterGroup_frame _ _ w).
  generalize (enterGroup key (JObj entries) emptyWalk) as g.
  generalize (fullPathOf prefix key) as p.
  intros p. induction IH as [|[k v] l Hv _ IHl]; intros g.
  - cbn. done.
  - cbn [processEntries]. cbn in Hv.
    rewrite (Hv k p (appendWalk w g)), (Hv k p g).
    destruct (processField vt k v p emptyWalk) as [d|e]; cbn; [|done].
    rewrite appendWalk_assoc. apply IHl.
Qed.

Lemma processEntries_frame entries prefix w :
  processEntries vt entries prefix w
  = d ← processEntries vt entries prefix emptyWalk; mret (appendWalk w d).
Proof.
  revert w. induction entries as [|[k v] l IH]; intros w.
  - cbn. by rewrite appendWalk_empty_r.
  - cbn [processEntries].
    rewrite (processField_frame k v prefix w).
    destruct (processField vt k v prefix emptyWalk) as [d|e]; cbn; [|done].
    rewrite (IH (appendWalk w d)), (IH d).
    destruct (processEntries vt l prefix emptyWalk) as [d'|e]; cbn; [|done].
    by rewrite appendWalk_assoc.
Qed.

End WalkerFacts.

(** ** Leaves *)

Section LeafFacts.

Variable vt : gmap string string.

Lemma truthy_false s : truthy s = false <-> s = EmptyString.
Proof. by destruct s. Qed.

Lemma truthy_true s : truthy s = true <-> s <> EmptyString.
Proof. by destruct s. Qed.

Lemma fullPathOf_truthy prefix key :
  truthy prefix = true \/ truthy key = true ->
  truthy (fullPathOf prefix key) = true.
Proof.
  unfold fullPathOf. destruct prefix as [|c p]; cbn; [|done].
  by intros [?|?].
Qed.

Lemma fold_fullPathOf_truthy ancestors prefix :
  truthy prefix = true \/ Exists (fun a => a <> EmptyString) ancestors ->
  truthy (fold_left fullPathOf ancestors prefix) = true.
Proof.
  revert prefix. induction ancestors as [|a l IH]; intros prefix H; cbn.
  - destruct H as [H|H]; [done|inversion H].
  - apply IH. destruct H as [H|H].
    + left. apply fullPathOf_truthy. by left.
    + inversion H as [? ? Ha|? ? Hl]; subst; [|by right].
      left. apply fullPathOf_truthy. right. by apply truthy_true.
Qed.

(** A group reached through at least one non-empty key walks its children
    under a non-empty prefix. *)
Lemma pathOf_truthy ancestors :
  Exists (fun a => a <> EmptyString) ancestors ->
  truthy (pathOf ancestors) = true.
Proof. intros H. apply fold_fullPathOf_truthy. by right. Qed.

(** What a leaf call returns when the lookup does not throw: some form
    markup, the root-only lines, and the quoted path. *)
Lemma processLeaf_returns key value prefix w :
  lookupThrows vt value = false ->
  exists markup,
    processLeaf vt key value prefix w
    = Returned
        (pushField ("'" +:+ fullPathOf prefix key +:+ "'")
           ((if truthy prefix then id
             else fun w1 =>
                    addDefaultValues ("  " +:+ key +:+ ": ''," +:+ nl)
                      (addTypes ("  " +:+ key +:+ ": string;" +:+ nl) w1))
              (addFormItems markup w)))
    /\ (getProperty vt (toPropertyKey value) = Undefined ->
        markup = EmptyString).
Proof.
  unfold lookupThrows, processLeaf. intros H.
  destruct (getProperty vt (toPropertyKey value)) as [|template|];
    [| |done].
  - exists EmptyString. split; [|done]. cbn.
    replace (addFormItems EmptyString w) with w by walk_eq.
    by destruct (truthy prefix).
  - destruct (truthy template) eqn:Ht.
    + exists (formItem template key (fullPathOf prefix key) +:+ nl).
      split; [|done]. cbn. by destruct (truthy prefix).
    + exists EmptyString. split; [|done]. cbn.
      replace (addFormItems EmptyString w) with w by walk_eq.
      by destruct (truthy prefix).
Qed.

Lemma fold_left_text {A} (f : A -> string) (l : list A) (init : string) :
  fold_left (fun acc x => acc +:+ f x) l init
  = init +:+ fold_right (fun x acc => f x +:+ acc) EmptyString l.
Proof.
  revert init. induction l as [|x l IH]; intros init; cbn.
  - by rewrite app_empty_r.
  - by rewrite IH, app_assoc.
Qed.

End LeafFacts.

(** ** Group literals *)

Section GroupFacts.

Lemma concatText_app l1 l2 :
  concatText (l1 ++ l2) = concatText l1 +:+ concatText l2.
Proof.
  induction l1 as [|x l1 IH]; [done|].
  cbn. fold (concatText (l1 ++ l2)) (concatText l1).
  by rewrite IH, app_assoc.
Qed.

Lemma includes_concatText t l :
  In t l -> includes t (concatText l) = true.
Proof.
  induction l as [|x l IH]; [done|]. intros [->|H]; cbn.
  - apply includes_here.
  - apply includes_app_r. by apply IH.
Qed.

Lemma interfaceContent_entries key entries :
  interfaceContent key entries
  = ("export interface " +:+ capitalize key +:+ " {" +:+ nl)
    +:+ concatText (map (fun kv => interfaceMember kv.1 kv.2) entries)
    +:+ "}" +:+ nl +:+ nl.
Proof.
  unfold interfaceContent.
  generalize ("export interface " +:+ capitalize key +:+ " {" +:+ nl).
  induction entries as [|[k v] l IH]; intros init; cbn [fold_left map].
  - reflexivity.
  - rewrite IH. cbn.
    fold (concatText (map (fun kv => interfaceMember kv.1 kv.2) l)).
    by rewrite !app_assoc.
Qed.

Lemma generateNestedDefaults_entries entries :
  generateNestedDefaults (JObj entries)
  = ("{" +:+ nl)
    +:+ concatText (map (fun kv => defaultsEntry kv.1 kv.2) entries)
    +:+ "  }".
Proof.
  cbn [generateNestedDefaults].
  generalize ("{" +:+ nl).
  induction entries as [|[k v] l IH]; intros init; cbn [map].
  - reflexivity.
  - rewrite IH. cbn.
    fold (concatText (map (fun kv => defaultsEntry kv.1 kv.2) l)).
    unfold defaultsEntry. by rewrite !app_assoc.
Qed.

Lemma generateNestedZodSchema_entries entries :
  generateNestedZodSchema (JObj entries)
  = ("{" +:+ nl)
    +:+ concatText (map (fun kv => zodEntry kv.1 kv.2) entries)
    +:+ "  }".
Proof.
  cbn [generateNestedZodSchema].
  generalize ("{" +:+ nl).
  induction entries as [|[k v] l IH]; intros init; cbn [map].
  - reflexivity.
  - rewrite IH. cbn.
    fold (concatText (map (fun kv => zodEntry kv.1 kv.2) l)).
    unfold zodEntry. by rewrite !app_assoc.
Qed.

Lemma interfaceContent_member parent entries key value :
  In (key, value) entries ->
  includes (interfaceMember key value) (interfaceContent parent entries)
  = true.
Proof.
  intros H. rewrite interfaceContent_entries.
  apply includes_app_r, includes_app_l, includes_concatText.
  by apply (in_map (fun kv => interfaceMember kv.1 kv.2) _ _ H).
Qed.

Lemma generateNestedDefaults_member entries key value :
  In (key, value) entries ->
  includes (defaultsEntry key value) (generateNestedDefaults (JObj entries))
  = true.
Proof.
  intros H. rewrite generateNestedDefaults_entries.
  apply includes_app_r, includes_app_l, includes_concatText.
  by apply (in_map (fun kv => defaultsEntry kv.1 kv.2) _ _ H).
Qed.

Lemma generateNestedZodSchema_member entries key value :
  In (key, value) entries ->
  includes (zodEntry key value) (generateNestedZodSchema (JObj entries))
  = true.
Proof.
  intros H. rewrite generateNestedZodSchema_entries.
  apply includes_app_r, includes_app_l, includes_concatText.
  by apply (in_map (fun kv => zodEntry kv.1 kv.2) _ _ H).
Qed.

End GroupFacts.

(** ** Traversal lemmas *)

Section TraversalFacts.

Variable vt : gmap string string.

Lemma processEntries_app l1 l2 prefix w :
  processEntries vt (l1 ++ l2) prefix w
  = w1 ← processEntries vt l1 prefix w; processEntries vt l2 prefix w1.
Proof.
  revert w. induction l1 as [|[k v] l1 IH]; intros w; [done|].
  cbn [app processEntries].
  destruct (processField vt k v prefix w); cbn; [apply IH|done].
Qed.

Lemma processField_extends key value prefix w w' :
  processField vt key value prefix w = Returned w' ->
  exists d, processField vt key value prefix emptyWalk = Returned d
            /\ w' = appendWalk w d.
Proof.
  rewrite processField_frame.
  destruct (processField vt key value prefix emptyWalk) as [d|]; [|done].
  cbn. intros [= <-]. by exists d.
Qed.

Lemma processEntries_extends entries prefix w w' :
  processEntries vt entries prefix w = Returned w' ->
  exists d, processEntries vt entries prefix emptyWalk = Returned d
            /\ w' = appendWalk w d.
Proof.
  rewrite processEntries_frame.
  destruct (processEntries vt entries prefix emptyWalk) as [d|]; [|done].
  cbn. intros [= <-]. by exists d.
Qed.

(** In a traversal that returns, every entry was processed on buffers
    that extend the initial ones, and the final buffers extend what that
    call returned. *)
Lemma processEntries_In entries prefix w w' key value :
  processEntries vt entries prefix w = Returned w' ->
  In (key, value) entries ->
  exists d1 w2 d2,
    processField vt key value prefix (appendWalk w d1) = Returned w2
    /\ w' = appendWalk w2 d2.
Proof.
  intros Hrun Hin. apply in_split in Hin as (l1 & l2 & ->).
  rewrite processEntries_app in Hrun.
  destruct (processEntries vt l1 prefix w) as [w1|] eqn:H1; [|done].
  cbn in Hrun. cbn [processEntries] in Hrun.
  destruct (processField vt key value prefix w1) as [w2|] eqn:H2; [|done].
  cbn in Hrun.
  apply processEntries_extends in H1 as (d1 & _ & ->).
  apply processEntries_extends in Hrun as (d2 & _ & ->).
  by exists d1, w2, d2.
Qed.

End TraversalFacts.

(** ** Scenario B *)

Lemma lookupThrows_own_or_missing vt value :
  inheritedMember (toPropertyKey value) = false ->
  lookupThrows vt value = false.
Proof.
  unfold lookupThrows, getProperty. intros ->.
  by destruct (vt !! toPropertyKey value).
Qed.

(** C2. For the body [{name: input, address: {city: input, country:
    select}}] and any FieldTypeMap, the expansion returns; [interfaces] is
    the [Address] declaration with the members [city: string;] and
    [country: string;]; [types] holds [name: string;] and
    [address: Address;] and mentions neither [city] nor [country];
    [defaultValues] holds the nested literal of [address] with
    [city: ''] and [country: '']; [fields] is
    ['name', 'address.city', 'address.country']. *)
Theorem scenario_B_nesting (vt : gmap string string) :
  exists r,
    generateBodyReplacements vt scenarioB = Returned r
    /\ interfaces r
       = "export interface Address {" +:+ nl
         +:+ "  city: string;" +:+ nl
         +:+ "  country: string;" +:+ nl
         +:+ "}" +:+ nl +:+ nl
    /\ types r = "  name: string;" +:+ nl +:+ "  address: Address;" +:+ nl
    /\ includes "city" (types r) = false
    /\ includes "country" (types r) = false
    /\ defaultValues r
       = "name: ''," +:+ nl
         +:+ "  address: {" +:+ nl
         +:+ "    city: ''," +:+ nl
         +:+ "    country: ''," +:+ nl
         +:+ "  }"
    /\ fields r = "'name', 'address.city', 'address.country'".
Proof.
  unfold generateBodyReplacements, scenarioB.
  cbn [processEntries].
  rewrite processField_leaf by done.
  destruct (processLeaf_returns vt "name" (JStr "input") EmptyString emptyWalk)
    as (m1 & -> & _); [by apply lookupThrows_own_or_missing|].
  cbn [mbind outcome_bind].
  rewrite processField_group. cbn [processEntries].
  rewrite processField_leaf by done.
  match goal with
  | |- context [processLeaf vt "city" ?v ?p ?w] =>
      destruct (processLeaf_returns vt "city" v p w) as (m2 & -> & _);
      [by apply lookupThrows_own_or_missing|]
  end.
  cbn [mbind outcome_bind].
  rewrite processField_leaf by done.
  match goal with
  | |- context [processLeaf vt "country" ?v ?p ?w] =>
      destruct (processLeaf_returns vt "country" v p w) as (m3 & -> & _);
      [by apply lookupThrows_own_or_missing|]
  end.
  cbn [mbind outcome_bind mret outcome_ret].
  eexists. split; [reflexivity|].
  vm_compute. repeat split.
Qed.

(** ** Groups at any depth *)

Section GroupLines.

Variable vt : gmap string string.

Lemma enterGroup_buffers key entries w :
  let g := enterGroup key (JObj entries) w in
  types (buffers g)
  = types (buffers w)
    +:+ ("  " +:+ key +:+ ": " +:+ capitalize key +:+ ";" +:+ nl)
  /\ defaultValues (buffers g)
     = defaultValues (buffers w)
       +:+ ("  " +:+ key +:+ ": " +:+ generateNestedDefaults (JObj entries)
            +:+ "," +:+ nl)
  /\ interfaces (buffers g)
     = interfaces (buffers w) +:+ interfaceContent key entries
  /\ zodSchema (buffers g)
     = zodSchema (buffers w)
       +:+ ("  " +:+ key +:+ ": z.object("
            +:+ generateNestedZodSchema (JObj entries) +:+ ")," +:+ nl)
  /\ formItems (buffers g) = formItems (buffers w)
  /\ allFields g = allFields w.
Proof. by destruct w as [[]]. Qed.

Lemma processField_group_extends key entries prefix w w' :
  processField vt key (JObj entries) prefix w = Returned w' ->
  exists d, w' = appendWalk (enterGroup key (JObj entries) w) d.
Proof.
  rewrite processField_group. intros H.
  apply processEntries_extends in H as (d & _ & ->). by exists d.
Qed.

End GroupLines.

(** C3. A group is handled the same way under every prefix: before it
    descends into its children the call appends [key: Key;] to [types],
    [key: <nested defaults>,] to [defaultValues], the interface declaration
    to [interfaces] and [key: z.object(...),] to [zodSchema], and whatever
    the descent appends comes after these. Hence a group that is a child of
    another group shows both in its parent's interface and nested literals
    and with entries of its own in [types], [defaultValues] and
    [zodSchema]. *)
Theorem group_lines_at_any_depth
    (vt : gmap string string) (key : string)
    (entries : list (string * JValue)) (prefix : string) (w : Walk) :
  let own := enterGroup key (JObj entries) emptyWalk in
  types (buffers own)
  = "  " +:+ key +:+ ": " +:+ capitalize key +:+ ";" +:+ nl
  /\ defaultValues (buffers own)
     = "  " +:+ key +:+ ": " +:+ generateNestedDefaults (JObj entries)
       +:+ "," +:+ nl
  /\ interfaces (buffers own) = interfaceContent key entries
  /\ zodSchema (buffers own)
     = "  " +:+ key +:+ ": z.object("
       +:+ generateNestedZodSchema (JObj entries) +:+ ")," +:+ nl
  /\ processField vt key (JObj entries) prefix w
     = processEntries vt entries (fullPathOf prefix key) (appendWalk w own)
  /\ (forall w',
        processField vt key (JObj entries) prefix w = Returned w' ->
        exists below, w' = appendWalk (appendWalk w own) below)
  /\ (forall childKey childEntries w',
        In (childKey, JObj childEntries) entries ->
        processField vt key (JObj entries) prefix w = Returned w' ->
        let child := enterGroup childKey (JObj childEntries) emptyWalk in
        includes ("  " +:+ childKey +:+ ": " +:+ capitalize childKey
                  +:+ ";" +:+ nl) (interfaceContent key entries) = true
        /\ includes ("    " +:+ childKey +:+ ": "
                     +:+ generateNestedDefaults (JObj childEntries)
                     +:+ "," +:+ nl)
             (generateNestedDefaults (JObj entries)) = true
        /\ includes (types (buffers child)) (types (buffers w')) = true
        /\ includes (defaultValues (buffers child))
             (defaultValues (buffers w')) = true
        /\ includes (interfaces (buffers child))
             (interfaces (buffers w')) = true
        /\ includes (zodSchema (buffers child))
             (zodSchema (buffers w')) = true).
Proof.
  intros own. subst own.
  repeat (split; [reflexivity|]).
  split; [by rewrite processField_group, <- enterGroup_frame|].
  split.
  - intros w' H. apply processField_group_extends in H as (d & ->).
    exists d. by rewrite <- enterGroup_frame.
  - intros childKey childEntries w' Hin Hrun child.
    split; [apply (interfaceContent_member key entries _ _ Hin)|].
    split; [apply (generateNestedDefaults_member entries _ _ Hin)|].
    rewrite processField_group in Hrun.
    destruct (processEntries_In vt _ _ _ _ _ _ Hrun Hin)
      as (d1 & w2 & d2 & Hchild & ->).
    apply processField_group_extends in Hchild as (d3 & ->).
    rewrite (enterGroup_frame childKey). fold child.
    generalize dependent child. intros child.
    repeat split;
      change (buffers (appendWalk ?a ?b))
        with (buffers (appendWalk a b)); unfold appendWalk at 1 2 3;
      cbn [buffers types defaultValues interfaces zodSchema];
      apply includes_app_l, includes_app_l, includes_app_r, includes_refl.
Qed.

Example group_two_levels_down :
  exists r,
    generateBodyReplacements demoTemplates
      [ ("a", JObj [ ("b", JObj [ ("c", JObj [ ("d", JStr "input") ]) ]) ]) ]
    = Returned r
    /\ types r
       = "  a: A;" +:+ nl +:+ "  b: B;" +:+ nl +:+ "  c: C;" +:+ nl.
Proof. eexists. split; reflexivity. Qed.

(** ** Order of emission *)

Section Order.

Variable vt : gmap string string.

Lemma appendAll_cons w d ds :
  appendAll w (d :: ds) = appendWalk w (appendAll d ds).
Proof.
  unfold appendAll. cbn [fold_left]. revert w d.
  induction ds as [|x ds IH]; intros w d; [done|].
  cbn [fold_left]. by rewrite IH, IH, appendWalk_assoc.
Qed.

Lemma appendAll_buffer (proj : Walk -> string) w ds :
  (forall a b, proj (appendWalk a b) = proj a +:+ proj b) ->
  proj (appendAll w ds) = proj w +:+ concatText (map proj ds).
Proof.
  intros Hproj. revert w. induction ds as [|d ds IH]; intros w.
  - cbn. by rewrite app_empty_r.
  - unfold appendAll in *. cbn [fold_left map]. rewrite IH, Hproj.
    cbn. fold (concatText (map proj ds)). by rewrite app_assoc.
Qed.

Lemma appendAll_allFields w ds :
  allFields (appendAll w ds) = allFields w ++ concat (map allFields ds).
Proof.
  revert w. induction ds as [|d ds IH]; intros w.
  - cbn. by rewrite app_nil_r.
  - unfold appendAll in *. cbn [fold_left map concat]. rewrite IH.
    cbn. by rewrite <- (assoc_L (++)).
Qed.

Lemma processEntries_emissions entries prefix w w' :
  processEntries vt entries prefix w = Returned w'
  <-> exists ds, Forall2 (emits vt prefix) entries ds
                 /\ w' = appendAll w ds.
Proof.
  revert w w'. induction entries as [|[k v] l IH]; intros w w'.
  - cbn. split.
    + intros [= <-]. exists []. by split; [constructor|].
    + intros (ds & Hds & ->). by inversion Hds.
  - cbn [processEntries]. rewrite processField_frame. split.
    + destruct (processField vt k v prefix emptyWalk) as [d|] eqn:Hd;
        [|done].
      cbn. intros (ds & Hds & ->)%IH.
      exists (d :: ds). split; [by constructor|done].
    + intros (ds & Hds & ->). inversion Hds as [|? d ? ds' Hd Hrest]; subst.
      unfold emits in Hd. cbn in Hd. rewrite Hd. cbn.
      apply IH. by exists ds'.
Qed.

End Order.

Section OwnOrder.

Lemma defineMember_fresh key value props :
  key ∉ map fst props ->
  defineMember key value props = props ++ [ (key, value) ].
Proof.
  induction props as [|[k v] rest IH]; [done|]. cbn [map fst].
  intros [Hne Hrest]%not_elem_of_cons. cbn [defineMember app].
  assert (String.eqb k key = false) as -> by (apply String.eqb_neq; congruence).
  by rewrite IH.
Qed.

Lemma createdMembers_from members props :
  NoDup (map fst (props ++ members)) ->
  fold_left (fun props '(key, value) => defineMember key value props)
    members props
  = props ++ members.
Proof.
  revert props. induction members as [|[k v] l IH]; intros props Hnd.
  - by rewrite app_nil_r.
  - cbn [fold_left]. rewrite defineMember_fresh.
    + rewrite IH; rewrite <- (assoc_L (++)); [done|exact Hnd].
    + rewrite map_app in Hnd. apply NoDup_app in Hnd as (_ & Hnot & _).
      intros Hin. apply (Hnot k Hin). cbn. left.
Qed.

(** Members with distinct keys are created in the order they are
    written. *)
Lemma createdMembers_NoDup members :
  NoDup (map fst members) -> createdMembers members = members.
Proof. intros H. by apply (createdMembers_from members []). Qed.

Lemma elem_of_insertByIndex x n entry sorted :
  x ∈ insertByIndex n entry sorted <-> x = (n, entry) \/ x ∈ sorted.
Proof.
  induction sorted as [|[m y] rest IH]; cbn [insertByIndex].
  - rewrite list_elem_of_singleton, elem_of_nil. tauto.
  - destruct (n <? m)%N; rewrite !elem_of_cons; [tauto|].
    rewrite IH. tauto.
Qed.

Lemma Sorted_insertByIndex n entry sorted :
  Sorted N.le (map fst sorted) ->
  Sorted N.le (map fst (insertByIndex n entry sorted)).
Proof.
  induction sorted as [|[m y] rest IH]; intros Hs; cbn [insertByIndex].
  - repeat constructor.
  - destruct (n <? m)%N eqn:E.
    + constructor; [done|]. constructor. apply N.ltb_lt in E. cbn. lia.
    + apply N.ltb_ge in E. cbn [map fst] in *.
      inversion Hs as [|? ? Hrest Hhd]; subst.
      constructor; [by apply IH|].
      destruct rest as [|[m' y'] rest']; cbn [insertByIndex].
      * by constructor.
      * destruct (n <? m')%N; constructor; [done|].
        by inversion Hhd.
Qed.

Lemma Sorted_indexedMembers props :
  Sorted N.le (map fst (indexedMembers props)).
Proof.
  induction props as [|entry rest IH]; cbn [indexedMembers];
    [constructor|].
  destruct (arrayIndex entry.1); [by apply Sorted_insertByIndex|done].
Qed.

Lemma elem_of_indexedMembers props n entry :
  (n, entry) ∈ indexedMembers props
  <-> entry ∈ props /\ arrayIndex entry.1 = Some n.
Proof.
  induction props as [|e rest IH]; cbn [indexedMembers].
  - rewrite !elem_of_nil. tauto.
  - rewrite elem_of_cons. destruct (arrayIndex e.1) as [m|] eqn:He.
    + rewrite elem_of_insertByIndex, IH. split.
      * intros [[= -> ->]|[? ?]]; auto.
      * intros [[->|?] Hn]; [left; congruence|auto].
    + rewrite IH. split; [tauto|].
      intros [[->|?] Hn]; [congruence|auto].
Qed.

Lemma indexedMembers_none props :
  Forall (fun kv => arrayIndex kv.1 = None) props ->
  indexedMembers props = []
  /\ List.filter (fun entry => negb (isArrayIndex entry.1)) props = props.
Proof.
  induction 1 as [|e rest He _ [IH1 IH2]]; [done|].
  cbn [indexedMembers List.filter]. rewrite He, IH1. split; [done|].
  assert (isArrayIndex e.1 = false) as ->
    by (unfold isArrayIndex; by rewrite He).
  cbn [negb]. by rewrite IH2.
Qed.

End OwnOrder.

(** C6, as the code has it. The walker takes the entries of an object as
    [Object.entries] yields them, and at every level handles them in that
    order: a traversal returns exactly when every entry's call
    returns, and then each buffer is the initial text followed by what the
    first entry emitted, then what the second emitted, and so on, the
    [allFields] list likewise; a group emits its own lines and then what
    its children emit, in their order; the member lines of an interface
    and the entries of the nested default and schema literals follow the
    same order; and [fields] joins the list without reordering it. For an
    object that [JSON.parse] builds from members with distinct keys, that
    order has the keys that are array indices first, in ascending order
    of the index, and then the other keys as they are written; it is the
    order of writing when no key is an array index. *)
Theorem order_preservation
    (vt : gmap string string) (entries : list (string * JValue))
    (prefix : string) (w : Walk) :
  (forall w',
     processEntries vt entries prefix w = Returned w'
     <-> exists ds, Forall2 (emits vt prefix) entries ds
                    /\ w' = appendAll w ds)
  /\ (forall ds,
        let text proj := concatText (map (fun d => proj (buffers d)) ds) in
        let after := buffers (appendAll w ds) in
        formItems after = formItems (buffers w) +:+ text formItems
        /\ types after = types (buffers w) +:+ text types
        /\ defaultValues after
           = defaultValues (buffers w) +:+ text defaultValues
        /\ interfaces after = interfaces (buffers w) +:+ text interfaces
        /\ zodSchema after = zodSchema (buffers w) +:+ text zodSchema
        /\ allFields (appendAll w ds)
           = allFields w ++ concat (map allFields ds))
  /\ (forall key,
        processField vt key (JObj entries) prefix w
        = processEntries vt entries (fullPathOf prefix key)
            (enterGroup key (JObj entries) w))
  /\ (forall key,
        interfaceContent key entries
        = ("export interface " +:+ capitalize key +:+ " {" +:+ nl)
          +:+ concatText (map (fun kv => interfaceMember kv.1 kv.2) entries)
          +:+ "}" +:+ nl +:+ nl)
  /\ generateNestedDefaults (JObj entries)
     = ("{" +:+ nl)
       +:+ concatText (map (fun kv => defaultsEntry kv.1 kv.2) entries)
       +:+ "  }"
  /\ generateNestedZodSchema (JObj entries)
     = ("{" +:+ nl)
       +:+ concatText (map (fun kv => zodEntry kv.1 kv.2) entries)
       +:+ "  }"
  /\ fields (finish w) = join ", " (allFields w)
  /\ (forall members,
        NoDup (map fst members) ->
        let indexed := indexedMembers members in
        ownEntries members
        = map snd indexed
          ++ List.filter (fun entry => negb (isArrayIndex entry.1)) members
        /\ Sorted N.le (map fst indexed)
        /\ (forall n entry,
              (n, entry) ∈ indexed
              <-> entry ∈ members /\ arrayIndex entry.1 = Some n)
        /\ (Forall (fun kv => arrayIndex kv.1 = None) members ->
            ownEntries members = members)).
Proof.
  split; [intros w'; apply processEntries_emissions|].
  split.
  { intros ds text after. subst text after.
    repeat split;
      try (apply (appendAll_buffer (fun x => _ (buffers x))); reflexivity).
    apply appendAll_allFields. }
  split; [intros key; apply processField_group|].
  split; [intros key; apply interfaceContent_entries|].
  split; [apply generateNestedDefaults_entries|].
  split; [apply generateNestedZodSchema_entries|].
  split; [reflexivity|].
  intros members Hnd indexed. subst indexed. unfold ownEntries.
  rewrite (createdMembers_NoDup members Hnd).
  split; [done|]. split; [apply Sorted_indexedMembers|].
  split; [intros n entry; apply elem_of_indexedMembers|].
  intros Hnone. by destruct (indexedMembers_none members Hnone) as [-> ->].
Qed.

(** C6 as stated fails on a body with an array index among its keys: the
    member written second is handled first. *)
Lemma integer_keys_come_first :
  parsedBody [ ("b", JStr "input"); ("1", JStr "select") ]
  = [ ("1", JStr "select"); ("b", JStr "input") ]
  /\ exists r,
       generateBodyReplacements demoTemplates
         (parsedBody [ ("b", JStr "input"); ("1", JStr "select") ])
       = Returned r
       /\ fields r = "'1', 'b'"
       /\ types r = "  1: string;" +:+ nl +:+ "  b: string;" +:+ nl.
Proof. split; [reflexivity|]. eexists. repeat split. Qed.

Example order_demo :
  exists r,
    generateBodyReplacements demoTemplates
      [ ("z", JStr "input"); ("m", JObj [ ("y", JStr "select");
                                           ("b", JStr "input") ]);
        ("a", JStr "input") ] = Returned r
    /\ fields r = "'z', 'm.y', 'm.b', 'a'".
Proof. eexists. split; reflexivity. Qed.

(** ** Finalization *)

Section Trimming.

Lemma trimStart_split s :
  exists a, s = a +:+ trimStart s /\ allSpace a = true.
Proof.
  induction s as [|c s (a & IH & Ha)].
  - by exists EmptyString.
  - cbn [trimStart]. destruct (Ascii.is_space c) eqn:Hc.
    + exists (String c a). rewrite app_String, <- IH. cbn. by rewrite Hc, Ha.
    + by exists EmptyString.
Qed.

Lemma trimEnd_split s :
  exists b, s = trimEnd s +:+ b /\ allSpace b = true.
Proof.
  induction s as [|c s (b & IH & Hb)].
  - by exists EmptyString.
  - cbn [trimEnd]. destruct (trimEnd s) as [|c' r'] eqn:Hr.
    + rewrite app_empty_l in IH. subst b.
      destruct (Ascii.is_space c) eqn:Hc.
      * exists (String c s). cbn. by rewrite Hc, Hb.
      * by exists s.
    + exists b. by rewrite app_String, <- IH.
Qed.

Lemma trim_split s :
  exists a b, s = a +:+ trim s +:+ b /\ allSpace a = true
              /\ allSpace b = true.
Proof.
  destruct (trimStart_split s) as (a & Hs & Ha).
  destruct (trimEnd_split (trimStart s)) as (b & Ht & Hb).
  exists a, b. unfold trim. by rewrite <- Ht, <- Hs.
Qed.

Lemma dropFinalComma_comma s :
  dropFinalComma (s +:+ ",") = s.
Proof.
  induction s as [|c s IH]; [done|]. rewrite app_String.
  cbn [dropFinalComma]. rewrite IH.
  by destruct (s +:+ ",") eqn:E; [destruct s|].
Qed.

Lemma dropFinalComma_other s :
  endsWithComma s = false -> dropFinalComma s = s.
Proof.
  induction s as [|c s IH]; [done|]. cbn. destruct s as [|c' s'].
  - by intros ->.
  - intros H. by rewrite (IH H).
Qed.

Lemma endsWithComma_split s :
  endsWithComma s = true -> exists t, s = t +:+ ",".
Proof.
  induction s as [|c s IH]; [done|]. cbn. destruct s as [|c' s'].
  - intros H. apply Ascii.eqb_eq in H as ->. by exists EmptyString.
  - intros (t & ->)%IH. by exists (String c t).
Qed.

End Trimming.

(** C7, as the code has it. Every call starts the traversal on empty
    buffers. When the traversal returns, [formItems], [types],
    [interfaces] and [zodSchema] are handed back exactly as accumulated,
    [fields] is the joined list, and [defaultValues] alone is trimmed: the
    accumulated text is white space, then a core, then white space, and the
    result is the core without its final comma if it has one. No call of
    the walker shortens or rewrites what [defaultValues] already holds. *)
Theorem finalization
    (vt : gmap string string) (body : list (string * JValue))
    (r : Replacements) :
  generateBodyReplacements vt body = Returned r ->
  exists w,
    processEntries vt body EmptyString emptyWalk = Returned w
    /\ formItems r = formItems (buffers w)
    /\ types r = types (buffers w)
    /\ interfaces r = interfaces (buffers w)
    /\ zodSchema r = zodSchema (buffers w)
    /\ fields r = join ", " (allFields w)
    /\ (exists lead core trail,
          defaultValues (buffers w) = lead +:+ core +:+ trail
          /\ allSpace lead = true /\ allSpace trail = true
          /\ core = trim (defaultValues (buffers w))
          /\ (core = defaultValues r +:+ ","
              \/ (endsWithComma core = false /\ core = defaultValues r)))
    /\ (forall key value prefix w0 w1,
          processField vt key value prefix w0 = Returned w1 ->
          exists t,
            defaultValues (buffers w1) = defaultValues (buffers w0) +:+ t).
Proof.
  unfold generateBodyReplacements. intros H.
  destruct (processEntries vt body EmptyString emptyWalk) as [w|] eqn:Hw;
    [|done].
  cbn in H. injection H as <-. exists w. split; [done|].
  repeat (split; [reflexivity|]). split.
  - destruct (trim_split (defaultValues (buffers w))) as (a & b & Hs & Ha & Hb).
    exists a, (trim (defaultValues (buffers w))), b.
    repeat (split; [done|]). cbn [finish defaultValues].
    destruct (endsWithComma (trim (defaultValues (buffers w)))) eqn:Hc.
    + left. apply endsWithComma_split in Hc as (t & Ht).
      rewrite Ht at 2. by rewrite dropFinalComma_comma.
    + right. by rewrite dropFinalComma_other.
  - intros key value prefix w0 w1 Hrun.
    apply processField_extends in Hrun as (d & _ & ->).
    by exists (defaultValues (buffers d)).
Qed.

Lemma finalization_witness :
  generateBodyReplacements demoTemplates scenarioB
  = Returned
      (mkReplacements
         ("<F label='Name' path='name'/>" +:+ nl
          +:+ "<F label='City' path='address.city'/>" +:+ nl
          +:+ "<S name='country' path='address.country'/>" +:+ nl)
         ("  name: string;" +:+ nl +:+ "  address: Address;" +:+ nl)
         ("name: ''," +:+ nl +:+ "  address: {" +:+ nl
          +:+ "    city: ''," +:+ nl +:+ "    country: ''," +:+ nl +:+ "  }")
         "'name', 'address.city', 'address.country'"
         ("export interface Address {" +:+ nl +:+ "  city: string;" +:+ nl
          +:+ "  country: string;" +:+ nl +:+ "}" +:+ nl +:+ nl)
         ("  address: z.object({" +:+ nl +:+ "    city: z.string()," +:+ nl
          +:+ "    country: z.string()," +:+ nl +:+ "  })," +:+ nl))
  /\ exists w,
       processEntries demoTemplates scenarioB EmptyString emptyWalk
       = Returned w
       /\ allFields w = ["'name'"; "'address.city'"; "'address.country'"].
Proof.
  split; [reflexivity|].
  destruct (finalization demoTemplates scenarioB _ eq_refl)
    as (w & Hw & _).
  exists w. split; [exact Hw|].
  vm_compute in Hw. by injection Hw as <-.
Defined.

(** C7 as stated fails for [zodSchema]: its text is handed back as
    accumulated and still ends with the comma and line break of its last
    entry. *)
Lemma zodSchema_keeps_final_comma :
  exists r,
    generateBodyReplacements demoTemplates
      [ ("a", JObj [ ("b", JStr "input") ]) ] = Returned r
    /\ zodSchema r
       = "  a: z.object({" +:+ nl +:+ "    b: z.string()," +:+ nl
         +:+ "  })," +:+ nl
    /\ dropFinalComma (trim (zodSchema r)) <> zodSchema r
    /\ defaultValues r
       = "a: {" +:+ nl +:+ "    b: ''," +:+ nl +:+ "  }".
Proof.
  eexists. split; [reflexivity|]. split; [reflexivity|].
  split; [|reflexivity]. vm_compute. discriminate.
Qed.

(** ** Values that are not groups *)

Section NonGroups.

Variable vt : gmap string string.

Lemma lookupSafe_entries entries :
  lookupSafe vt (JObj entries)
  = forallb (fun kv => lookupSafe vt kv.2) entries.
Proof.
  cbn [lookupSafe].
  induction entries as [|[k v] l IH]; [done|]. cbn. by rewrite IH.
Qed.

(** The expansion returns on every body none of whose leaves reads an
    inherited member. *)
Lemma processField_returns key value prefix w :
  lookupSafe vt value = true ->
  exists w', processField vt key value prefix w = Returned w'.
Proof.
  revert key prefix w.
  induction value as [| | | | |entries IH] using JValue_nested_ind;
    intros key prefix w Hsafe;
    try (rewrite processField_leaf by done;
         match goal with
         | |- context [processLeaf vt key ?v prefix w] =>
             destruct (processLeaf_returns vt key v prefix w)
               as (m & -> & _);
             [by apply negb_true_iff in Hsafe | by eexists]
         end).
  rewrite processField_group. rewrite lookupSafe_entries in Hsafe.
  generalize (enterGroup key (JObj entries) w) as g.
  generalize (fullPathOf prefix key) as p. intros p.
  induction IH as [|[k v] l Hv _ IHl]; intros g; [by eexists|].
  cbn in Hsafe. apply andb_true_iff in Hsafe as [Hv' Hl].
  cbn [processEntries]. cbn in Hv.
  destruct (Hv k p g Hv') as (w1 & ->). cbn. by apply IHl.
Qed.

Lemma generateBodyReplacements_returns body :
  forallb (fun kv => lookupSafe vt kv.2) body = true ->
  exists r, generateBodyReplacements vt body = Returned r.
Proof.
  intros H. rewrite <- lookupSafe_entries in H.
  destruct (processField_returns EmptyString (JObj body) EmptyString
              emptyWalk H) as (w' & Hw).
  rewrite processField_group in Hw. unfold generateBodyReplacements.
  cbn [fullPathOf truthy] in Hw.
  rewrite processEntries_frame in Hw.
  destruct (processEntries vt body EmptyString emptyWalk); [|done].
  by eexists.
Qed.

(** X21. A value that is not a group and whose key finds nothing in
    the FieldTypeMap, own or inherited, adds no form markup and lists
    its quoted path. *)
Lemma unknown_tag_tolerated key value prefix w :
  isPlainObject value = false ->
  getProperty vt (toPropertyKey value) = Undefined ->
  exists w',
    processField vt key value prefix w = Returned w'
    /\ formItems (buffers w') = formItems (buffers w)
    /\ allFields w' = allFields w ++ ["'" +:+ fullPathOf prefix key +:+ "'"].
Proof.
  intros Hleaf Hlook. rewrite processField_leaf by done.
  destruct (processLeaf_returns vt key value prefix w) as (m & -> & Hm).
  { unfold lookupThrows. by rewrite Hlook. }
  rewrite (Hm Hlook). eexists. split; [done|].
  destruct w as [[]]. destruct (truthy prefix); cbn; by rewrite app_empty_r.
Qed.

End NonGroups.

(** C8 at a concrete input. With the FieldTypeMap [{input, select}] the
    leaf tag [constructor] has no entry, yet the lookup finds the member
    every object inherits and the call throws; the array [["input"]] is
    turned into the key [input], finds that snippet and adds form
    markup. *)
Theorem unknown_tag_reads_inherited_member :
  demoTemplates !! "constructor" = None
  /\ generateBodyReplacements demoTemplates [ ("x", JStr "constructor") ]
     = Thrown "template.replace is not a function"
  /\ exists r,
       generateBodyReplacements demoTemplates [ ("x", JArr [ JStr "input" ]) ]
       = Returned r
       /\ formItems r = "<F label='X' path='x'/>" +:+ nl
       /\ fields r = "'x'".
Proof.
  split; [reflexivity|]. split; [reflexivity|].
  eexists. split; [reflexivity|]. split; reflexivity.
Qed.

(** C10 at a concrete input. An array in leaf position whose text is the
    name of an inherited member makes the expansion throw, and [null] in
    leaf position is looked up under the key [null] and takes that entry's
    snippet when the FieldTypeMap has one. *)
Theorem non_string_leaf_can_throw :
  generateBodyReplacements demoTemplates
    [ ("name", JStr "input"); ("tags", JArr [ JStr "toString" ]) ]
  = Thrown "template.replace is not a function"
  /\ exists r,
       generateBodyReplacements
         (<["null" := "<N path='{{fullPath}}'/>"]> demoTemplates)
         [ ("x", JNull) ] = Returned r
       /\ formItems r = "<N path='x'/>" +:+ nl.
Proof.
  split; [reflexivity|]. eexists. split; reflexivity.
Qed.

(** ** Placeholder substitution *)

(** C4 at a concrete input. A module name holding [$$] is not inserted
    unchanged: each pass reads it as a replacement pattern, in which [$$]
    stands for one dollar sign. The same happens to [$&]. *)
Theorem module_name_read_as_pattern :
  replacePlaceholders "export const {{name}} = use{{Name}}();" "$$scope"
  = "export const $scope = use$scope();"
  /\ replacePlaceholders "{{name}}" "a$&b" = "a{{name}}b"
  /\ replacePlaceholders "{{name}}.{{name-kebab}}" "userProfile"
     = "userProfile.user-profile".
Proof. repeat split; reflexivity. Qed.

(** C5 at a concrete input. The form markup of a snippet holding [$']
    is not inserted verbatim: the expander reads it as a replacement
    pattern, in which [$'] stands for the content after the placeholder. *)
Theorem accumulator_read_as_pattern :
  exists r,
    generateBodyReplacements priceTemplates [ ("cost", JStr "price") ]
    = Returned r
    /\ formItems r = "<Price unit='$' v-model='form.cost'/>" +:+ nl
    /\ replaceBodyPlaceholders "<form>{{body:formItems}}</form>" (entriesOf r)
       = "<form><Price unit='</form> v-model='form.cost'/>" +:+ nl
         +:+ "</form>"
    /\ replaceBodyPlaceholders "[{{ body: fields }}]{{body:zodSchema}}"
         (entriesOf r) = "['cost']".
Proof.
  eexists. split; [reflexivity|]. repeat split; reflexivity.
Qed.
(** ** Root and nested leaves *)

Section NestedLeaves.

Variable vt : gmap string string.

Lemma groupTypes_entries key entries :
  groupTypes key (JObj entries)
  = ("  " +:+ key +:+ ": " +:+ capitalize key +:+ ";" +:+ nl)
    +:+ concatText (map (fun kv => groupTypes kv.1 kv.2) entries).
Proof.
  cbn [groupTypes]. f_equal.
  induction entries as [|[k v] l IH]; [done|]. cbn [map concatText foldr].
  by rewrite IH.
Qed.

Lemma groupDefaults_entries key entries :
  groupDefaults key (JObj entries)
  = ("  " +:+ key +:+ ": " +:+ generateNestedDefaults (JObj entries)
       +:+ "," +:+ nl)
    +:+ concatText (map (fun kv => groupDefaults kv.1 kv.2) entries).
Proof.
  cbn [groupDefaults]. f_equal.
  induction entries as [|[k v] l IH]; [done|]. cbn [map concatText foldr].
  by rewrite IH.
Qed.

Lemma enterGroup_lines key entries w :
  types (buffers (enterGroup key (JObj entries) w))
  = types (buffers w)
    +:+ ("  " +:+ key +:+ ": " +:+ capitalize key +:+ ";" +:+ nl)
  /\ defaultValues (buffers (enterGroup key (JObj entries) w))
     = defaultValues (buffers w)
       +:+ ("  " +:+ key +:+ ": " +:+ generateNestedDefaults (JObj entries)
              +:+ "," +:+ nl).
Proof. by destruct w as [[]]. Qed.

(** Below a group that has a path, and at a leaf under a prefix, only
    groups add lines to [types] and [defaultValues]. *)
Lemma processField_below key value prefix w :
  lookupSafe vt value = true ->
  truthy prefix = true \/ (isPlainObject value = true /\ truthy key = true) ->
  exists w',
    processField vt key value prefix w = Returned w'
    /\ types (buffers w') = types (buffers w) +:+ groupTypes key value
    /\ defaultValues (buffers w')
       = defaultValues (buffers w) +:+ groupDefaults key value.
Proof.
  revert key prefix w.
  induction value as [| | | | |entries IH] using JValue_nested_ind;
    intros key prefix w Hsafe Hpath;
    try (destruct Hpath as [Hpath|[? _]]; [|done];
         rewrite processField_leaf by done;
         match goal with
         | |- context [processLeaf vt key ?v prefix w] =>
             destruct (processLeaf_returns vt key v prefix w)
               as (m & -> & _);
             [by apply negb_true_iff in Hsafe|];
             eexists; split; [reflexivity|];
             rewrite Hpath; destruct w as [[]]; cbn;
             by rewrite !app_empty_r
         end).
  assert (Hp : truthy (fullPathOf prefix key) = true).
  { apply fullPathOf_truthy. destruct Hpath as [?|[_ ?]]; auto. }
  rewrite processField_group, groupTypes_entries, groupDefaults_entries.
  rewrite lookupSafe_entries in Hsafe.
  destruct (enterGroup_lines key entries w) as [Ht Hd].
  rewrite <- (app_assoc (types (buffers w))),
    <- (app_assoc (defaultValues (buffers w))), <- Ht, <- Hd.
  generalize (enterGroup key (JObj entries) w) as g.
  revert Hp. generalize (fullPathOf prefix key) as p. intros p Hp.
  clear Ht Hd Hpath.
  induction IH as [|[k v] l Hv _ IHl]; intros g.
  - exists g. cbn. by rewrite !app_empty_r.
  - cbn in Hsafe. apply andb_true_iff in Hsafe as [Hv' Hl].
    cbn [processEntries]. cbn in Hv.
    destruct (Hv k p g Hv' (or_introl Hp)) as (w1 & -> & Ht1 & Hd1). cbn.
    destruct (IHl Hl w1) as (w2 & -> & Ht2 & Hd2). exists w2.
    split; [done|]. rewrite Ht2, Hd2, Ht1, Hd1.
    cbn [map concatText foldr fst snd]. by rewrite !app_assoc.
Qed.

(** A whole body whose groups at the root have a key. *)
Lemma processEntries_root body w :
  forallb (fun kv => lookupSafe vt kv.2) body = true ->
  forallb (fun kv => negb (isPlainObject kv.2) || truthy kv.1) body = true ->
  exists w',
    processEntries vt body EmptyString w = Returned w'
    /\ types (buffers w')
       = types (buffers w)
         +:+ concatText (map (fun kv => rootTypes kv.1 kv.2) body)
    /\ defaultValues (buffers w')
       = defaultValues (buffers w)
         +:+ concatText (map (fun kv => rootDefaults kv.1 kv.2) body).
Proof.
  revert w. induction body as [|[k v] l IH]; intros w Hsafe Hkeys.
  - exists w. cbn. by rewrite !app_empty_r.
  - cbn in Hsafe, Hkeys.
    apply andb_true_iff in Hsafe as [Hv Hl].
    apply andb_true_iff in Hkeys as [Hk Hkl].
    cbn [processEntries map concatText foldr fst snd].
    unfold rootTypes at 1, rootDefaults at 1.
    destruct (isPlainObject v) eqn:Hgroup.
    + cbn in Hk.
      destruct (processField_below k v EmptyString w Hv
                  (or_intror (conj Hgroup Hk))) as (w1 & -> & Ht1 & Hd1).
      cbn. destruct (IH w1 Hl Hkl) as (w2 & -> & Ht2 & Hd2).
      exists w2. split; [done|]. rewrite Ht2, Hd2, Ht1, Hd1.
      by rewrite !app_assoc.
    + rewrite processField_leaf by done.
      destruct (processLeaf_returns vt k v EmptyString w) as (m & -> & _).
      { destruct v; try done; by apply negb_true_iff in Hv. }
      cbn [truthy mbind outcome_bind].
      match goal with
      | |- context [processEntries vt l EmptyString ?x] =>
          destruct (IH x Hl Hkl) as (w2 & -> & Ht2 & Hd2)
      end.
      exists w2. split; [done|]. rewrite Ht2, Hd2.
      destruct w as [[]]. cbn. by rewrite !app_assoc.
Qed.

End NestedLeaves.

(** C1, as the code has it. A value that is not a group and whose lookup
    does not throw is processed without error; under the empty prefix the
    call appends exactly the line [key: string;] to [types] and exactly the
    line [key: '',] to [defaultValues]; under a non-empty prefix it leaves
    both buffers as they were. The walker hands such a prefix to
    everything below a group that has a path, that is, whose key or
    prefix is not empty: the call on any such group holding the leaf
    returns having added to [types] and [defaultValues] the lines of the
    groups in it and nothing else, so one line when all its members are
    leaves; and a whole body whose groups at the root have a key yields
    one line for each leaf at the root, the lines of the groups, and no
    line for a leaf below. In any group holding the leaf, the interface
    declaration and the nested default literal carry its member line. *)
Theorem root_nested_asymmetry
    (vt : gmap string string) (key : string) (value : JValue)
    (prefix : string) (w : Walk) :
  isPlainObject value = false ->
  lookupThrows vt value = false ->
  exists w',
    processField vt key value prefix w = Returned w'
    /\ (prefix = EmptyString ->
        types (buffers w')
        = types (buffers w) +:+ ("  " +:+ key +:+ ": string;" +:+ nl)
        /\ defaultValues (buffers w')
           = defaultValues (buffers w) +:+ ("  " +:+ key +:+ ": ''," +:+ nl))
    /\ (prefix <> EmptyString ->
        types (buffers w') = types (buffers w)
        /\ defaultValues (buffers w') = defaultValues (buffers w))
    /\ (forall ancestors,
          Exists (fun a => a <> EmptyString) ancestors ->
          pathOf ancestors <> EmptyString)
    /\ (forall parent entries,
          In (key, value) entries ->
          includes ("  " +:+ key +:+ ": string;" +:+ nl)
            (interfaceContent parent entries) = true
          /\ includes ("    " +:+ key +:+ ": ''," +:+ nl)
               (generateNestedDefaults (JObj entries)) = true)
    /\ (forall parent entries parentPrefix w0,
          In (key, value) entries ->
          lookupSafe vt (JObj entries) = true ->
          parentPrefix <> EmptyString \/ parent <> EmptyString ->
          exists w1,
            processField vt parent (JObj entries) parentPrefix w0
            = Returned w1
            /\ types (buffers w1)
               = types (buffers w0) +:+ groupTypes parent (JObj entries)
            /\ defaultValues (buffers w1)
               = defaultValues (buffers w0)
                 +:+ groupDefaults parent (JObj entries)
            /\ (forallb (fun kv => negb (isPlainObject kv.2)) entries = true ->
                types (buffers w1)
                = types (buffers w0)
                  +:+ ("  " +:+ parent +:+ ": " +:+ capitalize parent +:+ ";"
                         +:+ nl)
                /\ defaultValues (buffers w1)
                   = defaultValues (buffers w0)
                     +:+ ("  " +:+ parent +:+ ": "
                            +:+ generateNestedDefaults (JObj entries)
                            +:+ "," +:+ nl)))
    /\ (forall body,
          In (key, value) body ->
          forallb (fun kv => lookupSafe vt kv.2) body = true ->
          forallb (fun kv => negb (isPlainObject kv.2) || truthy kv.1) body
          = true ->
          exists walk,
            processEntries vt body EmptyString emptyWalk = Returned walk
            /\ generateBodyReplacements vt body = Returned (finish walk)
            /\ types (finish walk)
               = concatText (map (fun kv => rootTypes kv.1 kv.2) body)
            /\ defaultValues (buffers walk)
               = concatText (map (fun kv => rootDefaults kv.1 kv.2) body)).
Proof.
  intros Hleaf Hlook.
  destruct (processLeaf_returns vt key value prefix w Hlook) as (m & Hm & _).
  rewrite processField_leaf by done. rewrite Hm. eexists. split; [done|].
  split; [|split; [|split; [|split; [|split]]]].
  - intros ->. cbn. by destruct w as [[]].
  - intros H%truthy_true. rewrite H. by destruct w as [[]].
  - intros ancestors H. by apply truthy_true, pathOf_truthy.
  - intros parent entries H. split.
    + pose proof (interfaceContent_member parent entries key value H) as Hi.
      unfold interfaceMember in Hi. by rewrite Hleaf in Hi.
    + pose proof (generateNestedDefaults_member entries key value H) as Hd.
      unfold defaultsEntry in Hd. by rewrite Hleaf in Hd.
  - intros parent entries parentPrefix w0 _ Hsafe Hpath.
    destruct (processField_below vt parent (JObj entries) parentPrefix w0
                Hsafe) as (w1 & Hrun & Ht & Hd).
    { destruct Hpath as [H%truthy_true|H%truthy_true]; auto. }
    exists w1. split; [done|]. split; [done|]. split; [done|].
    intros Hleaves. rewrite Ht, Hd, groupTypes_entries, groupDefaults_entries.
    assert (Hnone : forall f : string -> JValue -> string,
              (forall k v, isPlainObject v = false -> f k v = EmptyString) ->
              concatText (map (fun kv => f kv.1 kv.2) entries) = EmptyString).
    { intros f Hf. clear -Hleaves Hf.
      induction entries as [|[k v] l IH]; [done|]. cbn in Hleaves.
      apply andb_true_iff in Hleaves as [Hv%negb_true_iff Hl].
      cbn [map concatText foldr fst snd]. rewrite (Hf k v Hv).
      by apply IH. }
    rewrite (Hnone groupTypes), (Hnone groupDefaults), !app_empty_r;
      [done|by intros ? []..].
  - intros body _ Hsafe Hkeys.
    destruct (processEntries_root vt body emptyWalk Hsafe Hkeys)
      as (walk & Hrun & Ht & Hd).
    exists walk. split; [done|].
    split; [unfold generateBodyReplacements; by rewrite Hrun|].
    split; [exact Ht|exact Hd].
Qed.

Lemma root_nested_asymmetry_witness :
  isPlainObject (JStr "input") = false
  /\ lookupThrows demoTemplates (JStr "input") = false
  /\ (exists w',
        processField demoTemplates "city" (JStr "input") "address" emptyWalk
        = Returned w'
        /\ types (buffers w') = EmptyString)
  /\ exists w1,
       processField demoTemplates "address"
         (JObj [ ("city", JStr "input"); ("country", JStr "select") ])
         EmptyString emptyWalk
       = Returned w1
       /\ types (buffers w1) = "  address: Address;" +:+ nl.
Proof.
  split; [reflexivity|]. split; [reflexivity|].
  destruct (root_nested_asymmetry demoTemplates "city" (JStr "input")
              "address" emptyWalk eq_refl eq_refl)
    as (w' & Hrun & _ & Hnested & _ & _ & Hgroup & _).
  split.
  - exists w'. split; [exact Hrun|]. apply Hnested. discriminate.
  - destruct (Hgroup "address"
                [ ("city", JStr "input"); ("country", JStr "select") ]
                EmptyString emptyWalk (or_introl eq_refl) eq_refl)
      as (w1 & Hrun1 & _ & _ & Hleaves).
    { right. discriminate. }
    exists w1. split; [exact Hrun1|]. by apply Hleaves.
Defined.

(** C1 as stated fails at a leaf one level down whose parent has the empty
    key: the prefix handed to the leaf is empty again, and the leaf gets
    its own lines in [types] and [defaultValues] after those of the
    group. *)
Lemma nested_leaf_under_empty_key :
  exists w,
    processEntries demoTemplates
      [ (EmptyString, JObj [ ("a", JStr "input") ]) ] EmptyString emptyWalk
    = Returned w
    /\ generateBodyReplacements demoTemplates
         [ (EmptyString, JObj [ ("a", JStr "input") ]) ]
       = Returned (finish w)
    /\ types (finish w) = "  : ;" +:+ nl +:+ "  a: string;" +:+ nl
    /\ defaultValues (buffers w)
       = "  : {" +:+ nl +:+ "    a: ''," +:+ nl +:+ "  }," +:+ nl
         +:+ "  a: ''," +:+ nl.
Proof. eexists. split; [reflexivity|]. repeat split. Qed.

(** ** Substitution in texts of literal runs and tokens *)

Section Substitution.

Lemma prefix_cons a p b s :
  String.prefix (String a p) (String b s)
  = Ascii.eqb a b && String.prefix p s.
Proof.
  cbn. destruct (ascii_dec a b) as [->|Hne].
  - by rewrite Ascii.eqb_refl.
  - by apply Ascii.eqb_neq in Hne as ->.
Qed.




Variables pat tpl : string.


Lemma replaceScan_step c r before :
  String.prefix pat (String c r) = false ->
  replaceScan pat tpl before 0 (String c r)
  = String c (replaceScan pat tpl (before +:+ String c EmptyString) 0 r).
Proof. intros H. cbn [replaceScan]. by rewrite H. Qed.



End Substitution.

Section Tokens.

Variables name tpl : string.
Hypothesis Hname : braceFree name = true.
Hypothesis Htpl : noDollar tpl = true.












End Tokens.

(** ** Substitution of well-behaved names and texts *)

Section CaseMapping.





Variable x : ascii.






End CaseMapping.

Section ModuleNames.

Variable moduleName : string.
Hypothesis Hdollar : noDollar moduleName = true.
Hypothesis Hbrace : noChar "{"%char moduleName = true.







End ModuleNames.

Example replacePlaceholders_demo :
  replacePlaceholders
    (render [ Lit "export class "; Tok "Name"; Lit "Service { url = '/";
              Tok "name-kebab"; Lit "'; key = "; Tok "unknown"; Lit " }" ])
    "userProfile"
  = "export class UserProfileService { url = '/user-profile'; "
    +:+ "key = {{unknown}} }".
Proof. reflexivity. Qed.

Section BodyPlaceholders.








End BodyPlaceholders.


Example replaceBodyPlaceholders_demo :
  exists r,
    generateBodyReplacements demoTemplates scenarioB = Returned r
    /\ forallb (fun kv => braceFree kv.1 && noDollar kv.2 && quiet kv.2)
         (entriesOf r) = true
    /\ replaceBodyPlaceholders
         (render [ Lit "const fields = ["; Tok " body: fields ";
                   Lit "]; const extra = "; Tok "body:extra"; Lit ";" ])
         (entriesOf r)
       = "const fields = ['name', 'address.city', 'address.country']; "
         +:+ "const extra = {{body:extra}};".
Proof. eexists. split; [reflexivity|]. split; reflexivity. Qed.

(** ** Failures of a generation run *)

Section RunFacts.

Context {World : Type}.
Variable platform : Platform World.
Variable config : GeneratorConfig.

Lemma keeps_refl (s : RunState (World := World)) : keeps s s.
Proof. repeat split. exists []. by rewrite app_nil_r. Qed.

Lemma keeps_trans (s1 s2 s3 : RunState (World := World)) :
  keeps s1 s2 -> keeps s2 s3 -> keeps s1 s3.
Proof.
  intros (Hs & He & l & Hf) (Hs' & He' & l' & Hf').
  split; [congruence|]. split; [congruence|].
  exists (l ++ l'). by rewrite Hf', Hf, <- (assoc_L (++)).
Qed.

Lemma orderly_ret {A} (a : A) : orderly World (runRet a).
Proof. intros s. apply keeps_refl. Qed.

Lemma orderly_throw {A} e : orderly World (throw (A := A) e).
Proof. intros s. apply keeps_refl. Qed.

Lemma orderly_call {A} (o : Outcome A) : orderly World (call o).
Proof. intros s. apply keeps_refl. Qed.

Lemma orderly_onWorld {A} (f : World -> A) : orderly World (onWorld f).
Proof. intros s. apply keeps_refl. Qed.

Lemma orderly_pure {A} (f : RunState -> Outcome A) :
  orderly World (fun s => (s, f s)).
Proof. intros s. apply keeps_refl. Qed.

Lemma orderly_updateWorld f : orderly World (updateWorld f).
Proof.
  intros s. unfold updateWorld. destruct (f (world s)); cbn.
  - repeat split. exists []. by rewrite app_nil_r.
  - apply keeps_refl.
Qed.

Lemma orderly_pushFile p : orderly World (pushFile p).
Proof. intros s. repeat split. by exists [p]. Qed.

Lemma orderly_pushWarning t : orderly World (pushWarning t).
Proof. intros s. repeat split. exists []. cbn. by rewrite app_nil_r. Qed.

Lemma orderly_callHook {A} hook (a : A) : orderly World (callHook hook a).
Proof. destruct hook; [apply orderly_call|apply orderly_ret]. Qed.

Lemma orderly_bind {A B} (m : Run A) (k : A -> Run B) :
  orderly World m -> (forall a, orderly World (k a)) ->
  orderly World (runBind m k).
Proof.
  intros Hm Hk s. unfold runBind. specialize (Hm s).
  destruct (m s) as [s' [a|e]]; cbn in *; [|done].
  eapply keeps_trans; [exact Hm|apply Hk].
Qed.

Create HintDb orderly.

Hint Resolve orderly_ret orderly_throw orderly_call orderly_onWorld
  orderly_pure orderly_updateWorld orderly_pushFile orderly_pushWarning
  orderly_callHook : orderly.

Ltac orderly_step :=
  first
    [ apply orderly_bind; [|intros ?]
    | match goal with
      | |- orderly _ (match ?x with _ => _ end) => destruct x
      | |- orderly _ (if ?x then _ else _) => destruct x
      end
    | solve [auto with orderly] ].

Lemma orderly_generateFile template moduleName finalOutputPath
    bodyReplacements isDryRun shouldFormat file :
  orderly World (generateFile platform template moduleName finalOutputPath
             bodyReplacements isDryRun shouldFormat file).
Proof. unfold generateFile. repeat orderly_step. Qed.

Lemma orderly_forEachFile body l :
  (forall file, orderly World (body file)) ->
  orderly World (forEachFile body l).
Proof.
  intros Hbody. induction l as [|file rest IH]; cbn [forEachFile].
  - apply orderly_ret.
  - apply orderly_bind; [apply Hbody|intros _; apply IH].
Qed.

Lemma orderly_withTemplate template templateName moduleName outputPath
    bodyObject isDryRun shouldFormat :
  orderly World (withTemplate platform config template templateName moduleName
             outputPath bodyObject isDryRun shouldFormat).
Proof.
  unfold withTemplate.
  apply orderly_bind; [apply orderly_onWorld|intros exists_].
  destruct (negb exists_); [apply orderly_throw|].
  apply orderly_bind; [apply orderly_callHook|intros _].
  apply orderly_bind.
  { unfold expandBody.
    destruct bodyObject, (variables template); repeat orderly_step. }
  intros bodyReplacements.
  apply orderly_bind; [apply orderly_onWorld|intros files_].
  apply orderly_bind.
  { apply orderly_forEachFile. intros file. apply orderly_generateFile. }
  intros _. intros s. destruct (afterGenerate config); apply keeps_refl.
Qed.

Lemma orderly_tryBlock templateName moduleName outputPath bodyObject
    isDryRun shouldFormat :
  orderly World (tryBlock platform config templateName moduleName outputPath
             bodyObject isDryRun shouldFormat).
Proof.
  unfold tryBlock. destruct (lookupTemplate config templateName);
    [apply orderly_withTemplate|apply orderly_throw..].
Qed.

Lemma forEachFile_app body l1 l2 s :
  forEachFile (World := World) body (l1 ++ l2) s
  = runBind (forEachFile body l1) (fun _ => forEachFile body l2) s.
Proof.
  revert s. induction l1 as [|file l1 IH]; intros s; [done|].
  cbn [app forEachFile]. unfold runBind in *.
  destruct (body file s) as [s' [a|e]]; [apply IH|done].
Qed.

End RunFacts.

(** ** Texts without placeholders *)

Section Untouched.

Lemma prefix_app_l a b s :
  String.prefix (a +:+ b) s = true -> String.prefix a s = true.
Proof.
  revert s. induction a as [|x a IH]; intros s; [by rewrite prefix_empty|].
  destruct s as [|y s]; [done|]. rewrite app_String, !prefix_cons.
  intros [-> H]%andb_true_iff. by rewrite (IH _ H).
Qed.

Lemma includes_app_absent a b s :
  includes a s = false -> includes (a +:+ b) s = false.
Proof.
  induction s as [|c s IH].
  - rewrite !includes_unfold, !orb_false_r. intros H.
    destruct (String.prefix (a +:+ b) EmptyString) eqn:E; [|done].
    by rewrite (prefix_app_l _ _ _ E) in H.
  - rewrite (includes_unfold a), (includes_unfold (a +:+ b)).
    intros [H1 H2]%orb_false_iff. rewrite (IH H2), orb_false_r.
    destruct (String.prefix (a +:+ b) (String c s)) eqn:E; [|done].
    by rewrite (prefix_app_l _ _ _ E) in H1.
Qed.

Lemma replaceScan_absent pat tpl before s :
  includes pat s = false -> replaceScan pat tpl before 0 s = s.
Proof.
  revert before. induction s as [|c s IH]; intros before; [done|].
  rewrite includes_unfold. intros [H1 H2]%orb_false_iff.
  rewrite replaceScan_step by done. by rewrite IH.
Qed.

Lemma replaceAll_absent name tpl s :
  includes "{{" s = false -> replaceAll ("{{" +:+ name) tpl s = s.
Proof.
  intros H. apply replaceScan_absent. by apply includes_app_absent.
Qed.

End Untouched.

(** X1. A text in which no two opening braces stand side by side comes
    out of all three substitution passes unchanged, whatever the module
    name, the field key and path, and the accumulator texts are, dollar
    signs included. *)
Theorem text_without_tokens_unchanged (text : string) :
  includes "{{" text = false ->
  (forall moduleName, replacePlaceholders text moduleName = text)
  /\ (forall key fullPath, formItem text key fullPath = text)
  /\ (forall replacements, replaceBodyPlaceholders text replacements = text).
Proof.
  intros H. split; [|split].
  - intros moduleName. unfold replacePlaceholders.
    change "{{name}}" with ("{{" +:+ "name}}").
    change "{{Name}}" with ("{{" +:+ "Name}}").
    change "{{NAME}}" with ("{{" +:+ "NAME}}").
    change "{{name-kebab}}" with ("{{" +:+ "name-kebab}}").
    change "{{name_snake}}" with ("{{" +:+ "name_snake}}").
    change "{{name.camel}}" with ("{{" +:+ "name.camel}}").
    change "{{name.pascal}}" with ("{{" +:+ "name.pascal}}").
    by repeat (rewrite (replaceAll_absent _ _ text) by exact H).
  - intros key fullPath. unfold formItem.
    change "{{name}}" with ("{{" +:+ "name}}").
    change "{{Name}}" with ("{{" +:+ "Name}}").
    change "{{fullPath}}" with ("{{" +:+ "fullPath}}").
    by repeat (rewrite (replaceAll_absent _ _ text) by exact H).
  - intros replacements. unfold replaceBodyPlaceholders.
    induction replacements as [|[key value] rest IH]; [done|].
    cbn [fold_left]. unfold placeholdersOf. cbn [fold_left].
    change ("{{body:" +:+ key +:+ "}}")
      with ("{{" +:+ ("body:" +:+ key +:+ "}}")).
    change ("{{body: " +:+ key +:+ "}}")
      with ("{{" +:+ ("body: " +:+ key +:+ "}}")).
    change ("{{ body:" +:+ key +:+ " }}")
      with ("{{" +:+ (" body:" +:+ key +:+ " }}")).
    change ("{{ body: " +:+ key +:+ " }}")
      with ("{{" +:+ (" body: " +:+ key +:+ " }}")).
    by repeat (rewrite (replaceAll_absent _ _ text) by exact H).
Qed.

Lemma text_without_tokens_unchanged_witness :
  includes "{{" "const price = '$&'; // {x}" = false
  /\ replacePlaceholders "const price = '$&'; // {x}" "$$scope"
     = "const price = '$&'; // {x}".
Proof.
  split; [reflexivity|].
  apply (text_without_tokens_unchanged "const price = '$&'; // {x}").
  reflexivity.
Defined.

(** ** The field list *)

Section FieldList.

Variable vt : gmap string string.

Lemma leafPaths_group key entries prefix :
  leafPaths key (JObj entries) prefix
  = bodyLeafPaths entries (fullPathOf prefix key).
Proof.
  cbn [leafPaths]. unfold bodyLeafPaths.
  induction entries as [|[k v] l IH]; [done|].
  cbn [map concat fst snd]. by rewrite IH.
Qed.

Lemma enterGroup_allFields key value w :
  allFields (enterGroup key value w) = allFields w.
Proof. by destruct value, w as [[]]. Qed.

Lemma processField_fields key value prefix w :
  lookupSafe vt value = true ->
  exists w',
    processField vt key value prefix w = Returned w'
    /\ allFields w' = allFields w ++ map quoted (leafPaths key value prefix).
Proof.
  revert key prefix w.
  induction value as [| | | | |entries IH] using JValue_nested_ind;
    intros key prefix w Hsafe;
    try (rewrite processField_leaf by done;
         match goal with
         | |- context [processLeaf vt key ?v prefix w] =>
             destruct (processLeaf_returns vt key v prefix w)
               as (m & -> & _);
             [by apply negb_true_iff in Hsafe|];
             eexists; split; [reflexivity|];
             destruct w as [[]]; by destruct (truthy prefix)
         end).
  rewrite processField_group, leafPaths_group.
  rewrite lookupSafe_entries in Hsafe.
  rewrite <- (enterGroup_allFields key (JObj entries) w).
  generalize (enterGroup key (JObj entries) w) as g.
  generalize (fullPathOf prefix key) as p. intros p.
  unfold bodyLeafPaths.
  induction IH as [|[k v] l Hv _ IHl]; intros g.
  - exists g. cbn. by rewrite app_nil_r.
  - cbn in Hsafe. apply andb_true_iff in Hsafe as [Hv' Hl].
    cbn [processEntries]. cbn in Hv.
    destruct (Hv k p g Hv') as (w1 & -> & H1). cbn.
    destruct (IHl Hl w1) as (w2 & -> & H2). exists w2. split; [done|].
    rewrite H2, H1. cbn [map concat fst snd].
    by rewrite map_app, <- (assoc_L (++)).
Qed.

Lemma processEntries_fields entries prefix w :
  forallb (fun kv => lookupSafe vt kv.2) entries = true ->
  exists w',
    processEntries vt entries prefix w = Returned w'
    /\ allFields w'
       = allFields w ++ map quoted (bodyLeafPaths entries prefix).
Proof.
  unfold bodyLeafPaths. revert w.
  induction entries as [|[k v] l IH]; intros w Hsafe.
  - exists w. cbn. by rewrite app_nil_r.
  - cbn in Hsafe. apply andb_true_iff in Hsafe as [Hv Hl].
    cbn [processEntries].
    destruct (processField_fields k v prefix w Hv) as (w1 & -> & H1). cbn.
    destruct (IH w1 Hl) as (w2 & -> & H2). exists w2. split; [done|].
    rewrite H2, H1. cbn [map concat fst snd].
    by rewrite map_app, <- (assoc_L (++)).
Qed.

End FieldList.

(** X2. On a body none of whose leaves reads an inherited member, the
    expansion returns and [fields] is the list of the dotted paths of all
    leaves, in depth-first order of the body, each between single quotes
    and joined by a comma and a space. *)
Theorem fields_are_the_leaf_paths
    (vt : gmap string string) (body : list (string * JValue)) :
  forallb (fun kv => lookupSafe vt kv.2) body = true ->
  exists r,
    generateBodyReplacements vt body = Returned r
    /\ fields r = join ", " (map quoted (bodyLeafPaths body EmptyString)).
Proof.
  intros H. unfold generateBodyReplacements.
  destruct (processEntries_fields vt body EmptyString emptyWalk H)
    as (w & -> & Hf).
  eexists. split; [reflexivity|]. cbn [finish fields]. by rewrite Hf.
Qed.

Lemma fields_are_the_leaf_paths_witness :
  forallb (fun kv => lookupSafe demoTemplates kv.2) scenarioB = true
  /\ exists r,
       generateBodyReplacements demoTemplates scenarioB = Returned r
       /\ fields r = "'name', 'address.city', 'address.country'".
Proof.
  split; [reflexivity|].
  destruct (fields_are_the_leaf_paths demoTemplates scenarioB eq_refl)
    as (r & Hr & Hf).
  exists r. split; [exact Hr|]. rewrite Hf. reflexivity.
Defined.

(** ** What the FieldTypeMap decides *)

Section Skeleton.

Variables vt1 vt2 : gmap string string.

Ltac skeleton :=
  repeat match goal with
         | w : Walk |- _ => destruct w as [[? ? ? ? ? ?] ?]
         | H : sameSkeleton _ _ |- _ =>
             destruct H as (? & ? & ? & ? & ? & ?)
         end;
  cbn in *; subst; repeat split; reflexivity.

Lemma processLeaf_skeleton key value prefix a b a' b' :
  sameSkeleton a b ->
  processLeaf vt1 key value prefix a = Returned a' ->
  processLeaf vt2 key value prefix b = Returned b' ->
  sameSkeleton a' b'.
Proof.
  unfold processLeaf. intros Hab.
  destruct (getProperty vt1 (toPropertyKey value)) as [|t1|];
    [|destruct (truthy t1)|]; cbn; [| | |done];
    (destruct (getProperty vt2 (toPropertyKey value)) as [|t2|];
     [|destruct (truthy t2)|]; cbn; [| | |done]);
    destruct (truthy prefix); intros [= <-] [= <-]; skeleton.
Qed.

Lemma enterGroup_skeleton key value a b :
  sameSkeleton a b ->
  sameSkeleton (enterGroup key value a) (enterGroup key value b).
Proof. intros Hab. destruct value; cbn [enterGroup]; skeleton. Qed.

Lemma processField_skeleton key value prefix wa wb wa' wb' :
  sameSkeleton wa wb ->
  processField vt1 key value prefix wa = Returned wa' ->
  processField vt2 key value prefix wb = Returned wb' ->
  sameSkeleton wa' wb'.
Proof.
  revert key prefix wa wb wa' wb'.
  induction value as [| | | | |entries IH] using JValue_nested_ind;
    intros key prefix wa wb wa' wb' Hab;
    try (rewrite !processField_leaf by done; by apply processLeaf_skeleton).
  rewrite !processField_group.
  pose proof (enterGroup_skeleton key (JObj entries) wa wb Hab) as Hg.
  revert Hg.
  generalize (enterGroup key (JObj entries) wa) as ga.
  generalize (enterGroup key (JObj entries) wb) as gb.
  generalize (fullPathOf prefix key) as p. intros p.
  induction IH as [|[k v] l Hv _ IHl]; intros gb ga Hg.
  - cbn. by intros [= <-] [= <-].
  - cbn [processEntries]. cbn in Hv.
    destruct (processField vt1 k v p ga) as [a1|] eqn:Ha; [|done].
    destruct (processField vt2 k v p gb) as [b1|] eqn:Hb; [|done].
    cbn. apply IHl. by apply (Hv k p ga gb a1 b1).
Qed.

Lemma processEntries_skeleton entries prefix a b a' b' :
  sameSkeleton a b ->
  processEntries vt1 entries prefix a = Returned a' ->
  processEntries vt2 entries prefix b = Returned b' ->
  sameSkeleton a' b'.
Proof.
  revert a b. induction entries as [|[k v] l IH]; intros a b Hab.
  - cbn. by intros [= <-] [= <-].
  - cbn [processEntries].
    destruct (processField vt1 k v prefix a) as [a1|] eqn:Ha; [|done].
    destruct (processField vt2 k v prefix b) as [b1|] eqn:Hb; [|done].
    cbn. apply IH. by apply (processField_skeleton k v prefix a b a1 b1).
Qed.

End Skeleton.

(** X3. The FieldTypeMap decides the form markup and nothing else: two
    expansions of one body under two FieldTypeMaps, when both return, give
    the same [types], [defaultValues], [fields], [interfaces] and
    [zodSchema]. *)
Theorem snippets_touch_form_markup_only
    (vt1 vt2 : gmap string string) (body : list (string * JValue))
    (r1 r2 : Replacements) :
  generateBodyReplacements vt1 body = Returned r1 ->
  generateBodyReplacements vt2 body = Returned r2 ->
  types r1 = types r2
  /\ defaultValues r1 = defaultValues r2
  /\ fields r1 = fields r2
  /\ interfaces r1 = interfaces r2
  /\ zodSchema r1 = zodSchema r2.
Proof.
  unfold generateBodyReplacements.
  destruct (processEntries vt1 body EmptyString emptyWalk) as [w1|] eqn:H1;
    [|done].
  destruct (processEntries vt2 body EmptyString emptyWalk) as [w2|] eqn:H2;
    [|done].
  cbn. intros [= <-] [= <-].
  assert (Hs : sameSkeleton emptyWalk emptyWalk) by by repeat split.
  destruct (processEntries_skeleton vt1 vt2 body EmptyString _ _ _ _ Hs H1 H2)
    as (Ht & Hd & _ & Hi & Hz & Hf).
  cbn [finish types defaultValues fields interfaces zodSchema].
  by rewrite Ht, Hd, Hi, Hz, Hf.
Qed.

Lemma snippets_touch_form_markup_only_witness :
  exists r1 r2,
    generateBodyReplacements demoTemplates scenarioB = Returned r1
    /\ generateBodyReplacements priceTemplates scenarioB = Returned r2
    /\ formItems r1 <> formItems r2
    /\ defaultValues r1 = defaultValues r2.
Proof.
  eexists. eexists. split; [reflexivity|]. split; [reflexivity|].
  split; [vm_compute; discriminate|].
  eapply (snippets_touch_form_markup_only demoTemplates priceTemplates
            scenarioB); reflexivity.
Defined.

(** ** Casing of names *)

Section Casing.

Lemma upperChar_idem c : upperChar (upperChar c) = upperChar c.
Proof. by destruct c as [[] [] [] [] [] [] [] []]. Qed.

Lemma lowerChar_idem c : lowerChar (lowerChar c) = lowerChar c.
Proof. by destruct c as [[] [] [] [] [] [] [] []]. Qed.

Lemma lowerChar_upperChar c : lowerChar (upperChar c) = lowerChar c.
Proof. by destruct c as [[] [] [] [] [] [] [] []]. Qed.

Lemma upperChar_lowerChar c : upperChar (lowerChar c) = upperChar c.
Proof. by destruct c as [[] [] [] [] [] [] [] []]. Qed.

Lemma lowerChar_not_upper c : isUpperAlpha (lowerChar c) = false.
Proof. by destruct c as [[] [] [] [] [] [] [] []]. Qed.

Lemma upper_not_lower_or_digit c :
  isUpperAlpha c = true -> isLowerAlpha c || isDigit c = false.
Proof. by destruct c as [[] [] [] [] [] [] [] []]. Qed.

Lemma capitalize_cons c r : capitalize (String c r) = String (upperChar c) r.
Proof. reflexivity. Qed.

Lemma toCamelCase_cons c r :
  toCamelCase (String c r) = String (lowerChar c) r.
Proof. reflexivity. Qed.

Lemma noUpper_toLowerCase s : noUpper (toLowerCase s) = true.
Proof.
  induction s as [|c s IH]; [done|]. cbn.
  by rewrite lowerChar_not_upper, IH.
Qed.

Lemma toLowerCase_noUpper s : noUpper s = true -> toLowerCase s = s.
Proof.
  induction s as [|c s IH]; [done|]. cbn.
  intros [Hc Hs]%andb_true_iff. apply negb_true_iff in Hc.
  unfold lowerChar. rewrite Hc. f_equal. by apply IH.
Qed.

Lemma separateWords_noUpper sep s :
  noUpper s = true -> separateWords sep s = s.
Proof.
  induction s as [|c1 r IH]; [done|]. cbn [noUpper separateWords].
  intros [_ Hr]%andb_true_iff. destruct r as [|c2 r2]; [done|].
  pose proof Hr as Hr'. cbn [noUpper] in Hr'.
  apply andb_true_iff in Hr' as [Hc2 _]. apply negb_true_iff in Hc2.
  rewrite Hc2, andb_false_r. f_equal. by apply IH.
Qed.

Lemma length_mapChars f s :
  String.length (mapChars f s) = String.length s.
Proof. induction s as [|c s IH]; [done|]. cbn. by rewrite IH. Qed.

Lemma length_app a b :
  String.length (a +:+ b) = String.length a + String.length b.
Proof.
  induction a as [|c a IH]; [done|]. rewrite app_String. cbn.
  by rewrite IH.
Qed.

Lemma length_separateWords_bounded sep n s :
  String.length s <= n ->
  String.length (separateWords sep s)
  = String.length s + String.length sep * wordBoundaries s.
Proof.
  revert s. induction n as [|n IH]; intros s Hlen.
  - destruct s; [cbn; lia|cbn in Hlen; lia].
  - destruct s as [|c1 r]; [cbn; lia|]. cbn in Hlen.
    cbn [separateWords wordBoundaries].
    destruct r as [|c2 r2]; [cbn; lia|]. cbn in Hlen.
    destruct ((isLowerAlpha c1 || isDigit c1) && isUpperAlpha c2) eqn:Hb.
    + cbn [String.length]. rewrite length_app. cbn [String.length].
      rewrite (IH r2) by lia. cbn [wordBoundaries].
      apply andb_true_iff in Hb as [_ Hu].
      destruct r2 as [|c3 r3]; [cbn; lia|].
      rewrite (upper_not_lower_or_digit c2 Hu). cbn [andb]. lia.
    + cbn [String.length]. rewrite (IH (String c2 r2)) by (cbn; lia).
      cbn [String.length]. lia.
Qed.

Lemma length_separateWords sep s :
  String.length (separateWords sep s)
  = String.length s + String.length sep * wordBoundaries s.
Proof. by apply (length_separateWords_bounded sep (String.length s)). Qed.

End Casing.

(** X4. On a name of code units below 128, where the case mappings are
    those of ECMAScript:
    [capitalize] and [toCamelCase] touch the first character only and
    undo each other there: each is idempotent, each of them applied after
    the other gives what it gives alone, and the length of the name and
    everything after its first character stay. *)
Theorem first_letter_casing (s : string) :
  isAscii s = true ->
  capitalize (capitalize s) = capitalize s
  /\ toCamelCase (toCamelCase s) = toCamelCase s
  /\ capitalize (toCamelCase s) = capitalize s
  /\ toCamelCase (capitalize s) = toCamelCase s
  /\ slice1 (capitalize s) = slice1 s
  /\ slice1 (toCamelCase s) = slice1 s
  /\ String.length (capitalize s) = String.length s
  /\ String.length (toCamelCase s) = String.length s.
Proof.
  intros _.
  destruct s as [|c r]; [by repeat split|].
  repeat rewrite ?capitalize_cons, ?toCamelCase_cons.
  rewrite upperChar_idem, lowerChar_idem, upperChar_lowerChar,
    lowerChar_upperChar.
  by repeat split.
Qed.

Lemma first_letter_casing_witness :
  capitalize (toCamelCase "UserProfile") = capitalize "UserProfile"
  /\ String.length (capitalize "userProfile") = String.length "userProfile".
Proof.
  destruct (first_letter_casing "UserProfile" eq_refl)
    as (_ & _ & H & _).
  destruct (first_letter_casing "userProfile" eq_refl)
    as (_ & _ & _ & _ & _ & _ & H' & _).
  split; [exact H|exact H'].
Defined.

(** X5. On a name of code units below 128, where the case mappings are
    those of ECMAScript:
    the kebab and snake forms of a name hold no upper-case letter and
    are fixed points of both conversions; a name without upper-case letter
    is its own kebab and snake form; and each form is longer than the name
    by exactly the number of places where a lower-case letter or a digit
    is followed by an upper-case letter, so a run of capitals is never
    split. *)
Theorem kebab_and_snake_forms (s : string) :
  isAscii s = true ->
  noUpper (toKebabCase s) = true
  /\ noUpper (toSnakeCase s) = true
  /\ toKebabCase (toKebabCase s) = toKebabCase s
  /\ toSnakeCase (toSnakeCase s) = toSnakeCase s
  /\ toSnakeCase (toKebabCase s) = toKebabCase s
  /\ toKebabCase (toSnakeCase s) = toSnakeCase s
  /\ (noUpper s = true -> toKebabCase s = s /\ toSnakeCase s = s)
  /\ String.length (toKebabCase s) = String.length s + wordBoundaries s
  /\ String.length (toSnakeCase s) = String.length s + wordBoundaries s.
Proof.
  intros _.
  assert (Hfix : forall sep t, noUpper t = true ->
                               toLowerCase (separateWords sep t) = t).
  { intros sep t Ht. by rewrite separateWords_noUpper, toLowerCase_noUpper. }
  unfold toKebabCase, toSnakeCase.
  repeat split;
    try apply noUpper_toLowerCase;
    try (apply Hfix; apply noUpper_toLowerCase);
    try (by apply Hfix);
    unfold toLowerCase;
    rewrite length_mapChars, length_separateWords; cbn; lia.
Qed.

Lemma kebab_and_snake_forms_witness :
  toKebabCase (toKebabCase "userProfile2Page") = toKebabCase "userProfile2Page"
  /\ String.length (toSnakeCase "parseXMLFile")
     = String.length "parseXMLFile" + wordBoundaries "parseXMLFile".
Proof.
  destruct (kebab_and_snake_forms "userProfile2Page" eq_refl)
    as (_ & _ & H & _).
  destruct (kebab_and_snake_forms "parseXMLFile" eq_refl)
    as (_ & _ & _ & _ & _ & _ & _ & _ & H').
  split; [exact H|exact H'].
Defined.

Example kebab_and_snake_demo :
  toKebabCase "userProfile2Page" = "user-profile2-page"
  /\ toSnakeCase "parseXMLFile" = "parse_xmlfile"
  /\ wordBoundaries "parseXMLFile" = 1.
Proof. repeat split; reflexivity. Qed.

(** ** Brackets of the nested literals *)

Section Brackets.

Lemma countChar_app x a b :
  countChar x (a +:+ b) = countChar x a + countChar x b.
Proof.
  induction a as [|c a IH]; [done|]. rewrite app_String. cbn.
  rewrite IH. lia.
Qed.

Lemma countChar_noChar x s : noChar x s = true -> countChar x s = 0.
Proof.
  induction s as [|c s IH]; [done|]. cbn.
  intros [Hc Hs]%andb_true_iff. apply negb_true_iff in Hc.
  by rewrite Hc, IH.
Qed.

Lemma keysAvoid_entries x entries :
  keysAvoid x (JObj entries)
  = forallb (fun kv => noChar x kv.1 && keysAvoid x kv.2) entries.
Proof.
  cbn [keysAvoid].
  induction entries as [|[k v] l IH]; [done|]. cbn. by rewrite IH.
Qed.

Lemma groupCount_entries entries :
  groupCount (JObj entries)
  = S (list_sum (map (fun kv => groupCount kv.2) entries)).
Proof.
  cbn [groupCount]. f_equal.
  induction entries as [|[k v] l IH]; [done|]. cbn. by rewrite IH.
Qed.

(** The count of a character that marks the start or the end of a
    group's literal and appears in no key. *)
Lemma defaults_bracket_count x value :
  (x = "{"%char \/ x = "}"%char) ->
  keysAvoid x value = true ->
  countChar x (generateNestedDefaults value) = groupCount value.
Proof.
  intros Hx.
  induction value as [| | | | |entries IH] using JValue_nested_ind;
    try done.
  rewrite keysAvoid_entries, groupCount_entries,
    generateNestedDefaults_entries.
  intros Hkeys. rewrite !countChar_app.
  assert (Hmid : countChar x
                   (concatText (map (fun kv => defaultsEntry kv.1 kv.2)
                                  entries))
                 = list_sum (map (fun kv => groupCount kv.2) entries)).
  { induction IH as [|[k v] l Hv _ IHl]; [done|].
    cbn in Hkeys, Hv. apply andb_true_iff in Hkeys as [Hkv Hl].
    apply andb_true_iff in Hkv as [Hk Hv'].
    cbn [map concatText foldr list_sum fst snd].
    fold (concatText (map (fun kv => defaultsEntry kv.1 kv.2) l)).
    rewrite countChar_app, (IHl Hl). f_equal.
    unfold defaultsEntry. destruct (isPlainObject v) eqn:Hobj.
    - rewrite !countChar_app, (countChar_noChar x k Hk), (Hv Hv').
      destruct Hx as [-> | ->]; cbn; lia.
    - rewrite !countChar_app, (countChar_noChar x k Hk).
      destruct v; try discriminate; destruct Hx as [-> | ->]; cbn; lia. }
  rewrite Hmid. destruct Hx as [-> | ->]; cbn; lia.
Qed.

Lemma zod_bracket_count x value :
  (x = "{"%char \/ x = "}"%char) ->
  keysAvoid x value = true ->
  countChar x (generateNestedZodSchema value) = groupCount value.
Proof.
  intros Hx.
  induction value as [| | | | |entries IH] using JValue_nested_ind;
    try done.
  rewrite keysAvoid_entries, groupCount_entries,
    generateNestedZodSchema_entries.
  intros Hkeys. rewrite !countChar_app.
  assert (Hmid : countChar x
                   (concatText (map (fun kv => zodEntry kv.1 kv.2)
                                  entries))
                 = list_sum (map (fun kv => groupCount kv.2) entries)).
  { induction IH as [|[k v] l Hv _ IHl]; [done|].
    cbn in Hkeys, Hv. apply andb_true_iff in Hkeys as [Hkv Hl].
    apply andb_true_iff in Hkv as [Hk Hv'].
    cbn [map concatText foldr list_sum fst snd].
    fold (concatText (map (fun kv => zodEntry kv.1 kv.2) l)).
    rewrite countChar_app, (IHl Hl). f_equal.
    unfold zodEntry. destruct (isPlainObject v) eqn:Hobj.
    - rewrite !countChar_app, (countChar_noChar x k Hk), (Hv Hv').
      destruct Hx as [-> | ->]; cbn; lia.
    - rewrite !countChar_app, (countChar_noChar x k Hk).
      destruct v; try discriminate; destruct Hx as [-> | ->]; cbn; lia. }
  rewrite Hmid. destruct Hx as [-> | ->]; cbn; lia.
Qed.

End Brackets.

(** X6. When no key of a group, at any depth, holds a brace, the nested
    default literal and the nested schema literal of the group hold
    exactly one opening and one closing brace for the group and for each
    group below it: their braces are balanced. *)
Theorem nested_literals_balanced (entries : list (string * JValue)) :
  keysAvoid "{"%char (JObj entries) = true ->
  keysAvoid "}"%char (JObj entries) = true ->
  let defaults := generateNestedDefaults (JObj entries) in
  let schema := generateNestedZodSchema (JObj entries) in
  countChar "{"%char defaults = groupCount (JObj entries)
  /\ countChar "}"%char defaults = groupCount (JObj entries)
  /\ countChar "{"%char schema = groupCount (JObj entries)
  /\ countChar "}"%char schema = groupCount (JObj entries).
Proof.
  intros Ho Hc defaults schema. subst defaults schema.
  repeat split.
  - apply defaults_bracket_count; auto.
  - apply defaults_bracket_count; auto.
  - apply zod_bracket_count; auto.
  - apply zod_bracket_count; auto.
Qed.

Lemma nested_literals_balanced_witness :
  countChar "{"%char
    (generateNestedDefaults
       (JObj [ ("a", JObj [ ("b", JStr "input") ]); ("c", JNull) ])) = 2.
Proof.
  apply (nested_literals_balanced
           [ ("a", JObj [ ("b", JStr "input") ]); ("c", JNull) ]);
    reflexivity.
Defined.

(** ** Dry runs and the file list *)

Section DryRun.

Context {World : Type}.
Variable platform : Platform World.
Variable config : GeneratorConfig.

Lemma worldKept_ret {A} (a : A) : worldKept World (runRet a).
Proof. by intros s. Qed.

Lemma worldKept_throw {A} e : worldKept World (throw (A := A) e).
Proof. by intros s. Qed.

Lemma worldKept_call {A} (o : Outcome A) : worldKept World (call o).
Proof. by intros s. Qed.

Lemma worldKept_onWorld {A} (f : World -> A) : worldKept World (onWorld f).
Proof. by intros s. Qed.

Lemma worldKept_pure {A} (f : RunState -> Outcome A) :
  worldKept World (fun s => (s, f s)).
Proof. by intros s. Qed.

Lemma worldKept_pushFile p : worldKept World (pushFile p).
Proof. by intros s. Qed.

Lemma worldKept_pushWarning t : worldKept World (pushWarning t).
Proof. by intros s. Qed.

Lemma worldKept_callHook {A} hook (a : A) :
  worldKept World (callHook hook a).
Proof. destruct hook; by intros s. Qed.

Lemma worldKept_bind {A B} (m : Run A) (k : A -> Run B) :
  worldKept World m -> (forall a, worldKept World (k a)) ->
  worldKept World (runBind m k).
Proof.
  intros Hm Hk s. unfold runBind. specialize (Hm s).
  destruct (m s) as [s' [a|e]]; cbn in *; [|done].
  by rewrite Hk.
Qed.

Create HintDb worldKept.

Hint Resolve worldKept_ret worldKept_throw worldKept_call worldKept_onWorld
  worldKept_pure worldKept_pushFile worldKept_pushWarning
  worldKept_callHook : worldKept.

Ltac worldKept_step :=
  first
    [ apply worldKept_bind; [|intros ?]
    | match goal with
      | |- worldKept _ (match ?x with _ => _ end) => destruct x
      | |- worldKept _ (if ?x then _ else _) => destruct x
      end
    | solve [auto with worldKept] ].

Lemma worldKept_generateFile template moduleName finalOutputPath
    bodyReplacements shouldFormat file :
  worldKept World
    (generateFile platform template moduleName finalOutputPath
       bodyReplacements true shouldFormat file).
Proof.
  unfold generateFile. rewrite andb_false_r. repeat worldKept_step.
Qed.

Lemma worldKept_forEachFile body l :
  (forall file, worldKept World (body file)) ->
  worldKept World (forEachFile body l).
Proof.
  intros Hbody. induction l as [|file rest IH]; cbn [forEachFile].
  - apply worldKept_ret.
  - apply worldKept_bind; [apply Hbody|intros _; apply IH].
Qed.

Lemma worldKept_tryBlock templateName moduleName outputPath bodyObject
    shouldFormat :
  worldKept World
    (tryBlock platform config templateName moduleName outputPath
       bodyObject true shouldFormat).
Proof.
  unfold tryBlock. destruct (lookupTemplate config templateName);
    [|apply worldKept_throw..].
  unfold withTemplate.
  apply worldKept_bind; [apply worldKept_onWorld|intros exists_].
  destruct (negb exists_); [apply worldKept_throw|].
  apply worldKept_bind; [apply worldKept_callHook|intros _].
  apply worldKept_bind.
  { unfold expandBody.
    destruct bodyObject, (variables t); repeat worldKept_step. }
  intros bodyReplacements.
  apply worldKept_bind; [apply worldKept_onWorld|intros files_].
  apply worldKept_bind.
  { apply worldKept_forEachFile. intros file.
    apply worldKept_generateFile. }
  intros _. intros s. by destruct (afterGenerate config).
Qed.

End DryRun.

Section DryRunReads.

Context {World : Type}.
Variables p1 p2 : Platform World.
Variable config : GeneratorConfig.
Hypothesis Hsame : sameReads p1 p2.

Lemma runBind_ext {A B} (m1 m2 : Run (World := World) A)
    (k1 k2 : A -> Run B) s :
  (forall s, m1 s = m2 s) -> (forall a s, k1 a s = k2 a s) ->
  runBind m1 k1 s = runBind m2 k2 s.
Proof.
  intros Hm Hk. unfold runBind. rewrite Hm.
  destruct (m2 s) as [s' [a|e]]; [apply Hk|done].
Qed.

Lemma forEachFile_ext (b1 b2 : string -> Run (World := World) unit) l s :
  (forall file s, b1 file s = b2 file s) ->
  forEachFile b1 l s = forEachFile b2 l s.
Proof.
  intros Hb. revert s. induction l as [|file rest IH]; intros s; [done|].
  cbn [forEachFile]. apply runBind_ext; [apply Hb|intros _; apply IH].
Qed.

Lemma generateFile_dry_ext template moduleName finalOutputPath
    bodyReplacements shouldFormat file s :
  generateFile p1 template moduleName finalOutputPath bodyReplacements
    true shouldFormat file s
  = generateFile p2 template moduleName finalOutputPath bodyReplacements
      true shouldFormat file s.
Proof.
  destruct Hsame as (_ & _ & Hread & Hign & _ & Hrel).
  unfold generateFile. rewrite !andb_false_r, Hrel.
  apply runBind_ext.
  { intros s'. destruct (ignore template); [|done].
    unfold call. by rewrite Hign. }
  intros [] s'; [done|].
  apply runBind_ext; [intros s''; by rewrite Hread|intros content s''].
  reflexivity.
Qed.

Lemma tryBlock_dry_ext templateName moduleName outputPath bodyObject
    shouldFormat s :
  tryBlock p1 config templateName moduleName outputPath bodyObject true
    shouldFormat s
  = tryBlock p2 config templateName moduleName outputPath bodyObject true
      shouldFormat s.
Proof.
  destruct Hsame as (Hpe & Hglob & _ & _ & Hjoin & _).
  unfold tryBlock. destruct (lookupTemplate config templateName); [|done..].
  unfold withTemplate.
  apply runBind_ext; [intros s'; unfold onWorld; by rewrite Hpe|].
  intros exists_ s'. destruct (negb exists_); [done|].
  apply runBind_ext; [done|intros _ s''].
  apply runBind_ext; [done|intros bodyReplacements s3].
  apply runBind_ext.
  { intros s4. unfold onWorld. by rewrite Hjoin, Hglob. }
  intros files_ s4.
  apply runBind_ext; [|done].
  intros s5. apply forEachFile_ext. intros file s6.
  apply generateFile_dry_ext.
Qed.

End DryRunReads.

(** X7. A dry run changes nothing and asks for nothing to be changed: the
    world after the run is the world before it, and the result is the same
    on any two platforms that agree wherever the run reads, however their
    [ensureDir], [writeFile] and formatter behave. *)
Theorem dry_run_changes_nothing
    {World : Type} (p1 p2 : Platform World) (config : GeneratorConfig)
    (w : World) (templateName moduleName : string)
    (outputPath : option string)
    (bodyObject : option (list (string * JValue))) (shouldFormat : bool) :
  sameReads p1 p2 ->
  world (tryBlock p1 config templateName moduleName outputPath bodyObject
           true shouldFormat (mkRun initialResult w)).1 = w
  /\ generate p1 config w templateName moduleName outputPath bodyObject
       true shouldFormat
     = generate p2 config w templateName moduleName outputPath bodyObject
         true shouldFormat.
Proof.
  intros Hsame. split.
  - apply (worldKept_tryBlock p1 config).
  - unfold generate. by rewrite (tryBlock_dry_ext p1 p2 config Hsame).
Qed.

Lemma dry_run_changes_nothing_witness :
  sameReads readOnlyPlatform demoPlatform
  /\ generate readOnlyPlatform demoConfig tt "component" "user" None None
       true true
     = generate demoPlatform demoConfig tt "component" "user" None None
         true true.
Proof.
  assert (H : sameReads readOnlyPlatform demoPlatform) by by repeat split.
  split; [exact H|].
  apply (dry_run_changes_nothing readOnlyPlatform demoPlatform demoConfig tt
           "component" "user" None None true H).
Defined.
(** ** The file list of a run *)

Section FileList.

Context {World : Type}.
Variable platform : Platform World.
Variable config : GeneratorConfig.

(** Hooks and the body traversal leave the whole state alone. *)
Lemma callHook_state {A} hook (a : A) s :
  (callHook (World := World) hook a s).1 = s.
Proof. by destruct hook. Qed.

Lemma expandBody_state template bodyObject s :
  (expandBody (World := World) template bodyObject s).1 = s.
Proof.
  unfold expandBody. destruct bodyObject as [body|]; [|done].
  destruct (variables template) as [vars|]; [|done].
  unfold runBind, call. by destruct (generateBodyReplacements vars body).
Qed.

Lemma generateFile_lists template moduleName finalOutputPath
    bodyReplacements isDryRun shouldFormat file s s' u :
  generateFile platform template moduleName finalOutputPath
    bodyReplacements isDryRun shouldFormat file s = (s', Returned u) ->
  files (result s')
  = files (result s)
    ++ (if isIgnored platform template file then []
        else [ listedPath platform template moduleName file ])
  /\ (shouldFormat && negb isDryRun = false ->
      warnings (result s')
      = warnings (result s)
        ++ (if isIgnored platform template file
            then [ skipWarning platform template file ] else [])).
Proof.
  unfold generateFile, isIgnored, listedPath, skipWarning, runBind, call,
    runRet, pushFile, pushWarning, updateWorld, callHook.
  intros H.
  repeat
    (match type of H with
     | context [match ?x with _ => _ end] =>
         lazymatch x with
         | context [match _ with _ => _ end] => fail
         | _ => destruct x eqn:?
         end
     end; cbn in H; try discriminate H);
    simplify_eq; cbn; rewrite ?app_nil_r; split; try done; intros ?;
    simplify_eq.
Qed.

Lemma forEachFile_lists template moduleName finalOutputPath
    bodyReplacements isDryRun shouldFormat l s s' u :
  forEachFile
    (generateFile platform template moduleName finalOutputPath
       bodyReplacements isDryRun shouldFormat) l s = (s', Returned u) ->
  files (result s')
  = files (result s)
    ++ map (listedPath platform template moduleName)
         (List.filter (fun f => negb (isIgnored platform template f)) l)
  /\ (shouldFormat && negb isDryRun = false ->
      warnings (result s')
      = warnings (result s)
        ++ map (skipWarning platform template)
             (List.filter (isIgnored platform template) l)).
Proof.
  revert s. induction l as [|file rest IH]; intros s H.
  - cbn in H. unfold runRet in H. simplify_eq. cbn. rewrite !app_nil_r.
    by split.
  - cbn [forEachFile] in H. unfold runBind at 1 in H.
    destruct (generateFile _ _ _ _ _ _ _ file s) as [s1 [[]|e]] eqn:E;
      [|discriminate H].
    apply generateFile_lists in E as [Ef Ew].
    apply IH in H as [Hf Hw]. cbn [List.filter].
    split.
    + rewrite Hf, Ef. destruct (isIgnored platform template file); cbn;
        by rewrite ?app_nil_r, <- ?(assoc_L (++)).
    + intros Hfmt. rewrite (Hw Hfmt), (Ew Hfmt).
      destruct (isIgnored platform template file); cbn;
        by rewrite ?app_nil_r, <- ?(assoc_L (++)).
Qed.

End FileList.

(** X8. The file list of a successful run. When [generate] reports
    success, the template name is an own entry of the configuration, its
    directory exists, no error is recorded, and [files] lists, in the
    order of the glob, the relative path of every file the ignore test
    lets through, with the module name filled in; without formatting (or
    in a dry run) the warnings are exactly the notes of the skipped
    files, in the same order. *)
Theorem files_of_a_successful_run
    {World : Type} (platform : Platform World) (config : GeneratorConfig)
    (w : World) (templateName moduleName : string)
    (outputPath : option string)
    (bodyObject : option (list (string * JValue)))
    (isDryRun shouldFormat : bool) :
  let r := generate platform config w templateName moduleName outputPath
             bodyObject isDryRun shouldFormat in
  success r = true ->
  exists template,
    templates config !! templateName = Some template
    /\ pathExists platform w (path template) = true
    /\ errors r = []
    /\ files r
       = map (listedPath platform template moduleName)
           (List.filter (fun f => negb (isIgnored platform template f))
              (globFiles platform w
                 (pathJoin platform (path template) "**/*")))
    /\ (shouldFormat && negb isDryRun = false ->
        warnings r
        = map (skipWarning platform template)
            (List.filter (isIgnored platform template)
               (globFiles platform w
                  (pathJoin platform (path template) "**/*")))).
Proof.
  cbn zeta. unfold generate.
  pose proof (orderly_tryBlock platform config templateName moduleName
    outputPath bodyObject isDryRun shouldFormat (mkRun initialResult w))
    as (_ & Herr & _).
  destruct (tryBlock _ _ _ _ _ _ _ _ _) as [s [[]|e]] eqn:E;
    [|intros H; discriminate H].
  intros _. cbn in Herr. unfold tryBlock, lookupTemplate in E.
  destruct (templates config !! templateName) as [template|] eqn:Hin;
    [|destruct (inheritedMember templateName); discriminate E].
  exists template. split; [done|].
  unfold withTemplate in E. unfold runBind at 1 in E.
  unfold onWorld at 1 in E. cbn [world] in E.
  destruct (pathExists platform w (path template)); [|discriminate E].
  split; [done|]. split; [done|]. cbn [negb] in E.
  unfold runBind at 1 in E.
  pose proof (callHook_state (World := World) (beforeGenerate config)
    (mkContext templateName moduleName
       (orElse outputPath (orElse (output template) "./src")) bodyObject)
    (mkRun initialResult w)) as H1.
  destruct (callHook _ _ _) as [s1 [[]|e]]; [|discriminate E].
  cbn in H1. subst s1.
  unfold runBind at 1 in E.
  pose proof (expandBody_state (World := World) template bodyObject
    (mkRun initialResult w)) as H2.
  destruct (expandBody _ _ _) as [s2 [bodyReplacements|e]];
    [|discriminate E].
  cbn in H2. subst s2.
  unfold runBind at 1 in E. unfold onWorld at 1 in E. cbn [world] in E.
  unfold runBind at 1 in E.
  destruct (forEachFile _ _ _) as [s3 [[]|e]] eqn:Eloop; [|discriminate E].
  apply forEachFile_lists in Eloop as [Hf Hw]. cbn in Hf, Hw.
  assert (s = s3) as -> by (destruct (afterGenerate config); congruence).
  done.
Qed.

Lemma files_of_a_successful_run_witness :
  success (generate notesPlatform notesConfig tt "component" "user" None None
             false true) = true
  /\ files (generate notesPlatform notesConfig tt "component" "user" None
              None false true) = [ "user.ts"; "User.vue" ].
Proof.
  split; [reflexivity|].
  destruct (files_of_a_successful_run notesPlatform notesConfig tt
              "component" "user" None None false true eq_refl)
    as (template & Hin & _ & _ & Hfiles & _).
  vm_compute in Hin. injection Hin as <-. exact Hfiles.
Defined.
(** ** Failures of a run, file by file *)

Section LoopFailures.

Context {World : Type}.
Variable platform : Platform World.

(** A file whose handling throws is not listed. *)
Lemma generateFile_throws template moduleName finalOutputPath
    bodyReplacements isDryRun shouldFormat file s s' message :
  generateFile platform template moduleName finalOutputPath
    bodyReplacements isDryRun shouldFormat file s = (s', Thrown message) ->
  files (result s') = files (result s).
Proof.
  unfold generateFile, runBind, call, runRet, pushFile, pushWarning,
    updateWorld, callHook.
  intros H.
  repeat
    (match type of H with
     | context [match ?x with _ => _ end] =>
         lazymatch x with
         | context [match _ with _ => _ end] => fail
         | _ => destruct x eqn:?
         end
     end; cbn in H; try discriminate H);
    by simplify_eq.
Qed.

(** The loop stops at the first file whose handling throws. *)
Lemma forEachFile_stops (each : string -> Run (World := World) unit)
    done_ failing rest s s1 s2 message :
  forEachFile each done_ s = (s1, Returned tt) ->
  each failing s1 = (s2, Thrown message) ->
  forEachFile each (done_ ++ failing :: rest) s = (s2, Thrown message).
Proof.
  intros Hdone Hfail. rewrite forEachFile_app. unfold runBind at 1.
  rewrite Hdone. cbn [forEachFile]. unfold runBind. by rewrite Hfail.
Qed.

End LoopFailures.

(** C9, as the code has it. Whatever is thrown inside [generate] is caught
    there: the run then returns with [success] false and exactly the
    thrown message in [errors], and a run in which nothing is thrown
    returns with [success] true and no error. The catch clause leaves
    [files] as the try block left it. When the template is unknown, its
    directory is missing, the [beforeGenerate] hook throws or the body
    traversal throws, no file has been handled and [files] is empty. When
    the handling of a file throws, the result lists exactly the files
    handled before it that the ignore test lets through, in their order,
    and neither the failing file nor a later one; when the
    [afterGenerate] hook throws, it lists every file the ignore test
    lets through. *)
Theorem failure_is_reported_once
    {World : Type} (platform : Platform World) (config : GeneratorConfig)
    (w : World) (templateName moduleName : string)
    (outputPath : option string)
    (bodyObject : option (list (string * JValue)))
    (isDryRun shouldFormat : bool) :
  let r := generate platform config w templateName moduleName outputPath
             bodyObject isDryRun shouldFormat in
  let run := tryBlock platform config templateName moduleName outputPath
               bodyObject isDryRun shouldFormat (mkRun initialResult w) in
  match run.2 with
  | Returned _ => success r = true /\ errors r = []
  | Thrown message => success r = false /\ errors r = [message]
  end
  /\ files r = files (result run.1)
  /\ (lookupTemplate config templateName = NoTemplate -> files r = [])
  /\ (lookupTemplate config templateName = InheritedTemplate -> files r = [])
  /\ (forall template,
        lookupTemplate config templateName = OwnTemplate template ->
        (pathExists platform w (path template) = false -> files r = [])
        /\ (forall hook message,
              beforeGenerate config = Some hook ->
              hook (mkContext templateName moduleName
                      (orElse outputPath (orElse (output template) "./src"))
                      bodyObject) = Thrown message ->
              pathExists platform w (path template) = true ->
              r = mkResult false [] [message] [])
        /\ (forall body vars message,
              bodyObject = Some body ->
              variables template = Some vars ->
              generateBodyReplacements vars body = Thrown message ->
              pathExists platform w (path template) = true ->
              (forall hook,
                 beforeGenerate config = Some hook ->
                 hook (mkContext templateName moduleName
                         (orElse outputPath
                            (orElse (output template) "./src"))
                         bodyObject) = Returned tt) ->
              r = mkResult false [] [message] [])
        /\ (forall finalOutputPath bodyReplacements done_ rest s s1,
              let each := generateFile platform template moduleName
                            finalOutputPath bodyReplacements isDryRun
                            shouldFormat in
              forEachFile each done_ s = (s1, Returned tt) ->
              exists more,
                files (result (forEachFile each (done_ ++ rest) s).1)
                = files (result s1) ++ more)
        /\ (forall bodyReplacements done_ failing rest s1 s2 message,
              let finalOutputPath :=
                orElse outputPath (orElse (output template) "./src") in
              let each := generateFile platform template moduleName
                            finalOutputPath bodyReplacements isDryRun
                            shouldFormat in
              let s0 := mkRun initialResult w in
              pathExists platform w (path template) = true ->
              (callHook (beforeGenerate config)
                 (mkContext templateName moduleName finalOutputPath
                    bodyObject) s0).2 = Returned tt ->
              (expandBody template bodyObject s0).2
              = Returned bodyReplacements ->
              globFiles platform w
                (pathJoin platform (path template) "**/*")
              = done_ ++ failing :: rest ->
              forEachFile each done_ s0 = (s1, Returned tt) ->
              each failing s1 = (s2, Thrown message) ->
              r = mkResult false
                    (map (listedPath platform template moduleName)
                       (List.filter
                          (fun f => negb (isIgnored platform template f))
                          done_))
                    [ message ] (warnings (result s2)))
        /\ (forall bodyReplacements s1 hook message,
              let finalOutputPath :=
                orElse outputPath (orElse (output template) "./src") in
              let each := generateFile platform template moduleName
                            finalOutputPath bodyReplacements isDryRun
                            shouldFormat in
              let s0 := mkRun initialResult w in
              let globbed :=
                globFiles platform w
                  (pathJoin platform (path template) "**/*") in
              pathExists platform w (path template) = true ->
              (callHook (beforeGenerate config)
                 (mkContext templateName moduleName finalOutputPath
                    bodyObject) s0).2 = Returned tt ->
              (expandBody template bodyObject s0).2
              = Returned bodyReplacements ->
              forEachFile each globbed s0 = (s1, Returned tt) ->
              afterGenerate config = Some hook ->
              hook (mkContext templateName moduleName finalOutputPath
                      bodyObject) (result s1) = Thrown message ->
              r = mkResult false
                    (map (listedPath platform template moduleName)
                       (List.filter
                          (fun f => negb (isIgnored platform template f))
                          globbed))
                    [ message ] (warnings (result s1)))).
Proof.
  intros r run.
  pose proof (orderly_tryBlock platform config templateName moduleName
                outputPath bodyObject isDryRun shouldFormat
                (mkRun initialResult w)) as (Hs & He & more & Hf).
  fold run in Hs, He, Hf. cbn in Hs, He, Hf.
  assert (Hr : r = match run.2 with
                   | Returned _ => result run.1
                   | Thrown message =>
                       mkResult false (files (result run.1))
                         (errors (result run.1) ++ [message])
                         (warnings (result run.1))
                   end).
  { subst r. unfold generate. fold run. by destruct run as [s [[]|e]]. }
  split; [|split].
  { rewrite Hr. destruct (run.2); cbn; [done|]. by rewrite He. }
  { rewrite Hr. by destruct (run.2). }
  clear Hs He Hf Hr more. subst r run.
  split; [by intros H; unfold generate, tryBlock; rewrite H|].
  split; [by intros H; unfold generate, tryBlock; rewrite H|].
  intros template Hlook.
  split; [|split; [|split; [|split; [|split]]]].
  - intros Hexists. unfold generate, tryBlock. rewrite Hlook.
    unfold withTemplate, runBind, onWorld. cbn [world].
    by rewrite Hexists.
  - intros hook message Hhook Hthrown Hexists.
    unfold generate, tryBlock. rewrite Hlook.
    unfold withTemplate, runBind, onWorld, callHook, call. cbn [world].
    by rewrite Hexists, Hhook, Hthrown.
  - intros body vars message -> Hvars Hthrown Hexists Hhook.
    unfold generate, tryBlock. rewrite Hlook.
    unfold withTemplate, expandBody, runBind, onWorld, callHook, call, runRet.
    cbn [world]. rewrite Hexists, Hvars, Hthrown. cbn [negb].
    destruct (beforeGenerate config) as [hook|]; [|done].
    by rewrite (Hhook hook eq_refl).
  - intros finalOutputPath bodyReplacements done_ rest s s1 each Hdone.
    rewrite forEachFile_app. unfold runBind. rewrite Hdone.
    destruct (orderly_forEachFile each rest
                (fun file => orderly_generateFile platform template
                               moduleName finalOutputPath bodyReplacements
                               isDryRun shouldFormat file) s1)
      as (_ & _ & more' & Hmore).
    by exists more'.
  - intros bodyReplacements done_ failing rest s1 s2 message
      finalOutputPath each s0 Hexists Hhook Hbody Hglob Hdone Hfail.
    pose proof (callHook_state (World := World) (beforeGenerate config)
      (mkContext templateName moduleName finalOutputPath bodyObject) s0)
      as Hs1.
    pose proof (expandBody_state (World := World) template bodyObject s0)
      as Hs2.
    pose proof (forEachFile_stops each done_ failing rest s0 s1 s2 message
      Hdone Hfail) as Hloop.
    pose proof (generateFile_throws platform _ _ _ _ _ _ _ _ _ _ Hfail)
      as Hfiles.
    destruct (forEachFile_lists platform _ _ _ _ _ _ _ _ _ _ Hdone)
      as [Hlisted _].
    destruct (orderly_forEachFile each (done_ ++ failing :: rest)
                (fun file => orderly_generateFile platform template
                               moduleName finalOutputPath bodyReplacements
                               isDryRun shouldFormat file) s0)
      as (_ & Herr & _).
    rewrite Hloop in Herr. cbn in Herr, Hlisted.
    unfold generate, tryBlock. rewrite Hlook.
    unfold withTemplate. unfold runBind at 1. unfold onWorld at 1.
    cbn [world]. rewrite Hexists. cbn [negb]. unfold runBind at 1.
    fold finalOutputPath. fold s0.
    destruct (callHook _ _ s0) as [sa [[]|?]]; [|done].
    cbn in Hs1. subst sa. unfold runBind at 1.
    destruct (expandBody template bodyObject s0) as [sb [br|?]]; [|done].
    cbn in Hs2, Hbody. subst sb. injection Hbody as ->.
    unfold runBind at 1. unfold onWorld at 1. cbn [world s0].
    rewrite Hglob. unfold runBind at 1. fold each. rewrite Hloop.
    by rewrite Hfiles, Hlisted, Herr.
  - intros bodyReplacements s1 hook message finalOutputPath each s0 globbed
      Hexists Hhook Hbody Hdone Hafter Hthrown.
    pose proof (callHook_state (World := World) (beforeGenerate config)
      (mkContext templateName moduleName finalOutputPath bodyObject) s0)
      as Hs1.
    pose proof (expandBody_state (World := World) template bodyObject s0)
      as Hs2.
    destruct (forEachFile_lists platform _ _ _ _ _ _ _ _ _ _ Hdone)
      as [Hlisted _].
    destruct (orderly_forEachFile each globbed
                (fun file => orderly_generateFile platform template
                               moduleName finalOutputPath bodyReplacements
                               isDryRun shouldFormat file) s0)
      as (_ & Herr & _).
    rewrite Hdone in Herr. cbn in Herr, Hlisted.
    unfold generate, tryBlock. rewrite Hlook.
    unfold withTemplate. unfold runBind at 1. unfold onWorld at 1.
    cbn [world]. rewrite Hexists. cbn [negb]. unfold runBind at 1.
    fold finalOutputPath. fold s0.
    destruct (callHook _ _ s0) as [sa [[]|?]]; [|done].
    cbn in Hs1. subst sa. unfold runBind at 1.
    destruct (expandBody template bodyObject s0) as [sb [br|?]]; [|done].
    cbn in Hs2, Hbody. subst sb. injection Hbody as ->.
    unfold runBind at 1. unfold onWorld at 1. cbn [world s0].
    fold globbed. unfold runBind at 1. fold each. rewrite Hdone.
    rewrite Hafter, Hthrown. by rewrite Hlisted, Herr.
Qed.

(** C9 as stated fails when the failure comes in the loop: the file
    handled before it is listed in [files] although the run failed. *)
Lemma earlier_files_stay_listed :
  generate demoPlatform demoConfig tt "component" "user" None None
    false true
  = mkResult false [ "a.ts" ]
      [ "EACCES: permission denied, open 'tpl/b.ts'" ] [].
Proof. reflexivity. Qed.

Example traversal_failure_reported :
  generate demoPlatform demoConfig tt "component" "user" None
    (Some [ ("id", JStr "valueOf") ]) false true
  = mkResult false [] [ "template.replace is not a function" ] [].
Proof. reflexivity. Qed.

Example unknown_template_reported :
  generate demoPlatform demoConfig tt "page" "user" None None false true
  = mkResult false []
      [ "Template " +:+ quote +:+ "page" +:+ quote +:+ " not found" ] [].
Proof. reflexivity. Qed.
(** ** What a run writes *)

Section Writes.

Context {World : Type}.
Variable platform : Platform World.
Variable config : GeneratorConfig.

Lemma simulates_ret {A} (a : A) :
  simulates (World := World) (runRet a) (runRet a).
Proof. by intros s. Qed.

Lemma simulates_throw {A} e :
  simulates (World := World) (throw (A := A) e) (throw e).
Proof. by intros s. Qed.

Lemma simulates_call {A} (o : Outcome A) :
  simulates (World := World) (call o) (call o).
Proof. by intros s. Qed.

Lemma simulates_pushFile p :
  simulates (World := World) (pushFile p) (pushFile p).
Proof. by intros s. Qed.

Lemma simulates_pushWarning t :
  simulates (World := World) (pushWarning t) (pushWarning t).
Proof. by intros s. Qed.

Lemma simulates_callHook {A} hook (a : A) :
  simulates (World := World) (callHook hook a) (callHook hook a).
Proof. destruct hook; by intros s. Qed.

Lemma simulates_bind {A B}
    (m' : Run (World := World * list string) A) (m : Run A)
    (k' : A -> Run (World := World * list string) B) (k : A -> Run B) :
  simulates m' m -> (forall a, simulates (k' a) (k a)) ->
  simulates (runBind m' k') (runBind m k).
Proof.
  intros Hm Hk s. unfold runBind. rewrite (Hm s).
  destruct (m' s) as [s1 [a|e]]; cbn [fst snd]; [apply Hk|done].
Qed.

Lemma simulates_expandBody template bodyObject :
  simulates (World := World) (expandBody template bodyObject)
    (expandBody template bodyObject).
Proof.
  unfold expandBody. destruct bodyObject as [body|]; [|by intros s].
  destruct (variables template) as [vars|]; [|by intros s].
  apply simulates_bind; [apply simulates_call|intros r; by intros s].
Qed.

Lemma simulates_generateFile template moduleName finalOutputPath
    bodyReplacements isDryRun shouldFormat file :
  simulates
    (generateFile (recording platform) template moduleName finalOutputPath
       bodyReplacements isDryRun shouldFormat file)
    (generateFile platform template moduleName finalOutputPath
       bodyReplacements isDryRun shouldFormat file).
Proof.
  unfold generateFile.
  apply simulates_bind.
  { destruct (ignore template); [apply simulates_call|apply simulates_ret]. }
  intros [|]; [apply simulates_pushWarning|].
  apply simulates_bind; [by intros s|intros content].
  apply simulates_bind.
  { destruct (beforeFileGenerate template);
      [apply simulates_call|apply simulates_ret]. }
  intros processed.
  apply simulates_bind.
  { destruct (shouldFormat && negb isDryRun); [|apply simulates_ret].
    cbn [formatCode recording].
    destruct (formatCode platform _ _); [apply simulates_ret|].
    apply simulates_bind; [apply simulates_pushWarning|].
    intros _. apply simulates_ret. }
  intros formatted.
  apply simulates_bind; [|intros _; apply simulates_pushFile].
  destruct isDryRun; [apply simulates_ret|].
  apply simulates_bind.
  { intros s. unfold updateWorld. cbn.
    by destruct (ensureDir platform _ _). }
  intros _. apply simulates_bind.
  { intros s. unfold updateWorld. cbn.
    by destruct (writeFile platform _ _ _). }
  intros _. apply simulates_callHook.
Qed.

Lemma simulates_forEachFile
    (body' : string -> Run (World := World * list string) unit)
    (body : string -> Run unit) l :
  (forall file, simulates (body' file) (body file)) ->
  simulates (forEachFile body' l) (forEachFile body l).
Proof.
  intros Hbody. induction l as [|file rest IH]; cbn [forEachFile].
  - apply simulates_ret.
  - apply simulates_bind; [apply Hbody|intros _; apply IH].
Qed.

Lemma simulates_tryBlock templateName moduleName outputPath bodyObject
    isDryRun shouldFormat :
  simulates
    (tryBlock (recording platform) config templateName moduleName
       outputPath bodyObject isDryRun shouldFormat)
    (tryBlock platform config templateName moduleName outputPath
       bodyObject isDryRun shouldFormat).
Proof.
  unfold tryBlock. destruct (lookupTemplate config templateName);
    [|apply simulates_throw..].
  unfold withTemplate.
  apply simulates_bind; [by intros s|intros exists_].
  destruct (negb exists_); [apply simulates_throw|].
  apply simulates_bind; [apply simulates_callHook|intros _].
  apply simulates_bind; [apply simulates_expandBody|].
  intros bodyReplacements.
  apply simulates_bind; [by intros s|intros files_].
  apply simulates_bind.
  { apply simulates_forEachFile. intros file.
    apply simulates_generateFile. }
  intros _ s. by destruct (afterGenerate config).
Qed.

(** One file of a run that is not dry: it is written and listed when
    its handling returns and the ignore test lets it through; when its
    handling throws it is not listed, and written or not. *)
Lemma generateFile_writes template moduleName finalOutputPath
    bodyReplacements shouldFormat file s s' o :
  generateFile (recording platform) template moduleName finalOutputPath
    bodyReplacements false shouldFormat file s = (s', o) ->
  let listed := listedPath platform template moduleName file in
  let target := pathJoin platform finalOutputPath listed in
  match o with
  | Returned _ =>
      files (result s')
      = files (result s)
        ++ (if isIgnored platform template file then [] else [ listed ])
      /\ written s'
         = written s
           ++ (if isIgnored platform template file then [] else [ target ])
  | Thrown _ =>
      files (result s') = files (result s)
      /\ (written s' = written s
          \/ (isIgnored platform template file = false
              /\ written s' = written s ++ [ target ]))
  end.
Proof.
  unfold generateFile, isIgnored, listedPath, runBind, call, runRet,
    pushFile, pushWarning, updateWorld, callHook, written.
  cbn [shouldIgnore pathRelative pathJoin recording].
  intros H.
  repeat
    (match type of H with
     | context [match ?x with _ => _ end] =>
         lazymatch x with
         | context [match _ with _ => _ end] => fail
         | _ => destruct x eqn:?
         end
     end; cbn in H; try discriminate H);
    simplify_eq; cbn; rewrite ?app_nil_r;
    first [ done | by split; [|left] | by split; [|right] ].
Qed.

Lemma forEachFile_writes template moduleName finalOutputPath
    bodyReplacements shouldFormat l s s' o :
  forEachFile
    (generateFile (recording platform) template moduleName finalOutputPath
       bodyReplacements false shouldFormat) l s = (s', o) ->
  let target f :=
    pathJoin platform finalOutputPath
      (listedPath platform template moduleName f) in
  let kept :=
    List.filter (fun f => negb (isIgnored platform template f)) in
  exists done_ rest,
    l = done_ ++ rest
    /\ files (result s')
       = files (result s)
         ++ map (listedPath platform template moduleName) (kept done_)
    /\ match o with
       | Returned _ =>
           rest = [] /\ written s' = written s ++ map target (kept done_)
       | Thrown _ =>
           written s' = written s ++ map target (kept done_)
           \/ exists failing rest',
                rest = failing :: rest'
                /\ isIgnored platform template failing = false
                /\ written s'
                   = written s ++ map target (kept done_)
                     ++ [ target failing ]
       end.
Proof.
  revert s. cbn zeta.
  set (target := fun f : string =>
         pathJoin platform finalOutputPath
           (listedPath platform template moduleName f)).
  set (kept := List.filter
                 (fun f => negb (isIgnored platform template f))).
  induction l as [|file l IH]; intros s H.
  - cbn in H. unfold runRet in H. simplify_eq.
    exists [], []. cbn. by rewrite !app_nil_r.
  - cbn [forEachFile] in H. unfold runBind at 1 in H.
    destruct (generateFile _ _ _ _ _ _ _ file s) as [s1 [[]|e]] eqn:E.
    + apply generateFile_writes in E as [Hf1 Hw1].
      apply IH in H as (done_ & rest & -> & Hf2 & Ho).
      exists (file :: done_), rest. split; [done|].
      subst kept. cbn [List.filter].
      rewrite Hf2, Hf1.
      destruct (isIgnored platform template file); cbn [negb map];
        rewrite ?app_nil_r in *; (split; [by rewrite <- ?(assoc_L (++))|]);
        destruct o as [u|e]; rewrite Hw1 in Ho.
      * done.
      * done.
      * destruct Ho as [-> ->]. by rewrite <- (assoc_L (++)).
      * destruct Ho as [->|(failing & rest' & -> & Hi & ->)];
          [left; by rewrite <- (assoc_L (++))|right].
        exists failing, rest'. by rewrite <- !(assoc_L (++)).
    + simplify_eq. apply generateFile_writes in E as [Hf1 Hw1].
      exists [], (file :: l). cbn. rewrite app_nil_r.
      split; [done|]. split; [done|].
      destruct Hw1 as [->|[Hi ->]]; [left; by rewrite app_nil_r|right].
      by exists file, l.
Qed.

End Writes.

(** X22. What a run that is not dry writes. On a platform that records
    its writes, the run gives the result it gives on the plain platform.
    The files it has handled are a front part of the files the glob
    yields, all of them when it returns; [files] lists those of them
    that the ignore test lets through, and exactly these have been
    written, each once, in that order and under the final output
    directory. When the run throws, at most one file more has been
    written: the file after the handled ones, and only if the ignore
    test lets it through. A file the ignore test holds back is never
    written. *)
Theorem writes_are_the_listed_files
    {World : Type} (platform : Platform World) (config : GeneratorConfig)
    (w : World) (templateName moduleName : string)
    (outputPath : option string)
    (bodyObject : option (list (string * JValue))) (shouldFormat : bool)
    (template : TemplateConfig)
    (s : RunState (World := World * list string)) (o : Outcome unit) :
  templates config !! templateName = Some template ->
  tryBlock (recording platform) config templateName moduleName outputPath
    bodyObject false shouldFormat (mkRun initialResult (w, [])) = (s, o) ->
  let globbed :=
    globFiles platform w (pathJoin platform (path template) "**/*") in
  let target f :=
    pathJoin platform (orElse outputPath (orElse (output template) "./src"))
      (listedPath platform template moduleName f) in
  let kept := List.filter (fun f => negb (isIgnored platform template f)) in
  generate (recording platform) config (w, []) templateName moduleName
    outputPath bodyObject false shouldFormat
  = generate platform config w templateName moduleName outputPath
      bodyObject false shouldFormat
  /\ exists done_ rest,
       globbed = done_ ++ rest
       /\ files (result s)
          = map (listedPath platform template moduleName) (kept done_)
       /\ match o with
          | Returned _ => rest = [] /\ written s = map target (kept globbed)
          | Thrown _ =>
              written s = map target (kept done_)
              \/ exists failing rest',
                   rest = failing :: rest'
                   /\ isIgnored platform template failing = false
                   /\ written s
                      = map target (kept done_) ++ [ target failing ]
          end.
Proof.
  intros Hin Hrun globbed target kept. split.
  - unfold generate.
    pose proof (simulates_tryBlock platform config templateName moduleName
      outputPath bodyObject false shouldFormat (mkRun initialResult (w, [])))
      as Hsim.
    change (forget (mkRun initialResult (w, [])))
      with (mkRun (World := World) initialResult w) in Hsim.
    rewrite Hsim, Hrun. cbn [fst snd]. by destruct o.
  - unfold tryBlock, lookupTemplate in Hrun. rewrite Hin in Hrun.
    unfold withTemplate in Hrun. unfold runBind at 1 in Hrun.
    unfold onWorld at 1 in Hrun. cbn [world] in Hrun.
    destruct (pathExists (recording platform) (w, []) (path template)).
    2:{ cbn in Hrun. unfold throw in Hrun. simplify_eq.
        exists [], globbed. split; [done|]. split; [done|]. by left. }
    cbn [negb] in Hrun. unfold runBind at 1 in Hrun.
    set (s0 := mkRun initialResult (w, [])) in *.
    pose proof (callHook_state (World := World * list string)
      (beforeGenerate config)
      (mkContext templateName moduleName
         (orElse outputPath (orElse (output template) "./src")) bodyObject)
      s0) as H1.
    destruct (callHook _ _ _) as [s1 [[]|e]]; cbn in H1; subst s1.
    2:{ simplify_eq. exists [], globbed. split; [done|]. split; [done|].
        by left. }
    unfold runBind at 1 in Hrun.
    pose proof (expandBody_state (World := World * list string) template
      bodyObject s0) as H2.
    destruct (expandBody _ _ _) as [s2 [bodyReplacements|e]]; cbn in H2;
      subst s2.
    2:{ simplify_eq. exists [], globbed. split; [done|]. split; [done|].
        by left. }
    unfold runBind at 1 in Hrun. unfold onWorld at 1 in Hrun.
    unfold runBind at 1 in Hrun.
    destruct (forEachFile _ _ _) as [s3 o3] eqn:Eloop.
    apply forEachFile_writes in Eloop as (done_ & rest & Hl & Hf & Ho).
    cbn in Hf, Ho, Hl. fold globbed in Hl. fold target kept in Ho.
    fold kept in Hf.
    destruct o3 as [[]|e].
    + destruct Ho as [-> Hw]. rewrite app_nil_r in Hl. subst done_.
      assert (s = s3) as -> by (destruct (afterGenerate config); congruence).
      exists globbed, []. rewrite app_nil_r. split; [done|]. split; [done|].
      destruct o; [done|by left].
    + injection Hrun as <- <-. by exists done_, rest.
Qed.

Lemma writes_are_the_listed_files_witness :
  written
    (tryBlock (recording notesPlatform) notesConfig "component" "user"
       (Some "out") None false true (mkRun initialResult (tt, []))).1
  = [ "out/user.ts"; "out/User.vue" ].
Proof.
  destruct (writes_are_the_listed_files notesPlatform notesConfig tt
              "component" "user" (Some "out") None true
              (mkTemplate "tpl" None (Some demoTemplates)
                 (Some [ "notes.md" ]) None None)
              _ _ eq_refl eq_refl) as (_ & done_ & rest & _ & _ & _ & Hw).
  exact Hw.
Defined.
(** ** The command line *)

Section CommandLine.

Import Cli.

Lemma prefix_cons_eq c t d s :
  String.prefix (String c t) (String d s)
  = Ascii.eqb c d && String.prefix t s.
Proof.
  change (String.prefix (String c t) (String d s))
    with (if ascii_dec c d then String.prefix t s else false).
  destruct (ascii_dec c d) as [->|Hne].
  - by rewrite Ascii.eqb_refl.
  - by apply Ascii.eqb_neq in Hne as ->.
Qed.

Lemma prefix_dash s :
  String.prefix "-" s
  = match s with
    | String c _ => Ascii.eqb "-"%char c
    | EmptyString => false
    end.
Proof.
  destruct s as [|c r]; [done|]. rewrite prefix_cons_eq.
  destruct r; apply andb_true_r.
Qed.

Lemma prefix_dashes s :
  String.prefix "--" s
  = match s with
    | String c (String d _) => Ascii.eqb "-"%char c && Ascii.eqb "-"%char d
    | _ => false
    end.
Proof.
  destruct s as [|c [|d r]]; [done|..]; rewrite prefix_cons_eq.
  - apply andb_false_r.
  - rewrite prefix_cons_eq. destruct r; by rewrite andb_true_r.
Qed.

Lemma dashes_isOption arg :
  String.prefix "--" arg = true -> isOption arg = true.
Proof.
  unfold isOption. rewrite prefix_dashes, prefix_dash.
  destruct arg as [|c [|d r]]; try done. by intros [-> _]%andb_true_iff.
Qed.

(** The two branches of the loop that record an option, and the third
    one. *)
Lemma parseFrom_option arg rest parsed :
  isOption arg = true ->
  parseFrom (arg :: rest) parsed
  = match rest with
    | nextArg :: rest' =>
        if truthy nextArg && negb (isOption nextArg)
        then parseFrom rest' (setOption (keyOf arg) (Text nextArg) parsed)
        else parseFrom rest (setOption (keyOf arg) Flag parsed)
    | [] => setOption (keyOf arg) Flag parsed
    end.
Proof.
  intros Hopt. cbn [parseFrom]. unfold keyOf, isOption in *.
  rewrite Hopt. by destruct (String.prefix "--" arg), rest.
Qed.

Lemma parseFrom_positional arg rest parsed :
  isOption arg = false ->
  parseFrom (arg :: rest) parsed = parseFrom rest (addPositional arg parsed).
Proof.
  intros Hopt. cbn [parseFrom].
  destruct (String.prefix "--" arg) eqn:Hdd.
  - apply dashes_isOption in Hdd. congruence.
  - unfold isOption in Hopt. by rewrite Hopt.
Qed.

(** Induction along the steps of the loop. *)
Lemma argv_ind (P : list string -> Prop) :
  P [] ->
  (forall arg rest, isOption arg = false -> P rest -> P (arg :: rest)) ->
  (forall arg, isOption arg = true -> P [ arg ]) ->
  (forall arg nextArg rest,
      isOption arg = true ->
      truthy nextArg && negb (isOption nextArg) = true ->
      P rest -> P (arg :: nextArg :: rest)) ->
  (forall arg nextArg rest,
      isOption arg = true ->
      truthy nextArg && negb (isOption nextArg) = false ->
      P (nextArg :: rest) -> P (arg :: nextArg :: rest)) ->
  forall argv, P argv.
Proof.
  intros Hnil Hpos Hlast Htext Hflag argv.
  assert (H : forall n l, length l <= n -> P l).
  { induction n as [|n IH]; intros l Hl.
    - destruct l; [done|cbn in Hl; lia].
    - destruct l as [|arg rest]; [done|]. cbn in Hl.
      destruct (isOption arg) eqn:Hopt.
      + destruct rest as [|nextArg rest]; [by apply Hlast|].
        destruct (truthy nextArg && negb (isOption nextArg)) eqn:Hnext.
        * apply Htext; [done..|]. apply IH. cbn in Hl. lia.
        * apply Hflag; [done..|]. apply IH. lia.
      + apply Hpos; [done|]. apply IH. lia. }
  by apply (H (length argv)).
Qed.

Lemma options_setOption key value parsed k :
  options (setOption key value parsed) !! k
  = if String.eqb key "__proto__" then options parsed !! k
    else if decide (key = k) then Some value
    else options parsed !! k.
Proof.
  unfold setOption. destruct (String.eqb key "__proto__"); [done|].
  cbn. destruct (decide (key = k)) as [->|Hne].
  - by rewrite lookup_insert_eq.
  - by rewrite lookup_insert_ne.
Qed.

Lemma options_addPositional arg parsed :
  options (addPositional arg parsed) = options parsed.
Proof.
  unfold addPositional. destruct (command parsed) as [c|]; [|done].
  by destruct (truthy c).
Qed.

Lemma command_setOption key value parsed :
  command (setOption key value parsed) = command parsed
  /\ args (setOption key value parsed) = args parsed.
Proof. unfold setOption. by destruct (String.eqb key "__proto__"). Qed.

(** An option is never taken for the text of the option before it. *)
Lemma parseFrom_app_option pre arg post parsed :
  isOption arg = true ->
  parseFrom (pre ++ arg :: post) parsed
  = parseFrom (arg :: post) (parseFrom pre parsed).
Proof.
  intros Hopt. revert parsed.
  induction pre as [|a rest Ha IH|a Ha|a n rest Ha Hn IH|a n rest Ha Hn IH]
    using argv_ind; intros parsed.
  - done.
  - cbn [app]. rewrite !(parseFrom_positional a) by done. apply IH.
  - cbn [app]. rewrite (parseFrom_option a (arg :: post)) by done.
    rewrite Hopt, andb_false_r. by rewrite (parseFrom_option a []).
  - cbn [app]. rewrite !(parseFrom_option a) by done. rewrite Hn.
    apply IH.
  - cbn [app]. rewrite !(parseFrom_option a) by done. rewrite Hn.
    apply IH.
Qed.

(** Arguments that record nothing under a key leave its entry alone. *)
Lemma parseFrom_other_keys key l parsed :
  forallb (fun a => negb (isOption a && String.eqb (keyOf a) key)) l
  = true ->
  options (parseFrom l parsed) !! key = options parsed !! key.
Proof.
  revert parsed.
  induction l as [|a rest Ha IH|a Ha|a n rest Ha Hn IH|a n rest Ha Hn IH]
    using argv_ind; intros parsed Hl.
  - done.
  - rewrite parseFrom_positional by done. cbn in Hl.
    apply andb_true_iff in Hl as [_ Hl].
    by rewrite IH, options_addPositional.
  - rewrite parseFrom_option by done. cbn in Hl. rewrite Ha in Hl.
    cbn in Hl. rewrite andb_true_r in Hl.
    apply negb_true_iff, String.eqb_neq in Hl.
    rewrite options_setOption. destruct (String.eqb _ "__proto__"); [done|].
    by destruct (decide (keyOf a = key)).
  - rewrite parseFrom_option by done. rewrite Hn. cbn in Hl.
    rewrite Ha in Hl. cbn in Hl.
    apply andb_true_iff in Hl as [Hk Hl].
    apply andb_true_iff in Hl as [_ Hl].
    apply negb_true_iff, String.eqb_neq in Hk.
    rewrite IH, options_setOption by done.
    destruct (String.eqb _ "__proto__"); [done|].
    by destruct (decide (keyOf a = key)).
  - rewrite parseFrom_option by done. rewrite Hn.
    cbn [forallb] in Hl. rewrite Ha in Hl. cbn [andb] in Hl.
    apply andb_true_iff in Hl as [Hk Hl].
    apply negb_true_iff, String.eqb_neq in Hk.
    rewrite IH, options_setOption by done.
    destruct (String.eqb _ "__proto__"); [done|].
    by destruct (decide (keyOf a = key)).
Qed.

Lemma given_setOption key value parsed k :
  given (Some value) = true ->
  given (options parsed !! k) = true ->
  given (options (setOption key value parsed) !! k) = true.
Proof.
  intros Hv Hk. rewrite options_setOption.
  destruct (String.eqb key "__proto__"); [done|].
  by destruct (decide (key = k)).
Qed.

Lemma given_text nextArg :
  truthy nextArg && negb (isOption nextArg) = true ->
  given (Some (Text nextArg)) = true.
Proof. by intros [? _]%andb_true_iff. Qed.

(** What is recorded stays recorded. *)
Lemma parseFrom_given k l parsed :
  given (options parsed !! k) = true ->
  given (options (parseFrom l parsed) !! k) = true.
Proof.
  revert parsed.
  induction l as [|a rest Ha IH|a Ha|a n rest Ha Hn IH|a n rest Ha Hn IH]
    using argv_ind; intros parsed Hk.
  - done.
  - rewrite parseFrom_positional by done. apply IH.
    by rewrite options_addPositional.
  - rewrite parseFrom_option by done. by apply given_setOption.
  - rewrite parseFrom_option by done. rewrite Hn. apply IH.
    apply given_setOption; [by apply given_text|done].
  - rewrite parseFrom_option by done. rewrite Hn. apply IH.
    by apply given_setOption.
Qed.

Lemma given_setOption_same arg value parsed :
  keyOf arg <> "__proto__" ->
  given (Some value) = true ->
  given (options (setOption (keyOf arg) value parsed) !! keyOf arg) = true.
Proof.
  intros Hproto Hv. rewrite options_setOption.
  apply String.eqb_neq in Hproto as ->.
  by destruct (decide (keyOf arg = keyOf arg)).
Qed.

(** Every option of the line is recorded. *)
Lemma parseFrom_records l parsed arg :
  arg ∈ l -> isOption arg = true -> keyOf arg <> "__proto__" ->
  given (options (parseFrom l parsed) !! keyOf arg) = true.
Proof.
  intros Hin Hopt Hproto. revert parsed Hin.
  induction l as [|a rest Ha IH|a Ha|a n rest Ha Hn IH|a n rest Ha Hn IH]
    using argv_ind; intros parsed Hin.
  - by apply elem_of_nil in Hin.
  - rewrite parseFrom_positional by done.
    apply elem_of_cons in Hin as [->|Hin]; [congruence|by apply IH].
  - rewrite parseFrom_option by done.
    apply list_elem_of_singleton in Hin as ->.
    by apply given_setOption_same.
  - rewrite parseFrom_option by done. rewrite Hn.
    apply elem_of_cons in Hin as [->|Hin].
    { apply parseFrom_given, given_setOption_same; [done|].
      by apply given_text. }
    apply elem_of_cons in Hin as [->|Hin]; [|by apply IH].
    apply andb_true_iff in Hn as [_ Hn]. rewrite Hopt in Hn. done.
  - rewrite parseFrom_option by done. rewrite Hn.
    apply elem_of_cons in Hin as [->|Hin]; [|by apply IH].
    by apply parseFrom_given, given_setOption_same.
Qed.

(** Where an entry of [options] comes from. *)
Lemma parseFrom_recorded l parsed key value :
  options (parseFrom l parsed) !! key = Some value ->
  options parsed !! key = Some value
  \/ (key <> "__proto__"
      /\ exists pre arg post,
           l = pre ++ arg :: post
           /\ isOption arg = true /\ keyOf arg = key
           /\ match value with
              | Text s =>
                  truthy s = true /\ isOption s = false
                  /\ head post = Some s
              | Flag =>
                  match post with
                  | nextArg :: _ =>
                      truthy nextArg && negb (isOption nextArg) = false
                  | [] => True
                  end
              end).
Proof.
  revert parsed.
  induction l as [|a rest Ha IH|a Ha|a n rest Ha Hn IH|a n rest Ha Hn IH]
    using argv_ind; intros parsed Hlook.
  - by left.
  - rewrite parseFrom_positional in Hlook by done.
    apply IH in Hlook as [Hold|(Hproto & pre & arg & post & -> & H)].
    + left. by rewrite options_addPositional in Hold.
    + right. split; [done|]. by exists (a :: pre), arg, post.
  - rewrite parseFrom_option in Hlook by done.
    rewrite options_setOption in Hlook.
    destruct (String.eqb (keyOf a) "__proto__") eqn:Hp; [by left|].
    destruct (decide (keyOf a = key)) as [<-|Hne]; [|by left].
    right. injection Hlook as <-. apply String.eqb_neq in Hp.
    split; [done|]. by exists [], a, [].
  - rewrite parseFrom_option in Hlook by done. rewrite Hn in Hlook.
    apply IH in Hlook as [Hold|(Hproto & pre & arg & post & -> & H)].
    + rewrite options_setOption in Hold.
      destruct (String.eqb (keyOf a) "__proto__") eqn:Hp; [by left|].
      destruct (decide (keyOf a = key)) as [<-|Hne]; [|by left].
      right. injection Hold as <-. apply String.eqb_neq in Hp.
      split; [done|]. exists [], a, (n :: rest).
      apply andb_true_iff in Hn as [Hn1 Hn2].
      apply negb_true_iff in Hn2. done.
    + right. split; [done|]. by exists (a :: n :: pre), arg, post.
  - rewrite parseFrom_option in Hlook by done. rewrite Hn in Hlook.
    apply IH in Hlook as [Hold|(Hproto & pre & arg & post & Heq & H)].
    + rewrite options_setOption in Hold.
      destruct (String.eqb (keyOf a) "__proto__") eqn:Hp; [by left|].
      destruct (decide (keyOf a = key)) as [<-|Hne]; [|by left].
      right. injection Hold as <-. apply String.eqb_neq in Hp.
      split; [done|]. by exists [], a, (n :: rest).
    + right. split; [done|]. exists (a :: pre), arg, post.
      by rewrite Heq.
Qed.

Lemma isOption_longForm arg : isOption (longForm arg) = isOption arg.
Proof.
  unfold longForm, isOption. destruct (String.prefix "--" arg); [done|].
  destruct (String.prefix "-" arg) eqn:H; [|done].
  by rewrite prefix_dash.
Qed.

Lemma keyOf_longForm arg : keyOf (longForm arg) = keyOf arg.
Proof.
  unfold longForm, keyOf. destruct (String.prefix "--" arg) eqn:Hdd.
  { by rewrite Hdd. }
  destruct (String.prefix "-" arg) eqn:Hd; [|by rewrite Hdd].
  rewrite prefix_dash in Hd. destruct arg as [|c r]; [done|].
  change ("-" +:+ String c r) with (String "-"%char (String c r)).
  rewrite prefix_dashes. cbv beta iota. by rewrite Ascii.eqb_refl, Hd.
Qed.

Lemma longForm_positional arg : isOption arg = false -> longForm arg = arg.
Proof.
  unfold longForm, isOption. intros ->.
  by destruct (String.prefix "--" arg).
Qed.

Lemma truthy_longForm arg : truthy (longForm arg) = truthy arg.
Proof.
  unfold longForm. destruct (String.prefix "--" arg); [done|].
  destruct (String.prefix "-" arg) eqn:H; [|done]. by destruct arg.
Qed.

Lemma parseFrom_longForm l parsed :
  parseFrom (map longForm l) parsed = parseFrom l parsed.
Proof.
  revert parsed.
  induction l as [|a rest Ha IH|a Ha|a n rest Ha Hn IH|a n rest Ha Hn IH]
    using argv_ind; intros parsed.
  - done.
  - cbn [map]. rewrite (longForm_positional a) by done.
    rewrite !(parseFrom_positional a) by done. apply IH.
  - cbn [map]. rewrite !parseFrom_option by by rewrite ?isOption_longForm.
    by rewrite keyOf_longForm.
  - cbn [map]. rewrite !(parseFrom_option _ (_ :: _))
      by by rewrite ?isOption_longForm.
    rewrite truthy_longForm, isOption_longForm, Hn, keyOf_longForm.
    apply andb_true_iff in Hn as [_ Hn%negb_true_iff].
    rewrite (longForm_positional n) by done. apply IH.
  - rewrite (parseFrom_option a) by done. rewrite Hn.
    cbn [map]. rewrite (parseFrom_option (longForm a))
      by by rewrite isOption_longForm.
    rewrite truthy_longForm, isOption_longForm, Hn, keyOf_longForm.
    apply (IH (setOption (keyOf a) Flag parsed)).
Qed.

Lemma parseFrom_positionals l parsed c :
  command parsed = Some c -> truthy c = true ->
  forallb (fun a => truthy a && negb (isOption a)) l = true ->
  parseFrom l parsed
  = mkParsed (command parsed) (args parsed ++ l) (options parsed).
Proof.
  revert parsed.
  induction l as [|a l IH]; intros [cmd ar opts] Hc Ht Hl; cbn in Hc;
    subst cmd.
  - cbn. by rewrite app_nil_r.
  - cbn [forallb] in Hl. apply andb_true_iff in Hl as [Ha Hl].
    apply andb_true_iff in Ha as [_ Ha%negb_true_iff].
    rewrite parseFrom_positional by done.
    unfold addPositional. cbn [command args options]. rewrite Ht.
    rewrite (IH (mkParsed (Some c) (ar ++ [ a ]) opts) eq_refl Ht Hl).
    cbn. by rewrite <- (assoc_L (++)).
Qed.

End CommandLine.

(** X9. An option that is followed by a word takes the word as its text,
    wherever it stands in the line: the word is no positional argument
    and the option is no flag. So a word after [--dry-run] turns the dry
    run off, as long as no later option sets the key again. *)
Theorem option_takes_the_next_word (pre post : list string)
    (arg word : string) :
  Cli.isOption arg = true ->
  truthy word = true -> Cli.isOption word = false ->
  Cli.parseArgs (pre ++ arg :: word :: post)
  = Cli.parseFrom post
      (Cli.setOption (Cli.keyOf arg) (Cli.Text word) (Cli.parseArgs pre))
  /\ (Cli.keyOf arg = "dry-run" ->
      forallb
        (fun a => negb (Cli.isOption a
                        && String.eqb (Cli.keyOf a) "dry-run")) post
      = true ->
      Cli.isDryRun (Cli.parseArgs (pre ++ arg :: word :: post)) = false).
Proof.
  intros Hopt Hword Hdash.
  assert (Hsplit :
    Cli.parseArgs (pre ++ arg :: word :: post)
    = Cli.parseFrom post
        (Cli.setOption (Cli.keyOf arg) (Cli.Text word) (Cli.parseArgs pre))).
  { unfold Cli.parseArgs. rewrite parseFrom_app_option by done.
    rewrite parseFrom_option by done. by rewrite Hword, Hdash. }
  split; [done|]. intros Hkey Hpost. rewrite Hsplit. unfold Cli.isDryRun.
  rewrite parseFrom_other_keys by done.
  rewrite options_setOption, Hkey. cbn [String.eqb Ascii.eqb Bool.eqb].
  by destruct (decide ("dry-run" = "dry-run")).
Qed.

Lemma option_takes_the_next_word_witness :
  Cli.isDryRun
    (Cli.parseArgs [ "generate"; "--dry-run"; "component"; "user" ]) = false
  /\ Cli.args
       (Cli.parseArgs [ "generate"; "--dry-run"; "component"; "user" ])
     = [ "user" ].
Proof.
  destruct (option_takes_the_next_word [ "generate" ] [ "user" ] "--dry-run"
              "component" eq_refl eq_refl eq_refl) as [Hsplit Hdry].
  split; [exact (Hdry eq_refl eq_refl)|].
  cbn [app] in Hsplit. by rewrite Hsplit.
Defined.

(** X10. Where an entry of the parsed options comes from. Its key is
    never [__proto__] and is the key of an option argument of the line;
    a text value is the argument that follows that option, is not empty
    and does not start with a dash; a flag comes from an option that
    ends the line or is followed by an empty argument or by another
    option. *)
Theorem recorded_options (argv : list string) (key : string)
    (value : Cli.OptionValue) :
  Cli.options (Cli.parseArgs argv) !! key = Some value ->
  key <> "__proto__"
  /\ exists pre arg post,
       argv = pre ++ arg :: post
       /\ Cli.isOption arg = true /\ Cli.keyOf arg = key
       /\ match value with
          | Cli.Text s =>
              truthy s = true /\ Cli.isOption s = false
              /\ head post = Some s
          | Cli.Flag =>
              match post with
              | nextArg :: _ =>
                  truthy nextArg && negb (Cli.isOption nextArg) = false
              | [] => True
              end
          end.
Proof.
  intros Hlook. apply parseFrom_recorded in Hlook as [Hold|H]; [|done].
  cbn in Hold. by rewrite lookup_empty in Hold.
Qed.

Lemma recorded_options_witness :
  Cli.options (Cli.parseArgs [ "g"; "form"; "-o"; "src/forms"; "--dry-run" ])
    !! "o" = Some (Cli.Text "src/forms")
  /\ "o" <> "__proto__".
Proof.
  assert (H : Cli.options
                (Cli.parseArgs [ "g"; "form"; "-o"; "src/forms"; "--dry-run" ])
                !! "o" = Some (Cli.Text "src/forms")) by reflexivity.
  split; [exact H|]. exact (proj1 (recorded_options _ _ _ H)).
Defined.

(** X11. A help option anywhere in the line wins: whatever the command
    and the other arguments are, [main] shows the help text. *)
Theorem help_option_wins (argv : list string) (arg : string) :
  arg ∈ argv -> Cli.isOption arg = true ->
  Cli.keyOf arg = "help" \/ Cli.keyOf arg = "h" ->
  Cli.main (Cli.parseArgs argv) = Cli.ShowHelp.
Proof.
  intros Hin Hopt Hkey.
  assert (Hgiven :
    Cli.given (Cli.options (Cli.parseArgs argv) !! "help")
    || Cli.given (Cli.options (Cli.parseArgs argv) !! "h") = true).
  { apply orb_true_iff.
    destruct Hkey as [Hkey|Hkey]; [left|right]; rewrite <- Hkey;
      apply parseFrom_records; try done; by rewrite Hkey. }
  unfold Cli.main. rewrite <- orb_assoc, Hgiven. by rewrite orb_true_r.
Qed.

Lemma help_option_wins_witness :
  Cli.main (Cli.parseArgs [ "generate"; "form"; "user"; "-h"; "--dry-run" ])
  = Cli.ShowHelp.
Proof.
  apply (help_option_wins _ "-h"); [|reflexivity|by right].
  rewrite !elem_of_cons. tauto.
Defined.

(** X12. One dash or two make no difference: a line parses as the line
    in which every option is written with two dashes. *)
Theorem dashes_are_interchangeable (argv : list string) :
  Cli.parseArgs (map Cli.longForm argv) = Cli.parseArgs argv.
Proof. apply parseFrom_longForm. Qed.

(** X13. A line of non-empty words without a dash in front: the first
    word is the command, the others are the arguments in their order,
    and no option is recorded. *)
Theorem words_are_positional (argv : list string) :
  forallb (fun a => truthy a && negb (Cli.isOption a)) argv = true ->
  Cli.parseArgs argv = Cli.mkParsed (head argv) (tail argv) ∅.
Proof.
  intros Hwords. destruct argv as [|a l]; [done|].
  cbn [forallb] in Hwords. apply andb_true_iff in Hwords as [Ha Hl].
  apply andb_true_iff in Ha as [Ht Ha%negb_true_iff].
  unfold Cli.parseArgs. rewrite parseFrom_positional by done.
  by rewrite (parseFrom_positionals l _ a).
Qed.

Lemma words_are_positional_witness :
  Cli.parseArgs [ "generate"; "form"; "user" ]
  = Cli.mkParsed (Some "generate") [ "form"; "user" ] ∅.
Proof. apply (words_are_positional [ "generate"; "form"; "user" ]).
  reflexivity.
Defined.
(** ** The built-in formatter *)

Section PlainFormat.

Import PlainGenerator.

Lemma isNewline_eq c : isNewline c = true -> c = "010"%char.
Proof. apply Ascii.eqb_eq. Qed.

Lemma isNewline_space c : isNewline c = true -> Ascii.is_space c = true.
Proof. by intros ->%isNewline_eq. Qed.

Lemma isBlank_line c :
  isNewline c = false -> isBlank c = Ascii.is_space c.
Proof. unfold isBlank. intros ->. apply andb_true_r. Qed.

Lemma append_String c r b : String c r +:+ b = String c (r +:+ b).
Proof. done. Qed.

Lemma concat_cons_string sep c l ls :
  String.concat sep (String c l :: ls)
  = String c (String.concat sep (l :: ls)).
Proof. by destruct ls. Qed.

Lemma splitLines_cons s : exists l ls, splitLines s = l :: ls.
Proof.
  induction s as [|c r (l & ls & IH)]; cbn; [by eexists _, _|].
  destruct (isNewline c); [by eexists _, _|]. rewrite IH. by eexists _, _.
Qed.

Lemma splitLines_String c r :
  splitLines (String c r)
  = if isNewline c then EmptyString :: splitLines r
    else match splitLines r with
         | line :: lines => String c line :: lines
         | [] => [ String c EmptyString ]
         end.
Proof. done. Qed.

Lemma join_splitLines s : join nl (splitLines s) = s.
Proof.
  unfold join. induction s as [|c r IH]; [done|]. cbn [splitLines].
  destruct (isNewline c) eqn:Hc.
  - apply isNewline_eq in Hc as ->.
    destruct (splitLines_cons r) as (l & ls & Hr). rewrite Hr in *.
    change (String.concat nl (EmptyString :: l :: ls))
      with (EmptyString +:+ nl +:+ String.concat nl (l :: ls)).
    by rewrite IH.
  - destruct (splitLines_cons r) as (l & ls & Hr). rewrite Hr in *.
    by rewrite concat_cons_string, IH.
Qed.

Lemma splitLines_app_nl s :
  splitLines (s +:+ nl) = splitLines s ++ [ EmptyString ].
Proof.
  induction s as [|c r IH]; [done|].
  rewrite append_String, !splitLines_String, IH.
  destruct (isNewline c); [done|].
  by destruct (splitLines_cons r) as (l & ls & ->).
Qed.

(** *** [trimEnd] *)

Lemma trimEnd_cons c r :
  trimEnd (String c r)
  = match trimEnd r with
    | EmptyString =>
        if Ascii.is_space c then EmptyString else String c EmptyString
    | r' => String c r'
    end.
Proof. done. Qed.

Lemma trimEnd_head r d r' :
  trimEnd r = String d r' -> exists r2, r = String d r2.
Proof.
  destruct r as [|c r]; [done|]. rewrite trimEnd_cons.
  destruct (trimEnd r); [destruct (Ascii.is_space c)|];
    intros H; simplify_eq; by eexists.
Qed.

Lemma trimEnd_idem s : trimEnd (trimEnd s) = trimEnd s.
Proof.
  induction s as [|c r IH]; [done|]. rewrite trimEnd_cons.
  destruct (trimEnd r) as [|d r'] eqn:Hr.
  - destruct (Ascii.is_space c) eqn:Hc; [done|].
    by rewrite trimEnd_cons, Hc.
  - by rewrite trimEnd_cons, IH.
Qed.

Lemma trimEnd_app_nl s : trimEnd (s +:+ nl) = trimEnd s.
Proof.
  induction s as [|c r IH]; [done|].
  by rewrite append_String, !trimEnd_cons, IH.
Qed.

Lemma noNewline_trimEnd l :
  noNewline l = true -> noNewline (trimEnd l) = true.
Proof.
  induction l as [|c r IH]; [done|]. cbn [noNewline].
  intros [Hc Hr]%andb_true_iff. rewrite trimEnd_cons.
  specialize (IH Hr). destruct (trimEnd r).
  - destruct (Ascii.is_space c); [done|]. cbn. by rewrite Hc.
  - cbn [noNewline]. by rewrite Hc.
Qed.

Lemma noNewline_splitLines s :
  Forall (fun l => noNewline l = true) (splitLines s).
Proof.
  induction s as [|c r IH]; cbn [splitLines]; [by repeat constructor|].
  destruct (isNewline c) eqn:Hc; [by constructor|].
  destruct (splitLines_cons r) as (l & ls & Hr). rewrite Hr in *.
  inversion IH; subst. constructor; [|done]. cbn. by rewrite Hc.
Qed.

(** *** Lines without blanks at their end *)

Lemma linesTrimmed_tail c r :
  linesTrimmed (String c r) = true -> linesTrimmed r = true.
Proof. cbn [linesTrimmed]. by intros [_ ?]%andb_true_iff. Qed.

Lemma linesTrimmed_app a b :
  linesTrimmed a = true -> linesTrimmed b = true ->
  linesTrimmed (a +:+ b) = true.
Proof.
  intros Ha Hb. induction a as [|c r IH]; [done|].
  rewrite append_String. cbn [linesTrimmed] in *.
  apply andb_true_iff in Ha as [Hc Hr]. rewrite (IH Hr), andb_true_r.
  destruct (isBlank c); [|done]. by destruct r.
Qed.

Lemma linesTrimmed_newlines n : linesTrimmed (newlines n) = true.
Proof. induction n as [|n IH]; [done|]. cbn. exact IH. Qed.

Lemma linesTrimmed_trimEnd_line l :
  noNewline l = true -> linesTrimmed (trimEnd l) = true.
Proof.
  induction l as [|c r IH]; [done|]. cbn [noNewline].
  intros [Hc Hr]%andb_true_iff. rewrite trimEnd_cons.
  specialize (IH Hr). pose proof (noNewline_trimEnd r Hr) as Hn.
  destruct (trimEnd r) as [|d r'] eqn:Hd.
  - destruct (Ascii.is_space c) eqn:Hs; [done|].
    cbn. unfold isBlank. by rewrite Hs.
  - cbn [linesTrimmed] in *. rewrite IH, andb_true_r.
    cbn [noNewline] in Hn. apply andb_true_iff in Hn as [Hn _].
    by destruct (isBlank c).
Qed.

Lemma linesTrimmed_join ls :
  Forall (fun l => linesTrimmed l = true) ls ->
  linesTrimmed (join nl ls) = true.
Proof.
  unfold join. induction 1 as [|l ls Hl _ IH]; [done|].
  destruct ls as [|l' ls]; [done|].
  change (String.concat nl (l :: l' :: ls))
    with (l +:+ nl +:+ String.concat nl (l' :: ls)).
  by repeat apply linesTrimmed_app.
Qed.

Lemma linesTrimmed_trimmed c :
  linesTrimmed (join nl (map trimEnd (splitLines c))) = true.
Proof.
  apply linesTrimmed_join, Forall_map.
  eapply Forall_impl; [apply noNewline_splitLines|].
  intros l. apply linesTrimmed_trimEnd_line.
Qed.

Lemma collapseRuns_head d r :
  isNewline d = false ->
  collapseRuns 0 (String d r) = String d (collapseRuns 0 r).
Proof. intros Hd. cbn. by rewrite Hd. Qed.

Lemma linesTrimmed_flush run : linesTrimmed (flush run) = true.
Proof. unfold flush. destruct (3 <=? run)%nat; apply linesTrimmed_newlines. Qed.

Lemma linesTrimmed_collapseRuns run u :
  linesTrimmed u = true -> linesTrimmed (collapseRuns run u) = true.
Proof.
  revert run. induction u as [|c r IH]; intros run Hu.
  - apply linesTrimmed_flush.
  - cbn [collapseRuns]. pose proof (linesTrimmed_tail _ _ Hu) as Hr.
    destruct (isNewline c) eqn:Hc; [by apply IH|].
    apply linesTrimmed_app; [apply linesTrimmed_flush|].
    cbn [linesTrimmed] in *. rewrite (IH 0 Hr), andb_true_r.
    apply andb_true_iff in Hu as [Hu _].
    destruct (isBlank c); [|done].
    destruct r as [|d r]; [done|]. apply negb_true_iff in Hu.
    by rewrite collapseRuns_head, Hu.
Qed.

Lemma linesTrimmed_trimStart v :
  linesTrimmed v = true -> linesTrimmed (trimStart v) = true.
Proof.
  induction v as [|c r IH]; [done|]. intros Hv. cbn [trimStart].
  destruct (Ascii.is_space c); [|done].
  by apply IH, (linesTrimmed_tail c).
Qed.

Lemma linesTrimmed_trimEnd v :
  linesTrimmed v = true -> linesTrimmed (trimEnd v) = true.
Proof.
  induction v as [|c r IH]; [done|]. intros Hv.
  pose proof (linesTrimmed_tail _ _ Hv) as Hr. specialize (IH Hr).
  rewrite trimEnd_cons. destruct (trimEnd r) as [|d r'] eqn:Hd.
  - destruct (Ascii.is_space c) eqn:Hs; [done|].
    cbn. unfold isBlank. by rewrite Hs.
  - apply trimEnd_head in Hd as (r2 & ->).
    cbn [linesTrimmed] in *. rewrite IH, andb_true_r.
    by apply andb_true_iff in Hv as [Hv _].
Qed.

(** On such a text, trimming the lines changes nothing. *)
Lemma linesTrimmed_lines s :
  linesTrimmed s = true -> map trimEnd (splitLines s) = splitLines s.
Proof.
  induction s as [|c r IH]; [done|]. intros Hs.
  pose proof (linesTrimmed_tail _ _ Hs) as Hr. specialize (IH Hr).
  rewrite splitLines_String. destruct (isNewline c) eqn:Hc.
  { cbn [map]. by rewrite IH. }
  destruct (splitLines_cons r) as (l & ls & Hl). rewrite Hl in *.
  cbn [map] in *. injection IH as Htl Hls. rewrite Hls. f_equal.
  rewrite trimEnd_cons, Htl. destruct l as [|d l']; [|done].
  cbn [linesTrimmed] in Hs. apply andb_true_iff in Hs as [Hs _].
  rewrite (isBlank_line c Hc) in Hs.
  destruct (Ascii.is_space c); [|done].
  destruct r as [|d r]; [done|]. rewrite splitLines_String in Hl.
  apply negb_true_iff in Hs. rewrite Hs in Hl.
  destruct (splitLines_cons r) as (? & ? & Hr2). by rewrite Hr2 in Hl.
Qed.

(** *** Runs of line feeds *)

Lemma newlines_snoc n r :
  newlines n +:+ String "010"%char r = newlines (S n) +:+ r.
Proof.
  induction n as [|n IH]; [done|].
  change (newlines (S n)) with (String "010"%char (newlines n)).
  by rewrite append_String, IH.
Qed.

Lemma flush_short run : (run <= 2)%nat -> flush run = newlines run.
Proof.
  intros H. unfold flush. destruct (3 <=? run)%nat eqn:E; [|done].
  apply Nat.leb_le in E. lia.
Qed.

Lemma shortRuns_cons run c r :
  shortRuns run (String c r)
  = if isNewline c then (S run <? 3)%nat && shortRuns (S run) r
    else shortRuns 0 r.
Proof. done. Qed.

Lemma shortRuns_mono run run' s :
  (run' <= run)%nat -> shortRuns run s = true -> shortRuns run' s = true.
Proof.
  revert run run'. induction s as [|c r IH]; intros run run' Hle; [done|].
  cbn [shortRuns]. destruct (isNewline c); [|done].
  intros [Hlt Hr]%andb_true_iff. apply Nat.ltb_lt in Hlt.
  apply andb_true_iff. split; [apply Nat.ltb_lt; lia|].
  apply (IH (S run)); [lia|done].
Qed.

Lemma shortRuns_tail run c r :
  shortRuns run (String c r) = true -> shortRuns 0 r = true.
Proof.
  cbn [shortRuns]. destruct (isNewline c); [|done].
  intros [_ Hr]%andb_true_iff. apply (shortRuns_mono (S run)); [lia|done].
Qed.

Lemma shortRuns_newlines k c y :
  (k <= 2)%nat -> isNewline c = false -> shortRuns 0 y = true ->
  shortRuns 0 (newlines k +:+ String c y) = true.
Proof.
  intros Hk Hc Hy.
  destruct k as [|[|[|k]]]; [..|lia]; cbn [newlines];
    rewrite ?append_String, ?app_empty_l, !shortRuns_cons, Hc, Hy; done.
Qed.

Lemma shortRuns_flush run : shortRuns 0 (flush run) = true.
Proof.
  unfold flush. destruct (3 <=? run)%nat eqn:E; [done|].
  apply Nat.leb_gt in E. by destruct run as [|[|[|run]]]; [..|lia].
Qed.

Lemma flush_length run : exists k, (k <= 2)%nat /\ flush run = newlines k.
Proof.
  unfold flush. destruct (3 <=? run)%nat eqn:E.
  - exists 2. by split; [lia|].
  - apply Nat.leb_gt in E. exists run. by split; [lia|].
Qed.

Lemma shortRuns_collapseRuns run u :
  shortRuns 0 (collapseRuns run u) = true.
Proof.
  revert run. induction u as [|c r IH]; intros run.
  - apply shortRuns_flush.
  - cbn [collapseRuns]. destruct (isNewline c) eqn:Hc; [apply IH|].
    destruct (flush_length run) as (k & Hk & ->).
    by apply shortRuns_newlines.
Qed.

(** A text with short runs only is left alone. *)
Lemma collapseRuns_short run s :
  (run <= 2)%nat -> shortRuns run s = true ->
  collapseRuns run s = newlines run +:+ s.
Proof.
  revert run. induction s as [|c r IH]; intros run Hrun Hs.
  - cbn. by rewrite flush_short, app_empty_r.
  - cbn [collapseRuns shortRuns] in *. destruct (isNewline c) eqn:Hc.
    + apply andb_true_iff in Hs as [Hlt Hr]. apply Nat.ltb_lt in Hlt.
      apply isNewline_eq in Hc as ->.
      rewrite IH by (done || lia). by rewrite newlines_snoc.
    + rewrite flush_short by done. by rewrite (IH 0) by (done || lia).
Qed.

Lemma shortRuns_trimStart v :
  shortRuns 0 v = true -> shortRuns 0 (trimStart v) = true.
Proof.
  induction v as [|c r IH]; [done|]. intros Hv. cbn [trimStart].
  destruct (Ascii.is_space c); [|done].
  by apply IH, (shortRuns_tail 0 c).
Qed.

Lemma shortRuns_trimEnd run v :
  shortRuns run v = true -> shortRuns run (trimEnd v) = true.
Proof.
  revert run. induction v as [|c r IH]; intros run Hv; [done|].
  rewrite trimEnd_cons. cbn [shortRuns] in Hv.
  destruct (isNewline c) eqn:Hc.
  - apply andb_true_iff in Hv as [Hlt Hr]. specialize (IH _ Hr).
    rewrite (isNewline_space c Hc).
    destruct (trimEnd r); [done|]. cbn [shortRuns]. by rewrite Hc, Hlt.
  - specialize (IH _ Hv).
    destruct (trimEnd r); [destruct (Ascii.is_space c)|]; try done;
      cbn [shortRuns]; by rewrite Hc.
Qed.

Lemma shortRuns_app_nl run t :
  trimEnd t = t -> t <> EmptyString \/ (run <= 1)%nat ->
  shortRuns run t = true -> shortRuns run (t +:+ nl) = true.
Proof.
  revert run. induction t as [|c r IH]; intros run Ht Hrun Hs.
  - destruct Hrun as [|Hrun]; [done|]. cbn.
    apply andb_true_iff. split; [|done]. apply Nat.ltb_lt. lia.
  - rewrite append_String. rewrite trimEnd_cons in Ht.
    cbn [shortRuns] in *.
    assert (Hr : trimEnd r = r
                 /\ (r = EmptyString -> Ascii.is_space c = false)).
    { destruct (trimEnd r) eqn:E.
      - destruct (Ascii.is_space c); [done|]. by injection Ht as <-.
      - injection Ht as <-. by split. }
    destruct Hr as [Hr Hc']. destruct (isNewline c) eqn:Hc.
    + apply andb_true_iff in Hs as [Hlt Hs]. rewrite Hlt. cbn [andb].
      apply IH; [done| |done]. left. intros ->.
      specialize (Hc' eq_refl). by rewrite (isNewline_space c Hc) in Hc'.
    + apply IH; [done| |done]. right. lia.
Qed.

(** *** [trim] *)

Lemma startsClean_trimStart v : startsClean (trimStart v) = true.
Proof.
  induction v as [|c r IH]; [done|]. cbn [trimStart].
  destruct (Ascii.is_space c) eqn:Hc; [done|].
  unfold startsClean. by rewrite Hc.
Qed.

Lemma startsClean_trimEnd s :
  startsClean s = true -> startsClean (trimEnd s) = true.
Proof.
  destruct s as [|c r]; [done|]. rewrite trimEnd_cons.
  unfold startsClean. intros Hc%negb_true_iff. rewrite Hc.
  destruct (trimEnd r); by rewrite Hc.
Qed.

Lemma trimStart_clean s : startsClean s = true -> trimStart s = s.
Proof.
  destruct s as [|c r]; [done|]. unfold startsClean. cbn [trimStart].
  by intros ->%negb_true_iff.
Qed.

Lemma trim_app_nl v : trim (trim v +:+ nl) = trim v.
Proof.
  pose proof (startsClean_trimEnd _ (startsClean_trimStart v)) as Hclean.
  fold (trim v) in Hclean.
  assert (Hend : trimEnd (trim v) = trim v) by apply trimEnd_idem.
  destruct (trim v) as [|c r] eqn:Ht; [done|].
  unfold trim at 1. rewrite trimStart_clean.
  - by rewrite trimEnd_app_nl.
  - by rewrite append_String.
Qed.

Lemma noTriple_short s :
  shortRuns 0 s = true -> includes (nl +:+ nl +:+ nl) s = false.
Proof.
  induction s as [|c1 r IH]; intros Hs; [done|].
  cbn [includes]. rewrite (IH (shortRuns_tail _ _ _ Hs)), orb_false_r.
  change (nl +:+ nl +:+ nl)
    with (String "010"%char (String "010"%char (String "010"%char
            EmptyString))).
  clear IH. rewrite prefix_cons_eq.
  destruct r as [|c2 r]; [apply andb_false_r|]. rewrite prefix_cons_eq.
  destruct r as [|c3 r]; [by rewrite !andb_false_r|].
  rewrite prefix_cons_eq. rewrite !shortRuns_cons in Hs.
  unfold isNewline in Hs.
  rewrite (Ascii.eqb_sym c1), (Ascii.eqb_sym c2), (Ascii.eqb_sym c3) in Hs.
  destruct (Ascii.eqb "010" c1); [|done].
  destruct (Ascii.eqb "010" c2); [|done].
  destruct (Ascii.eqb "010" c3); [|done]. done.
Qed.

(** The three stages after the first formatting. *)
Lemma format_stages c :
  let t := trim (collapseRuns 0 (join nl (map trimEnd (splitLines c)))) in
  linesTrimmed (t +:+ nl) = true /\ shortRuns 0 (t +:+ nl) = true.
Proof.
  cbn zeta. split.
  - apply linesTrimmed_app; [|done].
    apply linesTrimmed_trimEnd, linesTrimmed_trimStart,
      linesTrimmed_collapseRuns, linesTrimmed_trimmed.
  - apply shortRuns_app_nl; [apply trimEnd_idem|right; lia|].
    apply shortRuns_trimEnd, shortRuns_trimStart, shortRuns_collapseRuns.
Qed.

End PlainFormat.

(** X14. Formatting twice is formatting once. *)
Theorem formatCode_idempotent (extname : string -> string)
    (content filePath : string) :
  PlainGenerator.formatCode extname
    (PlainGenerator.formatCode extname content filePath) filePath
  = PlainGenerator.formatCode extname content filePath.
Proof.
  unfold PlainGenerator.formatCode.
  destruct (existsb _ _) eqn:Hext; rewrite ?Hext; [|done].
  destruct (format_stages content) as [Hlines Hruns]. cbn zeta in *.
  rewrite (linesTrimmed_lines _ Hlines), join_splitLines.
  rewrite (collapseRuns_short 0) by (done || lia).
  cbn [PlainGenerator.newlines]. rewrite app_empty_l.
  by rewrite trim_app_nl.
Qed.

(** X15. The shape of a formatted text. For a file with one of the
    listed extensions the result is a text without white space at
    either end followed by one line feed; no line of it ends in white
    space, and it never holds three line feeds in a row. *)
Theorem formatCode_shape (extname : string -> string)
    (content filePath : string) :
  existsb (String.eqb (extname filePath)) PlainGenerator.formattedExtensions
  = true ->
  exists t,
    PlainGenerator.formatCode extname content filePath = t +:+ nl
    /\ trim t = t
    /\ map trimEnd (PlainGenerator.splitLines (t +:+ nl))
       = PlainGenerator.splitLines (t +:+ nl)
    /\ includes (nl +:+ nl +:+ nl) (t +:+ nl) = false.
Proof.
  intros Hext. unfold PlainGenerator.formatCode. rewrite Hext.
  destruct (format_stages content) as [Hlines Hruns]. cbn zeta in *.
  eexists. split; [reflexivity|]. split; [|split].
  - unfold trim at 1. rewrite trimStart_clean.
    + apply trimEnd_idem.
    + apply startsClean_trimEnd, startsClean_trimStart.
  - by apply linesTrimmed_lines.
  - by apply noTriple_short.
Qed.

Lemma formatCode_shape_witness :
  exists t,
    PlainGenerator.formatCode (fun _ => ".ts")
      ("  const a = 1;  " +:+ nl +:+ nl +:+ nl +:+ nl +:+ "const b = 2; "
       +:+ nl +:+ nl) "a.ts" = t +:+ nl
    /\ trim t = t
    /\ map trimEnd (PlainGenerator.splitLines (t +:+ nl))
       = PlainGenerator.splitLines (t +:+ nl)
    /\ includes (nl +:+ nl +:+ nl) (t +:+ nl) = false.
Proof.
  apply (formatCode_shape (fun _ => ".ts")
           ("  const a = 1;  " +:+ nl +:+ nl +:+ nl +:+ nl
            +:+ "const b = 2; " +:+ nl +:+ nl) "a.ts").
  reflexivity.
Defined.

Example formatCode_demo :
  PlainGenerator.formatCode (fun _ => ".ts")
    ("  const a = 1;  " +:+ nl +:+ nl +:+ nl +:+ nl +:+ "const b = 2; "
     +:+ nl +:+ nl) "a.ts"
  = "const a = 1;" +:+ nl +:+ nl +:+ "const b = 2;" +:+ nl.
Proof. reflexivity. Qed.
(** ** Ignore patterns *)

Section IgnorePatterns.

Import Ignore.

Lemma matchHere_Star rest s :
  matchHere (Star :: rest) s
  = matchHere rest s
    || match s with
       | String d r => negb (isLineTerminator d) && matchHere (Star :: rest) r
       | EmptyString => false
       end.
Proof. by destruct s. Qed.

Lemma matchHere_Dot rest d r :
  matchHere (Dot :: rest) (String d r)
  = negb (isLineTerminator d) && matchHere rest r.
Proof. done. Qed.

Lemma matchHere_Lit c rest d r :
  matchHere (Lit c :: rest) (String d r)
  = Ascii.eqb c d && matchHere rest r.
Proof. done. Qed.

Lemma test_unfold atoms text :
  test atoms text
  = matchHere atoms text
    || match text with
       | String _ r => test atoms r
       | EmptyString => false
       end.
Proof. by destruct text. Qed.

Lemma matchHere_test atoms s :
  matchHere atoms s = true -> test atoms s = true.
Proof. rewrite test_unfold. by intros ->. Qed.

Lemma test_tail atoms c r : test atoms r = true -> test atoms (String c r) = true.
Proof. rewrite (test_unfold atoms (String c r)). intros ->. apply orb_true_r. Qed.

(** A star in front adds nothing to a search. *)
Lemma test_Star_front atoms s : test (Star :: atoms) s = test atoms s.
Proof.
  induction s as [|d r IH].
  - rewrite (test_unfold (Star :: atoms)), (test_unfold atoms),
      matchHere_Star. by rewrite !orb_false_r.
  - rewrite (test_unfold _ (String d r)), (test_unfold atoms (String d r)).
    rewrite matchHere_Star, IH.
    destruct (matchHere atoms (String d r)); [done|]. cbn [orb].
    destruct (matchHere (Star :: atoms) r) eqn:Hm.
    + apply matchHere_test in Hm. rewrite IH in Hm. rewrite Hm.
      apply orb_true_r.
    + by rewrite andb_false_r.
Qed.

(** Nor does a star at the end. *)
Lemma matchHere_Star_end atoms s :
  matchHere (atoms ++ [ Star ]) s = matchHere atoms s.
Proof.
  revert s. induction atoms as [|[| |c] atoms IH]; intros s.
  - cbn [app]. rewrite matchHere_Star. by destruct s.
  - cbn [app]. induction s as [|d r IHs].
    + rewrite !matchHere_Star. by rewrite IH.
    + rewrite (matchHere_Star _ (String d r)),
        (matchHere_Star atoms (String d r)).
      by rewrite IH, IHs.
  - destruct s as [|d r]; [done|]. cbn [app].
    by rewrite !matchHere_Dot, IH.
  - destruct s as [|d r]; [done|]. cbn [app].
    by rewrite !matchHere_Lit, IH.
Qed.

Lemma test_Star_end atoms s : test (atoms ++ [ Star ]) s = test atoms s.
Proof.
  induction s as [|d r IH].
  - by rewrite (test_unfold (atoms ++ [ Star ])), (test_unfold atoms),
      matchHere_Star_end.
  - by rewrite (test_unfold (atoms ++ [ Star ])),
      (test_unfold atoms (String d r)), matchHere_Star_end, IH.
Qed.

(** A match stays a match when the text goes on. *)
Lemma matchHere_longer atoms s y :
  matchHere atoms s = true -> matchHere atoms (s +:+ y) = true.
Proof.
  revert s. induction atoms as [|[| |c] atoms IH]; intros s.
  - done.
  - induction s as [|d r IHs].
    + rewrite matchHere_Star, orb_false_r. intros H.
      rewrite matchHere_Star. cbn [String.append]. by rewrite (IH _ H).
    + rewrite matchHere_Star.
      change (String d r +:+ y) with (String d (r +:+ y)).
      rewrite (matchHere_Star atoms (String d (r +:+ y))).
      intros [H|[Hd H]%andb_true_iff]%orb_true_iff.
      * apply (IH (String d r)) in H.
        change (String d r +:+ y) with (String d (r +:+ y)) in H.
        by rewrite H.
      * rewrite Hd, (IHs H). apply orb_true_r.
  - destruct s as [|d r]; [done|].
    change (String d r +:+ y) with (String d (r +:+ y)).
    rewrite !matchHere_Dot.
    intros [-> H]%andb_true_iff. by rewrite (IH _ H).
  - destruct s as [|d r]; [done|].
    change (String d r +:+ y) with (String d (r +:+ y)).
    rewrite !matchHere_Lit.
    intros [-> H]%andb_true_iff. by rewrite (IH _ H).
Qed.

Lemma test_longer atoms s y :
  test atoms s = true -> test atoms (s +:+ y) = true.
Proof.
  induction s as [|d r IH]; rewrite test_unfold.
  - rewrite orb_false_r. intros H. apply matchHere_test.
    by apply (matchHere_longer atoms EmptyString).
  - intros [H|H]%orb_true_iff.
    + by apply matchHere_test, matchHere_longer.
    + change (String d r +:+ y) with (String d (r +:+ y)).
      by apply test_tail, IH.
Qed.

Lemma test_later atoms x s :
  test atoms s = true -> test atoms (x +:+ s) = true.
Proof.
  intros H. induction x as [|c x IH]; [done|].
  change (String c x +:+ s) with (String c (x +:+ s)). by apply test_tail.
Qed.

(** A pattern of plain characters is searched as it is written. *)
Lemma compile_plain p : isPlain p = true -> compile p = Some (literal p).
Proof.
  induction p as [|c r IH]; [done|]. cbn [isPlain compile literal].
  intros [Hc Hr]%andb_true_iff. rewrite (IH Hr), Hc.
  assert (Ascii.eqb c "*" = false /\ Ascii.eqb c "." = false) as [-> ->];
    [|done].
  split; apply Ascii.eqb_neq; intros ->; done.
Qed.

Lemma matchHere_literal p s : matchHere (literal p) s = String.prefix p s.
Proof.
  revert s. induction p as [|c r IH]; intros s; [by destruct s|].
  destruct s as [|d s]; [done|]. rewrite prefix_cons_eq.
  cbn [literal]. by rewrite matchHere_Lit, IH.
Qed.

Lemma test_literal p s : test (literal p) s = includes p s.
Proof.
  induction s as [|d s IH]; rewrite test_unfold, matchHere_literal.
  - done.
  - by rewrite IH.
Qed.

Lemma compile_append p q :
  compile (p +:+ q)
  = match compile p, compile q with
    | Some a, Some b => Some (a ++ b)
    | _, _ => None
    end.
Proof.
  induction p as [|c r IH].
  - rewrite app_empty_l. cbn [compile]. by destruct (compile q).
  - change (String c r +:+ q) with (String c (r +:+ q)).
    cbn [compile]. rewrite IH.
    destruct (compile r), (compile q); try done.
    + by destruct (Ascii.eqb c "*"), (Ascii.eqb c "."), (isPlainChar c).
    + by destruct (Ascii.eqb c "*"), (Ascii.eqb c "."), (isPlainChar c).
Qed.

End IgnorePatterns.

(** X16. A pattern of letters, digits, [/], [-] and [_] asks whether the
    path holds it anywhere: the file is ignored exactly when one of the
    patterns is a part of its path. *)
Theorem plain_patterns_ask_for_a_part (filePath : string)
    (patterns : list string) :
  forallb Ignore.isPlain patterns = true ->
  Ignore.shouldIgnore filePath patterns
  = Some (existsb (fun p => includes p filePath) patterns).
Proof.
  induction patterns as [|p rest IH]; [done|]. cbn [forallb].
  intros [Hp Hrest]%andb_true_iff. cbn [Ignore.shouldIgnore existsb].
  rewrite (compile_plain p Hp), test_literal.
  destruct (includes p filePath); [done|]. by apply IH.
Qed.

Lemma plain_patterns_ask_for_a_part_witness :
  Ignore.shouldIgnore "src/latest/index.ts" [ "test" ] = Some true.
Proof.
  apply (plain_patterns_ask_for_a_part "src/latest/index.ts" [ "test" ]).
  reflexivity.
Defined.

(** X17. A star at the start or at the end of a pattern changes nothing:
    the pattern is searched for, not matched against the whole path. *)
Theorem outer_stars_are_idle (filePath pattern : string)
    (rest : list string) (atoms : list Ignore.Atom) :
  Ignore.compile pattern = Some atoms ->
  Ignore.shouldIgnore filePath (("*" +:+ pattern) :: rest)
  = Ignore.shouldIgnore filePath (pattern :: rest)
  /\ Ignore.shouldIgnore filePath ((pattern +:+ "*") :: rest)
     = Ignore.shouldIgnore filePath (pattern :: rest).
Proof.
  intros Hp. cbn [Ignore.shouldIgnore]. rewrite !compile_append, Hp.
  cbn [Ignore.compile Ascii.eqb Bool.eqb app].
  by rewrite test_Star_front, test_Star_end.
Qed.

Lemma outer_stars_are_idle_witness :
  Ignore.shouldIgnore "src/user.test.ts" [ "*.test." ]
  = Ignore.shouldIgnore "src/user.test.ts" [ ".test." ]
  /\ Ignore.shouldIgnore "src/user.test.ts" [ ".test.*" ]
     = Ignore.shouldIgnore "src/user.test.ts" [ ".test." ].
Proof.
  apply (outer_stars_are_idle "src/user.test.ts" ".test." []
           [ Ignore.Dot; Ignore.Lit "t"; Ignore.Lit "e"; Ignore.Lit "s";
             Ignore.Lit "t"; Ignore.Dot ]).
  reflexivity.
Defined.

(** X18. An ignored path stays ignored inside any longer path: the
    patterns are tied to neither end. *)
Theorem ignored_inside_longer_paths (filePath before after : string)
    (patterns : list string) :
  Ignore.shouldIgnore filePath patterns = Some true ->
  Ignore.shouldIgnore (before +:+ filePath +:+ after) patterns = Some true.
Proof.
  induction patterns as [|p rest IH]; [done|]. cbn [Ignore.shouldIgnore].
  destruct (Ignore.compile p) as [atoms|]; [|done].
  destruct (Ignore.test atoms filePath) eqn:Hm.
  - intros _. by rewrite test_later by by apply test_longer.
  - intros H. rewrite (IH H).
    by destruct (Ignore.test atoms (before +:+ filePath +:+ after)).
Qed.

Lemma ignored_inside_longer_paths_witness :
  Ignore.shouldIgnore ("src/" +:+ "a.md" +:+ ".ts") [ "*.md" ] = Some true.
Proof.
  apply (ignored_inside_longer_paths "a.md" "src/" ".ts" [ "*.md" ]).
  reflexivity.
Defined.
(** ** The substitution theorems at sample inputs *)



Lemma unknown_tag_tolerated_witness :
  exists w',
    processField demoTemplates "notes" (JStr "textarea") "address" emptyWalk
    = Returned w'
    /\ formItems (buffers w') = formItems (buffers emptyWalk)
    /\ allFields w' = allFields emptyWalk ++ [ "'address.notes'" ].
Proof.
  apply (unknown_tag_tolerated demoTemplates "notes" (JStr "textarea")
           "address" emptyWalk); reflexivity.
Defined.
